(** * A relay server over TCP with a process-wide AES-256-CBC key, and
      its client

    Shallow embedding of [index.js]: the server half (the [VPNServer]
    constructor, its prototype methods, the handlers that [start] and the
    signal handlers install) and the client half (the [VPNClient]
    constructor, its prototype methods, the socket handlers that [connect]
    installs and the command line), together with the parts of the Node.js
    runtime they call: [JSON.parse] / [JSON.stringify], [Buffer] hex
    conversion, and the [aes-256-cbc] cipher objects returned by
    [crypto.createCipheriv] / [crypto.createDecipheriv].

    Conventions.
    - A [Buffer] is a [list byte].  A JavaScript string is a [string], kept
      as the byte sequence of its UTF-8 form.  The server only ever
      compares strings with ASCII constants, tests them for emptiness and
      hex-decodes them.  The client also decodes each chunk it receives by
      itself; there the byte sequence stands for the string when the text
      is ASCII, which is what the server writes.  Trimming strips the white
      space of the runtime in its UTF-8 form.
    - A JSON number is kept as the literal that was read; the printer is
      that of the runtime on integers, the only numbers either program
      prints.
    - Integer-valued JavaScript numbers (client ids, byte counters, clock
      readings) are [N] or [Z]; they coincide with the IEEE doubles of the
      runtime while they stay below 2^53.
    - Objects that the code mutates in place (the server, the per-client
      records, the sockets; the client, its module variables, its socket)
      live in one explicit state record per process that every method
      takes and returns. *)

From Stdlib Require Import NArith ZArith List Bool Btauto.
From Stdlib Require Import Strings.Byte Strings.String Strings.Ascii.
From Stdlib Require Import DecimalString.
From Stdlib Require DecimalPos.
From stdpp Require Import base option list gmap sorting strings.

Import ListNotations.
#[local] Set Warnings "-register-all".
#[local] Open Scope N_scope.

(* ================================================================== *)
(** * Part I. Definitions                                              *)
(* ================================================================== *)

(** ** Bytes *)

Module Bytes.

Definition byte_of_N (n : N) : byte :=
  match Byte.of_N (n mod 256) with
  | Some b => b
  | None => x00
  end.

Definition bxor (a b : byte) : byte :=
  byte_of_N (N.lxor (Byte.to_N a) (Byte.to_N b)).

(** Byte-wise xor of [a] with [b]; the result is as long as [a], bytes
    missing from [b] count as zero. *)
Fixpoint xor_bytes (a b : list byte) : list byte :=
  match a with
  | [] => []
  | x :: a' => bxor x (hd x00 b) :: xor_bytes a' (tl b)
  end.

(** The 256 bytes in increasing order. *)
Definition all_bytes : list byte :=
  map (fun n => byte_of_N (N.of_nat n)) (seq 0 256).

End Bytes.
Export Bytes.

(** ** The AES-256 block cipher (FIPS 197) *)

Module AES.

Definition SBOX : list byte :=
  [x63; x7c; x77; x7b; xf2; x6b; x6f; xc5; x30; x01; x67; x2b; xfe; xd7; xab; x76;
   xca; x82; xc9; x7d; xfa; x59; x47; xf0; xad; xd4; xa2; xaf; x9c; xa4; x72; xc0;
   xb7; xfd; x93; x26; x36; x3f; xf7; xcc; x34; xa5; xe5; xf1; x71; xd8; x31; x15;
   x04; xc7; x23; xc3; x18; x96; x05; x9a; x07; x12; x80; xe2; xeb; x27; xb2; x75;
   x09; x83; x2c; x1a; x1b; x6e; x5a; xa0; x52; x3b; xd6; xb3; x29; xe3; x2f; x84;
   x53; xd1; x00; xed; x20; xfc; xb1; x5b; x6a; xcb; xbe; x39; x4a; x4c; x58; xcf;
   xd0; xef; xaa; xfb; x43; x4d; x33; x85; x45; xf9; x02; x7f; x50; x3c; x9f; xa8;
   x51; xa3; x40; x8f; x92; x9d; x38; xf5; xbc; xb6; xda; x21; x10; xff; xf3; xd2;
   xcd; x0c; x13; xec; x5f; x97; x44; x17; xc4; xa7; x7e; x3d; x64; x5d; x19; x73;
   x60; x81; x4f; xdc; x22; x2a; x90; x88; x46; xee; xb8; x14; xde; x5e; x0b; xdb;
   xe0; x32; x3a; x0a; x49; x06; x24; x5c; xc2; xd3; xac; x62; x91; x95; xe4; x79;
   xe7; xc8; x37; x6d; x8d; xd5; x4e; xa9; x6c; x56; xf4; xea; x65; x7a; xae; x08;
   xba; x78; x25; x2e; x1c; xa6; xb4; xc6; xe8; xdd; x74; x1f; x4b; xbd; x8b; x8a;
   x70; x3e; xb5; x66; x48; x03; xf6; x0e; x61; x35; x57; xb9; x86; xc1; x1d; x9e;
   xe1; xf8; x98; x11; x69; xd9; x8e; x94; x9b; x1e; x87; xe9; xce; x55; x28; xdf;
   x8c; xa1; x89; x0d; xbf; xe6; x42; x68; x41; x99; x2d; x0f; xb0; x54; xbb; x16].

Definition INV_SBOX : list byte :=
  [x52; x09; x6a; xd5; x30; x36; xa5; x38; xbf; x40; xa3; x9e; x81; xf3; xd7; xfb;
   x7c; xe3; x39; x82; x9b; x2f; xff; x87; x34; x8e; x43; x44; xc4; xde; xe9; xcb;
   x54; x7b; x94; x32; xa6; xc2; x23; x3d; xee; x4c; x95; x0b; x42; xfa; xc3; x4e;
   x08; x2e; xa1; x66; x28; xd9; x24; xb2; x76; x5b; xa2; x49; x6d; x8b; xd1; x25;
   x72; xf8; xf6; x64; x86; x68; x98; x16; xd4; xa4; x5c; xcc; x5d; x65; xb6; x92;
   x6c; x70; x48; x50; xfd; xed; xb9; xda; x5e; x15; x46; x57; xa7; x8d; x9d; x84;
   x90; xd8; xab; x00; x8c; xbc; xd3; x0a; xf7; xe4; x58; x05; xb8; xb3; x45; x06;
   xd0; x2c; x1e; x8f; xca; x3f; x0f; x02; xc1; xaf; xbd; x03; x01; x13; x8a; x6b;
   x3a; x91; x11; x41; x4f; x67; xdc; xea; x97; xf2; xcf; xce; xf0; xb4; xe6; x73;
   x96; xac; x74; x22; xe7; xad; x35; x85; xe2; xf9; x37; xe8; x1c; x75; xdf; x6e;
   x47; xf1; x1a; x71; x1d; x29; xc5; x89; x6f; xb7; x62; x0e; xaa; x18; xbe; x1b;
   xfc; x56; x3e; x4b; xc6; xd2; x79; x20; x9a; xdb; xc0; xfe; x78; xcd; x5a; xf4;
   x1f; xdd; xa8; x33; x88; x07; xc7; x31; xb1; x12; x10; x59; x27; x80; xec; x5f;
   x60; x51; x7f; xa9; x19; xb5; x4a; x0d; x2d; xe5; x7a; x9f; x93; xc9; x9c; xef;
   xa0; xe0; x3b; x4d; xae; x2a; xf5; xb0; xc8; xeb; xbb; x3c; x83; x53; x99; x61;
   x17; x2b; x04; x7e; xba; x77; xd6; x26; xe1; x69; x14; x63; x55; x21; x0c; x7d].

Definition sub_byte (b : byte) : byte :=
  nth (N.to_nat (Byte.to_N b)) SBOX x00.

Definition inv_sub_byte (b : byte) : byte :=
  nth (N.to_nat (Byte.to_N b)) INV_SBOX x00.

(** Multiplication by [x] in GF(2^8) modulo [x^8 + x^4 + x^3 + x + 1]. *)
Definition xtime (a : byte) : byte :=
  let n := Byte.to_N a in
  byte_of_N (N.lxor (N.shiftl n 1) (if N.testbit n 7 then 283 else 0)).

Definition mul2 (a : byte) : byte := xtime a.
Definition mul3 (a : byte) : byte := bxor (xtime a) a.
Definition mul4 (a : byte) : byte := xtime (xtime a).
Definition mul8 (a : byte) : byte := xtime (mul4 a).
Definition mul9 (a : byte) : byte := bxor (mul8 a) a.
Definition mul11 (a : byte) : byte := bxor (mul8 a) (bxor (mul2 a) a).
Definition mul13 (a : byte) : byte := bxor (mul8 a) (bxor (mul4 a) a).
Definition mul14 (a : byte) : byte := bxor (mul8 a) (bxor (mul4 a) (mul2 a)).

(** The state is the 16 bytes of a block in input order, that is column
    by column: byte [r + 4c] is row [r] of column [c]. *)
Definition block := list byte.

Definition sub_bytes (st : block) : block := map sub_byte st.
Definition inv_sub_bytes (st : block) : block := map inv_sub_byte st.

Definition permute (idx : list nat) (st : block) : block :=
  map (fun i => nth i st x00) idx.

Definition shift_rows : block -> block :=
  permute [0; 5; 10; 15; 4; 9; 14; 3; 8; 13; 2; 7; 12; 1; 6; 11]%nat.

Definition inv_shift_rows : block -> block :=
  permute [0; 13; 10; 7; 4; 1; 14; 11; 8; 5; 2; 15; 12; 9; 6; 3]%nat.

Definition mix_column (a0 a1 a2 a3 : byte) : list byte :=
  [ bxor (mul2 a0) (bxor (mul3 a1) (bxor a2 a3));
    bxor a0 (bxor (mul2 a1) (bxor (mul3 a2) a3));
    bxor a0 (bxor a1 (bxor (mul2 a2) (mul3 a3)));
    bxor (mul3 a0) (bxor a1 (bxor a2 (mul2 a3))) ].

Definition inv_mix_column (a0 a1 a2 a3 : byte) : list byte :=
  [ bxor (mul14 a0) (bxor (mul11 a1) (bxor (mul13 a2) (mul9 a3)));
    bxor (mul9 a0) (bxor (mul14 a1) (bxor (mul11 a2) (mul13 a3)));
    bxor (mul13 a0) (bxor (mul9 a1) (bxor (mul14 a2) (mul11 a3)));
    bxor (mul11 a0) (bxor (mul13 a1) (bxor (mul9 a2) (mul14 a3))) ].

Fixpoint mix_columns (st : block) : block :=
  match st with
  | a0 :: a1 :: a2 :: a3 :: rest => mix_column a0 a1 a2 a3 ++ mix_columns rest
  | _ => st
  end.

Fixpoint inv_mix_columns (st : block) : block :=
  match st with
  | a0 :: a1 :: a2 :: a3 :: rest =>
      inv_mix_column a0 a1 a2 a3 ++ inv_mix_columns rest
  | _ => st
  end.

Definition add_round_key (st rk : block) : block := xor_bytes st rk.

(** *** Key schedule for a 256-bit key: 60 words, 15 round keys *)

Definition word_at (w : list byte) (i : nat) : list byte :=
  firstn 4 (skipn (4 * i) w).

Definition rot_word (w : list byte) : list byte :=
  match w with
  | a :: rest => rest ++ [a]
  | [] => []
  end.

Definition sub_word (w : list byte) : list byte := map sub_byte w.

Definition RCON : list byte := [x01; x02; x04; x08; x10; x20; x40].

Definition schedule_word (w : list byte) (i : nat) : list byte :=
  let temp := word_at w (i - 1) in
  let temp :=
    if (i mod 8 =? 0)%nat then
      xor_bytes (sub_word (rot_word temp)) [nth (i / 8 - 1) RCON x00]
    else if (i mod 8 =? 4)%nat then sub_word temp
    else temp in
  xor_bytes (word_at w (i - 8)) temp.

Fixpoint expand (n i : nat) (w : list byte) : list byte :=
  match n with
  | O => w
  | S n' => expand n' (S i) (w ++ schedule_word w i)
  end.

Definition key_expansion (key : list byte) : list byte := expand 52 8 key.

Definition round_key (w : list byte) (r : nat) : block :=
  firstn 16 (skipn (16 * r) w).

(** *** Cipher and inverse cipher *)

Definition round (w : list byte) (st : block) (r : nat) : block :=
  add_round_key (mix_columns (shift_rows (sub_bytes st))) (round_key w r).

Definition inv_round (w : list byte) (st : block) (r : nat) : block :=
  inv_mix_columns (add_round_key (inv_sub_bytes (inv_shift_rows st)) (round_key w r)).

Definition middle_rounds : list nat := seq 1 13.

Definition encrypt_block (w : list byte) (b : block) : block :=
  let st := add_round_key b (round_key w 0) in
  let st := fold_left (round w) middle_rounds st in
  add_round_key (shift_rows (sub_bytes st)) (round_key w 14).

Definition decrypt_block (w : list byte) (b : block) : block :=
  let st := add_round_key b (round_key w 14) in
  let st := fold_left (inv_round w) (rev middle_rounds) st in
  add_round_key (inv_sub_bytes (inv_shift_rows st)) (round_key w 0).

End AES.

(** ** Exceptions *)

Inductive exn : Set :=
  | SyntaxError                        (* JSON.parse on malformed text *)
  | TypeError                          (* property of null, Buffer.from of a non-string *)
  | ERR_CRYPTO_INVALID_KEYLEN          (* createCipheriv: key is not 32 bytes *)
  | ERR_CRYPTO_INVALID_IV              (* createCipheriv: iv is not 16 bytes *)
  | ERR_OSSL_WRONG_FINAL_BLOCK_LENGTH  (* decipher.final: input not whole blocks *)
  | ERR_OSSL_BAD_DECRYPT.              (* decipher.final: padding check failed *)

(** The completion of a JavaScript expression: a value or a thrown error. *)
Inductive result (A : Type) : Type :=
  | Ok (a : A)
  | Throw (e : exn).
Arguments Ok {A} a.
Arguments Throw {A} e.

Definition bind {A B} (r : result A) (k : A -> result B) : result B :=
  match r with
  | Ok a => k a
  | Throw e => Throw e
  end.

Notation "'let!' x ':=' r 'in' k" := (bind r (fun x => k))
  (at level 10, x name, r at level 100, k at level 200).

(** ** Buffers *)

Definition Buffer := list byte.

Module Hex.

Definition hex_digit (n : N) : ascii :=
  ascii_of_N (if n <? 10 then 48 + n else 87 + n).

Definition hex_value (c : ascii) : option N :=
  let n := N_of_ascii c in
  if (48 <=? n) && (n <=? 57) then Some (n - 48)
  else if (97 <=? n) && (n <=? 102) then Some (n - 87)
  else if (65 <=? n) && (n <=? 70) then Some (n - 55)
  else None.

(** [buf.toString('hex')]: two lower-case digits per byte. *)
Fixpoint to_hex (buf : Buffer) : string :=
  match buf with
  | [] => EmptyString
  | b :: rest =>
      let n := Byte.to_N b in
      String (hex_digit (n / 16)) (String (hex_digit (n mod 16)) (to_hex rest))
  end.

(** [Buffer.from(s, 'hex')]: decodes pairs of digits and stops at the first
    pair that is not two hex digits, or when fewer than two characters are
    left. *)
Fixpoint from_hex (s : string) : Buffer :=
  match s with
  | String c1 (String c2 rest) =>
      match hex_value c1, hex_value c2 with
      | Some h, Some l => byte_of_N (16 * h + l) :: from_hex rest
      | _, _ => []
      end
  | _ => []
  end.

End Hex.

(** ** Cipher objects: AES-256 in CBC mode with PKCS#7 padding *)

Module Cipher.

Import AES.

Fixpoint cbc_encrypt (w : list byte) (prev : block) (bs : list block)
  : list block * block :=
  match bs with
  | [] => ([], prev)
  | b :: bs' =>
      let c := encrypt_block w (xor_bytes b prev) in
      let '(cs, prev') := cbc_encrypt w c bs' in
      (c :: cs, prev')
  end.

Fixpoint cbc_decrypt (w : list byte) (prev : block) (bs : list block)
  : list block * block :=
  match bs with
  | [] => ([], prev)
  | c :: bs' =>
      let p := xor_bytes (decrypt_block w c) prev in
      let '(ps, prev') := cbc_decrypt w c bs' in
      (p :: ps, prev')
  end.

(** The first [n] 16-byte blocks of [l]. *)
Fixpoint blocks (n : nat) (l : list byte) : list block :=
  match n with
  | O => []
  | S n' => firstn 16 l :: blocks n' (skipn 16 l)
  end.

(** A whole block. *)
Definition whole (b : block) : Prop := length b = 16%nat.

(** State of a cipher object: expanded key, chaining block, and the input
    bytes that do not fill a block yet. *)
Record Cipheriv := {
  c_w : list byte;
  c_prev : block;
  c_buf : list byte
}.

(** State of a decipher object; [d_held] is the last decrypted block, kept
    back until [final] can strip the padding from it. *)
Record Decipheriv := {
  d_w : list byte;
  d_prev : block;
  d_buf : list byte;
  d_held : option block
}.

Definition check_key_iv (key iv : Buffer) : result unit :=
  if negb (length key =? 32)%nat then Throw ERR_CRYPTO_INVALID_KEYLEN
  else if negb (length iv =? 16)%nat then Throw ERR_CRYPTO_INVALID_IV
  else Ok tt.

(** [crypto.createCipheriv('aes-256-cbc', key, iv)]. *)
Definition createCipheriv (key iv : Buffer) : result Cipheriv :=
  let! _ := check_key_iv key iv in
  Ok {| c_w := key_expansion key; c_prev := iv; c_buf := [] |}.

(** [crypto.createDecipheriv('aes-256-cbc', key, iv)]. *)
Definition createDecipheriv (key iv : Buffer) : result Decipheriv :=
  let! _ := check_key_iv key iv in
  Ok {| d_w := key_expansion key; d_prev := iv; d_buf := []; d_held := None |}.

(** [cipher.update(data)]: encrypts the whole blocks available so far. *)
Definition cipher_update (c : Cipheriv) (data : Buffer) : Cipheriv * Buffer :=
  let all := c_buf c ++ data in
  let n := (length all / 16)%nat in
  let '(cs, prev') := cbc_encrypt (c_w c) (c_prev c) (blocks n all) in
  ({| c_w := c_w c; c_prev := prev'; c_buf := skipn (16 * n) all |}, concat cs).

(** [cipher.final()]: pads the pending bytes to a whole block with [k]
    bytes of value [k], [1 <= k <= 16], and encrypts it. *)
Definition cipher_final (c : Cipheriv) : Buffer :=
  let k := (16 - length (c_buf c))%nat in
  let padded := c_buf c ++ repeat (byte_of_N (N.of_nat k)) k in
  encrypt_block (c_w c) (xor_bytes padded (c_prev c)).

(** [decipher.update(data)]: decrypts the whole blocks available so far;
    when the input ends on a block boundary the last block is held. *)
Definition decipher_update (d : Decipheriv) (data : Buffer)
  : Decipheriv * Buffer :=
  match data with
  | [] => (d, [])
  | _ :: _ =>
      let all := d_buf d ++ data in
      let n := (length all / 16)%nat in
      let '(ps, prev') := cbc_decrypt (d_w d) (d_prev d) (blocks n all) in
      let rest := skipn (16 * n) all in
      let out := from_option (fun b => [b]) [] (d_held d) ++ ps in
      match rest with
      | [] =>
          ({| d_w := d_w d; d_prev := prev'; d_buf := [];
              d_held := last out |},
           concat (removelast out))
      | _ :: _ =>
          ({| d_w := d_w d; d_prev := prev'; d_buf := rest; d_held := None |},
           concat out)
      end
  end.

(** The padding check of [decipher.final()] on the held block: its last
    byte [k] must satisfy [1 <= k <= 16] and the last [k] bytes must all
    equal [k]; the result is the block without them. *)
Definition unpad (b : block) : result Buffer :=
  let k := N.to_nat (Byte.to_N (List.last b x00)) in
  if (k =? 0)%nat || (16 <? k)%nat then Throw ERR_OSSL_BAD_DECRYPT
  else if forallb (fun x => Byte.eqb x (byte_of_N (N.of_nat k)))
            (skipn (16 - k) b)
       then Ok (firstn (16 - k) b)
       else Throw ERR_OSSL_BAD_DECRYPT.

(** [decipher.final()]. *)
Definition decipher_final (d : Decipheriv) : result Buffer :=
  match d_buf d, d_held d with
  | [], Some b => unpad b
  | _, _ => Throw ERR_OSSL_WRONG_FINAL_BLOCK_LENGTH
  end.

End Cipher.

(** ** JSON values, [JSON.parse] and [JSON.stringify] *)

Module Json.

(** A number literal is kept exactly, as [m * 10^e]. *)
Inductive JSON : Type :=
  | JNull
  | JBool (b : bool)
  | JNumber (m e : Z)
  | JString (s : string)
  | JArray (elems : list JSON)
  | JObject (members : list (string * JSON)).

(** *** Tokens *)

Inductive token : Type :=
  | TLBrace | TRBrace | TLBracket | TRBracket | TColon | TComma
  | TString (s : string)
  | TNumber (m e : Z)
  | TTrue | TFalse | TNull.

(** Where the scanner is inside a number literal: an optional minus sign,
    an integer part (a single 0, or a non-zero digit followed by digits),
    an optional fraction (a dot and at least one digit) and an optional
    exponent (e or E, an optional sign, at least one digit). *)
Inductive num_state : Set :=
  | NMinus | NZero | NInt | NDot | NFrac | NExp | NExpSign | NExpDigits.

Record num_acc := {
  n_neg : bool;      (* a leading minus sign was read *)
  n_mant : Z;        (* the digits read so far, integer and fraction *)
  n_frac : Z;        (* how many of them are fraction digits *)
  n_eneg : bool;     (* the exponent has a minus sign *)
  n_exp : Z          (* the exponent digits read so far *)
}.

Inductive lex_mode : Type :=
  | LStart                                   (* between tokens *)
  | LStr (acc : list ascii)                  (* inside a string, reversed *)
  | LEsc (acc : list ascii)                  (* after a backslash *)
  | LUni (acc : list ascii) (k : nat) (v : N)  (* after \u, [k] digits read *)
  | LNum (st : num_state) (a : num_acc)
  | LLit (expected : list ascii) (t : token). (* inside true, false, null *)

Definition is_digit (c : ascii) : bool :=
  let n := N_of_ascii c in (48 <=? n) && (n <=? 57).

Definition digit_value (c : ascii) : Z := Z.of_N (N_of_ascii c - 48).

Definition is_whitespace (c : ascii) : bool :=
  let n := N_of_ascii c in (n =? 32) || (n =? 9) || (n =? 10) || (n =? 13).

Definition num_accepting (st : num_state) : bool :=
  match st with
  | NZero | NInt | NFrac | NExpDigits => true
  | NMinus | NDot | NExp | NExpSign => false
  end.

Definition num_token (a : num_acc) : token :=
  TNumber (if n_neg a then - n_mant a else n_mant a)%Z
          ((if n_eneg a then - n_exp a else n_exp a) - n_frac a)%Z.

Definition num_start (neg : bool) (d : Z) : num_acc :=
  {| n_neg := neg; n_mant := d; n_frac := 0; n_eneg := false; n_exp := 0 |}.

Definition push_int (a : num_acc) (d : Z) : num_acc :=
  {| n_neg := n_neg a; n_mant := (10 * n_mant a + d)%Z; n_frac := n_frac a;
     n_eneg := n_eneg a; n_exp := n_exp a |}.

Definition push_frac (a : num_acc) (d : Z) : num_acc :=
  {| n_neg := n_neg a; n_mant := (10 * n_mant a + d)%Z;
     n_frac := (n_frac a + 1)%Z; n_eneg := n_eneg a; n_exp := n_exp a |}.

Definition set_eneg (a : num_acc) : num_acc :=
  {| n_neg := n_neg a; n_mant := n_mant a; n_frac := n_frac a;
     n_eneg := true; n_exp := n_exp a |}.

Definition push_exp (a : num_acc) (d : Z) : num_acc :=
  {| n_neg := n_neg a; n_mant := n_mant a; n_frac := n_frac a;
     n_eneg := n_eneg a; n_exp := (10 * n_exp a + d)%Z |}.

(** The UTF-8 form of the code unit written [\uXXXX]. *)
Definition utf8 (v : N) : list ascii :=
  if v <? 128 then [ascii_of_N v]
  else if v <? 2048 then
    [ascii_of_N (192 + v / 64); ascii_of_N (128 + v mod 64)]
  else
    [ascii_of_N (224 + v / 4096); ascii_of_N (128 + (v / 64) mod 64);
     ascii_of_N (128 + v mod 64)].

(** One character read between tokens. *)
Definition lex_start (c : ascii) : option (lex_mode * list token) :=
  if is_whitespace c then Some (LStart, [])
  else if is_digit c then
    Some (LNum (if Ascii.eqb c "0" then NZero else NInt)
               (num_start false (digit_value c)), [])
  else match c with
  | "{"%char => Some (LStart, [TLBrace])
  | "}"%char => Some (LStart, [TRBrace])
  | "["%char => Some (LStart, [TLBracket])
  | "]"%char => Some (LStart, [TRBracket])
  | ":"%char => Some (LStart, [TColon])
  | ","%char => Some (LStart, [TComma])
  | "034"%char => Some (LStr [], [])
  | "-"%char => Some (LNum NMinus (num_start true 0), [])
  | "t"%char => Some (LLit ["r"; "u"; "e"]%char TTrue, [])
  | "f"%char => Some (LLit ["a"; "l"; "s"; "e"]%char TFalse, [])
  | "n"%char => Some (LLit ["u"; "l"; "l"]%char TNull, [])
  | _ => None
  end.

(** One character read inside a number; [None] when [c] cannot continue
    the literal from state [st]. *)
Definition num_step (st : num_state) (a : num_acc) (c : ascii)
  : option (num_state * num_acc) :=
  let d := digit_value c in
  let is_e := Ascii.eqb c "e" || Ascii.eqb c "E" in
  match st with
  | NMinus =>
      if is_digit c
      then Some (if Ascii.eqb c "0" then NZero else NInt, push_int a d)
      else None
  | NZero =>
      if Ascii.eqb c "." then Some (NDot, a)
      else if is_e then Some (NExp, a)
      else None
  | NInt =>
      if is_digit c then Some (NInt, push_int a d)
      else if Ascii.eqb c "." then Some (NDot, a)
      else if is_e then Some (NExp, a)
      else None
  | NDot => if is_digit c then Some (NFrac, push_frac a d) else None
  | NFrac =>
      if is_digit c then Some (NFrac, push_frac a d)
      else if is_e then Some (NExp, a)
      else None
  | NExp =>
      if is_digit c then Some (NExpDigits, push_exp a d)
      else if Ascii.eqb c "+" then Some (NExpSign, a)
      else if Ascii.eqb c "-" then Some (NExpSign, set_eneg a)
      else None
  | NExpSign | NExpDigits =>
      if is_digit c then Some (NExpDigits, push_exp a d) else None
  end.

Definition escape_char (c : ascii) : option ascii :=
  match c with
  | "034"%char => Some "034"%char
  | "\"%char => Some "\"%char
  | "/"%char => Some "/"%char
  | "b"%char => Some "008"%char
  | "f"%char => Some "012"%char
  | "n"%char => Some "010"%char
  | "r"%char => Some "013"%char
  | "t"%char => Some "009"%char
  | _ => None
  end.

(** One step of the scanner: the next mode and the tokens completed by
    [c], or [None] on a lexical error. *)
Definition lex_step (m : lex_mode) (c : ascii) : option (lex_mode * list token) :=
  match m with
  | LStart => lex_start c
  | LStr acc =>
      if Ascii.eqb c "034" then Some (LStart, [TString (string_of_list_ascii (rev acc))])
      else if Ascii.eqb c "\" then Some (LEsc acc, [])
      else if N_of_ascii c <? 32 then None
      else Some (LStr (c :: acc), [])
  | LEsc acc =>
      if Ascii.eqb c "u" then Some (LUni acc 0 0, [])
      else match escape_char c with
           | Some c' => Some (LStr (c' :: acc), [])
           | None => None
           end
  | LUni acc k v =>
      match Hex.hex_value c with
      | Some h =>
          let v' := 16 * v + h in
          if (k =? 3)%nat then Some (LStr (rev (utf8 v') ++ acc), [])
          else Some (LUni acc (S k) v', [])
      | None => None
      end
  | LNum st a =>
      match num_step st a c with
      | Some (st', a') => Some (LNum st' a', [])
      | None =>
          if num_accepting st then
            match lex_start c with
            | Some (m', toks) => Some (m', num_token a :: toks)
            | None => None
            end
          else None
      end
  | LLit expected t =>
      match expected with
      | [] => None
      | c' :: rest =>
          if Ascii.eqb c c' then
            match rest with
            | [] => Some (LStart, [t])
            | _ :: _ => Some (LLit rest t, [])
            end
          else None
      end
  end.

Fixpoint lex_from (m : lex_mode) (s : string) : option (list token) :=
  match s with
  | EmptyString =>
      match m with
      | LStart => Some []
      | LNum st a => if num_accepting st then Some [num_token a] else None
      | _ => None
      end
  | String c s' =>
      match lex_step m c with
      | Some (m', toks) =>
          match lex_from m' s' with
          | Some rest => Some (toks ++ rest)
          | None => None
          end
      | None => None
      end
  end.

Definition lex (s : string) : option (list token) := lex_from LStart s.

(** *** Parser: a pushdown automaton over the tokens *)

(** A container under construction; elements and members are reversed. *)
Inductive frame : Type :=
  | FArray (elems : list JSON)
  | FObject (members : list (string * JSON)) (key : option string).

Inductive expect : Type :=
  | PValue          (* a value *)
  | PValueOrEnd     (* a value or ']' : directly after '[' *)
  | PKeyOrEnd       (* a key or '}' : directly after '{' *)
  | PKey            (* a key : after ',' in an object *)
  | PColon          (* ':' : after a key *)
  | PCommaOrEnd     (* ',' or the closing bracket : after a value *)
  | PDone (v : JSON). (* the text is complete *)

Definition deliver (v : JSON) (stack : list frame) : option (expect * list frame) :=
  match stack with
  | [] => Some (PDone v, [])
  | FArray es :: st => Some (PCommaOrEnd, FArray (v :: es) :: st)
  | FObject ms (Some k) :: st => Some (PCommaOrEnd, FObject ((k, v) :: ms) None :: st)
  | FObject _ None :: _ => None
  end.

Definition close_array (stack : list frame) : option (expect * list frame) :=
  match stack with
  | FArray es :: st => deliver (JArray (rev es)) st
  | _ => None
  end.

Definition close_object (stack : list frame) : option (expect * list frame) :=
  match stack with
  | FObject ms None :: st => deliver (JObject (rev ms)) st
  | _ => None
  end.

Definition set_key (k : string) (stack : list frame) : option (expect * list frame) :=
  match stack with
  | FObject ms None :: st => Some (PColon, FObject ms (Some k) :: st)
  | _ => None
  end.

Definition parse_value (t : token) (stack : list frame) : option (expect * list frame) :=
  match t with
  | TLBrace => Some (PKeyOrEnd, FObject [] None :: stack)
  | TLBracket => Some (PValueOrEnd, FArray [] :: stack)
  | TString s => deliver (JString s) stack
  | TNumber m e => deliver (JNumber m e) stack
  | TTrue => deliver (JBool true) stack
  | TFalse => deliver (JBool false) stack
  | TNull => deliver JNull stack
  | TRBrace | TRBracket | TColon | TComma => None
  end.

Definition parse_step (e : expect) (stack : list frame) (t : token)
  : option (expect * list frame) :=
  match e, t with
  | PValue, _ => parse_value t stack
  | PValueOrEnd, TRBracket => close_array stack
  | PValueOrEnd, _ => parse_value t stack
  | PKeyOrEnd, TRBrace => close_object stack
  | (PKeyOrEnd | PKey), TString k => set_key k stack
  | PColon, TColon => Some (PValue, stack)
  | PCommaOrEnd, TComma =>
      match stack with
      | FArray _ :: _ => Some (PValue, stack)
      | FObject _ _ :: _ => Some (PKey, stack)
      | [] => None
      end
  | PCommaOrEnd, TRBracket => close_array stack
  | PCommaOrEnd, TRBrace => close_object stack
  | _, _ => None
  end.

Fixpoint parse_tokens (e : expect) (stack : list frame) (ts : list token)
  : option JSON :=
  match ts with
  | [] => match e with PDone v => Some v | _ => None end
  | t :: ts' =>
      match parse_step e stack t with
      | Some (e', stack') => parse_tokens e' stack' ts'
      | None => None
      end
  end.

(** [JSON.parse(text)]. *)
Definition parse (text : string) : result JSON :=
  match lex text with
  | Some ts =>
      match parse_tokens PValue [] ts with
      | Some v => Ok v
      | None => Throw SyntaxError
      end
  | None => Throw SyntaxError
  end.

(** *** Reading parsed values *)

(** The last binding of [key]: a repeated key overrides the earlier one. *)
Fixpoint assoc_last (key : string) (ms : list (string * JSON)) : option JSON :=
  match ms with
  | [] => None
  | (k, v) :: rest =>
      match assoc_last key rest with
      | Some v' => Some v'
      | None => if String.eqb k key then Some v else None
      end
  end.

(** [v.key] for a key that no built-in prototype defines ([type],
    [encrypted], [payload]); [None] is [undefined]. *)
Definition get (v : JSON) (key : string) : result (option JSON) :=
  match v with
  | JNull => Throw TypeError
  | JObject ms => Ok (assoc_last key ms)
  | _ => Ok None
  end.

(** [x === 'c'] for a string constant. *)
Definition is_string (x : option JSON) (c : string) : bool :=
  match x with
  | Some (JString s) => String.eqb s c
  | _ => false
  end.

(** The literal [m * 10^e] reads as the double zero when it is zero or
    at most 2^-1075 in magnitude (it then rounds to zero). *)
Definition number_is_zero (m e : Z) : bool :=
  ((m =? 0) || ((e <? 0) && (Z.abs m * 2 ^ 1075 <=? 10 ^ (- e))))%Z.

(** Truthiness of a value read from a parsed message. *)
Definition truthy (x : option JSON) : bool :=
  match x with
  | None => false
  | Some JNull => false
  | Some (JBool b) => b
  | Some (JNumber m e) => negb (number_is_zero m e)
  | Some (JString s) => negb (String.eqb s "")
  | Some (JArray _) => true
  | Some (JObject _) => true
  end.

(** *** [JSON.stringify] *)

Definition hex4 (n : N) : string :=
  String "0" (String "0" (String (Hex.hex_digit (n / 16))
    (String (Hex.hex_digit (n mod 16)) EmptyString))).

Definition quote_char (c : ascii) : string :=
  let n := N_of_ascii c in
  if n =? 34 then "\" +:+ String c ""
  else if n =? 92 then "\\"
  else if n =? 8 then "\b"
  else if n =? 12 then "\f"
  else if n =? 10 then "\n"
  else if n =? 13 then "\r"
  else if n =? 9 then "\t"
  else if n <? 32 then "\u" +:+ hex4 n
  else String c "".

Fixpoint quote_chars (s : string) : string :=
  match s with
  | EmptyString => String "034" ""
  | String c s' => quote_char c +:+ quote_chars s'
  end.

Definition quote (s : string) : string := String "034" (quote_chars s).

Definition decimal (z : Z) : string := NilZero.string_of_int (Z.to_int z).

(** Integers print as JavaScript prints them (below 10^21).  A literal
    with an exponent ([e <> 0]) is printed back digit for digit: this
    keeps every parsed value apart, but it is not the text the runtime
    prints for the double it reads.  Neither the server nor the client
    ever prints such a number. *)
Definition number_to_string (m e : Z) : string :=
  if (e =? 0)%Z then decimal m else decimal m +:+ "e" +:+ decimal e.

Fixpoint stringify (v : JSON) : string :=
  match v with
  | JNull => "null"
  | JBool true => "true"
  | JBool false => "false"
  | JNumber m e => number_to_string m e
  | JString s => quote s
  | JArray elems =>
      "[" +:+
      (fix items (l : list JSON) : string :=
         match l with
         | [] => ""
         | [x] => stringify x
         | x :: l' => stringify x +:+ "," +:+ items l'
         end) elems +:+ "]"
  | JObject members =>
      "{" +:+
      (fix items (l : list (string * JSON)) : string :=
         match l with
         | [] => ""
         | [(k, x)] => quote k +:+ ":" +:+ stringify x
         | (k, x) :: l' => quote k +:+ ":" +:+ stringify x +:+ "," +:+ items l'
         end) members +:+ "}"
  end.

Arguments stringify : simpl never.
Arguments parse : simpl never.

End Json.

(** ** The server *)

Import Json.

(** What the server prints, one constructor per [console.log] or
    [console.error] call of the source. *)
Inductive log_line : Type :=
  | Log_client_connected (clientId : N) (address : string) (port : N)
  | Log_client_disconnected (clientId : N)
  | Error_client (clientId : N) (message : string)
  | Error_decryption (e : exn)
  | Log_decrypted (clientId : N) (decrypted : Buffer)
  | Log_tunnel_request (clientId : N)
  | Log_raw_data (clientId : N) (length : N)
  | Error_server (message : string)
  | Error_port_in_use (port : N)
  | Log_stats (clients received sent : N)
  | Log_signal
  | Log_shutting_down.

(** A [net.Socket].  [written] lists the chunks handed to the transport,
    oldest first.  [handlers] is the client id captured by the three
    closures that [handleConnection] registers with [socket.on]. *)
Record Socket := {
  remoteAddress : string;
  remotePort : N;
  destroyed : bool;
  written : list string;
  handlers : option N
}.

(** The per-client record built by [handleConnection]; [socket] is the
    handle of the socket object it refers to. *)
Record clientInfo := {
  id : N;
  socket : nat;
  address : string;
  port : N;
  connected : bool;
  bytesReceived : N;
  bytesSent : N
}.

(** The [VPNServer] object ([this_port], [this_host], [clients],
    [clientIdCounter]) together with the objects it shares with the
    runtime: the sockets, the console, and the process exit state. *)
Record World := {
  this_port : N;
  this_host : string;
  clients : gmap N clientInfo;
  clientIdCounter : N;
  sockets : list Socket;
  console : list log_line;
  exit_timer : bool;          (* the one-second exit timer is armed *)
  exit_code : option Z        (* the status given to [process.exit] *)
}.

Record stats {uptime_t : Type} := {
  connectedClients : N;
  totalBytesReceived : N;
  totalBytesSent : N;
  uptime : uptime_t
}.
Arguments stats : clear implicits.

Definition VPN_PORT : N := 8888.
Definition VPN_HOST : string := "0.0.0.0".

(** [new VPNServer(options)] in a fresh process; an option that is falsy
    is replaced by the default. *)
Definition VPNServer (options_port : option N) (options_host : option string) : World :=
  {| this_port := match options_port with
                  | Some p => if p =? 0 then VPN_PORT else p
                  | None => VPN_PORT
                  end;
     this_host := match options_host with
                  | Some h => if String.eqb h "" then VPN_HOST else h
                  | None => VPN_HOST
                  end;
     clients := ∅;
     clientIdCounter := 0;
     sockets := [];
     console := [];
     exit_timer := false;
     exit_code := None |}.

(** *** Field updates *)

Definition set_clients (f : gmap N clientInfo -> gmap N clientInfo) (s : World) : World :=
  {| this_port := this_port s; this_host := this_host s;
     clients := f (clients s); clientIdCounter := clientIdCounter s;
     sockets := sockets s; console := console s;
     exit_timer := exit_timer s; exit_code := exit_code s |}.

Definition set_clientIdCounter (n : N) (s : World) : World :=
  {| this_port := this_port s; this_host := this_host s;
     clients := clients s; clientIdCounter := n;
     sockets := sockets s; console := console s;
     exit_timer := exit_timer s; exit_code := exit_code s |}.

Definition set_sockets (f : list Socket -> list Socket) (s : World) : World :=
  {| this_port := this_port s; this_host := this_host s;
     clients := clients s; clientIdCounter := clientIdCounter s;
     sockets := f (sockets s); console := console s;
     exit_timer := exit_timer s; exit_code := exit_code s |}.

Definition log (l : log_line) (s : World) : World :=
  {| this_port := this_port s; this_host := this_host s;
     clients := clients s; clientIdCounter := clientIdCounter s;
     sockets := sockets s; console := console s ++ [l];
     exit_timer := exit_timer s; exit_code := exit_code s |}.

Definition set_exit_timer (b : bool) (s : World) : World :=
  {| this_port := this_port s; this_host := this_host s;
     clients := clients s; clientIdCounter := clientIdCounter s;
     sockets := sockets s; console := console s;
     exit_timer := b; exit_code := exit_code s |}.

Definition process_exit (status : Z) (s : World) : World :=
  {| this_port := this_port s; this_host := this_host s;
     clients := clients s; clientIdCounter := clientIdCounter s;
     sockets := sockets s; console := console s;
     exit_timer := exit_timer s; exit_code := Some status |}.

Definition with_connected (b : bool) (c : clientInfo) : clientInfo :=
  {| id := id c; socket := socket c; address := address c; port := port c;
     connected := b; bytesReceived := bytesReceived c; bytesSent := bytesSent c |}.

Definition add_bytesReceived (n : N) (c : clientInfo) : clientInfo :=
  {| id := id c; socket := socket c; address := address c; port := port c;
     connected := connected c; bytesReceived := bytesReceived c + n;
     bytesSent := bytesSent c |}.

Definition add_bytesSent (n : N) (c : clientInfo) : clientInfo :=
  {| id := id c; socket := socket c; address := address c; port := port c;
     connected := connected c; bytesReceived := bytesReceived c;
     bytesSent := bytesSent c + n |}.

(** *** Sockets *)

(** A socket as the [net] module hands it to the connection callback. *)
Definition new_socket (addr : string) (p : N) : Socket :=
  {| remoteAddress := addr; remotePort := p; destroyed := false;
     written := []; handlers := None |}.

(** The socket behind a handle.  Handles are only made by accepting a
    connection, so the lookup succeeds; a dangling handle reads as a
    destroyed socket. *)
Definition socket_at (s : World) (h : nat) : Socket :=
  default {| remoteAddress := ""; remotePort := 0; destroyed := true;
             written := []; handlers := None |} (sockets s !! h).

(** [socket.write(chunk)]: nothing is sent on a destroyed socket. *)
Definition write (chunk : string) (k : Socket) : Socket :=
  if destroyed k then k
  else {| remoteAddress := remoteAddress k; remotePort := remotePort k;
          destroyed := false; written := written k ++ [chunk];
          handlers := handlers k |}.

(** [socket.destroy()]. *)
Definition destroy (k : Socket) : Socket :=
  {| remoteAddress := remoteAddress k; remotePort := remotePort k;
     destroyed := true; written := written k; handlers := handlers k |}.

(** [socket.on('data', ..)], [socket.on('end', ..)], [socket.on('error', ..)]
    with closures over [clientId]. *)
Definition on (clientId : N) (k : Socket) : Socket :=
  {| remoteAddress := remoteAddress k; remotePort := remotePort k;
     destroyed := destroyed k; written := written k;
     handlers := Some clientId |}.

Definition socket_write (h : nat) (chunk : string) : World -> World :=
  set_sockets (alter (write chunk) h).

Definition socket_destroy (h : nat) : World -> World :=
  set_sockets (alter destroy h).

Definition socket_on (h : nat) (clientId : N) : World -> World :=
  set_sockets (alter (on clientId) h).

(** [Object.keys(self.clients)].  The keys are the client ids; the
    runtime lists them in increasing order. *)
Definition Object_keys (m : gmap N clientInfo) : list N :=
  merge_sort N.le (map fst (map_to_list m)).

(** [data.toString()] *)
Definition Buffer_toString (data : Buffer) : string := string_of_list_byte data.

Definition NL : string := String "010" "".

(** *** Messages built by the server *)

Definition JInt (n : Z) : JSON := JNumber n 0.

Definition pong (now : Z) : JSON :=
  JObject [("type", JString "pong"); ("timestamp", JInt now)].

Definition relay (clientId : N) (decrypted : Buffer) : JSON :=
  JObject [("type", JString "relay");
           ("fromClient", JInt (Z.of_N clientId));
           ("data", JString (Hex.to_hex decrypted))].

Definition tunnel_established : JSON :=
  JObject [("type", JString "tunnel_established"); ("status", JString "ready")].

(** *** Events delivered by the runtime *)

Inductive event {uptime_t : Type} : Type :=
  | Connection (remoteAddress : string) (remotePort : N)
  | SocketData (sock : nat) (data : Buffer) (now : Z)
  | SocketEnd (sock : nat)
  | SocketError (sock : nat) (message : string)
  | ServerError (message code : string)
  | StatsTimer (up : uptime_t)
  | Signal
  | ExitTimer.
Arguments event : clear implicits.

Section Server.

(** [crypto.randomBytes(32)] and [crypto.randomBytes(16)], drawn once when
    the module is loaded. *)
Variable ENCRYPTION_KEY : Buffer.
Variable ENCRYPTION_IV : Buffer.

(** [Buffer.from(v, 'hex')] for a parsed array or object [v]: the bytes of
    an array or array-like, a [TypeError] otherwise.  No property below
    depends on which. *)
Variable Buffer_from_object : JSON -> result Buffer.

Definition welcome (clientId : N) : JSON :=
  JObject [("type", JString "welcome");
           ("clientId", JInt (Z.of_N clientId));
           ("message", JString "Connected to VPN Server");
           ("encryptionKey", JString (Hex.to_hex ENCRYPTION_KEY));
           ("encryptionIV", JString (Hex.to_hex ENCRYPTION_IV))].

(** [Buffer.from(payload, 'hex')] for a truthy [payload]. *)
Definition Buffer_from (payload : option JSON) : result Buffer :=
  match payload with
  | Some (JString str) => Ok (Hex.from_hex str)
  | Some (JArray l) => Buffer_from_object (JArray l)
  | Some (JObject ms) => Buffer_from_object (JObject ms)
  | Some (JNumber _ _) | Some (JBool _) | Some JNull | None => Throw TypeError
  end.

Definition encrypt (data : Buffer) : result Buffer :=
  let! cipher := Cipher.createCipheriv ENCRYPTION_KEY ENCRYPTION_IV in
  let '(cipher, head) := Cipher.cipher_update cipher data in
  Ok (head ++ Cipher.cipher_final cipher).

(** The body of the [try] block of [decrypt]. *)
Definition decipher (data : Buffer) : result Buffer :=
  let! decipher := Cipher.createDecipheriv ENCRYPTION_KEY ENCRYPTION_IV in
  let '(decipher, head) := Cipher.decipher_update decipher data in
  let! tail := Cipher.decipher_final decipher in
  Ok (head ++ tail).

(** [decrypt(data)]: the buffer, or [None] for [null], and what it prints. *)
Definition decrypt (data : Buffer) : option Buffer * list log_line :=
  match decipher data with
  | Ok decrypted => (Some decrypted, [])
  | Throw e => (None, [Error_decryption e])
  end.

Definition handleConnection (sock : nat) (s : World) : World :=
  let clientId := clientIdCounter s + 1 in
  let s := set_clientIdCounter clientId s in
  let info := {| id := clientId;
                 socket := sock;
                 address := remoteAddress (socket_at s sock);
                 port := remotePort (socket_at s sock);
                 connected := true;
                 bytesReceived := 0;
                 bytesSent := 0 |} in
  let s := set_clients (insert clientId info) s in
  let s := log (Log_client_connected clientId (address info) (port info)) s in
  let s := socket_write sock (stringify (welcome clientId) +:+ NL) s in
  socket_on sock clientId s.

Definition sendToClient (clientId : N) (data : JSON) (s : World) : World :=
  match clients s !! clientId with
  | Some client =>
      if connected client then
        let message := stringify data +:+ NL in
        let s := socket_write (socket client) message s in
        set_clients
          (insert clientId (add_bytesSent (N.of_nat (String.length message)) client)) s
      else s
  | None => s
  end.

Definition broadcastToOthers (senderId : N) (data : JSON) (s : World) : World :=
  foldl (fun s clientId =>
           if decide (clientId ≠ senderId) then sendToClient clientId data s else s)
        s (Object_keys (clients s)).

Definition removeClient (clientId : N) (s : World) : World :=
  match clients s !! clientId with
  | Some client =>
      let s := set_clients (insert clientId (with_connected false client)) s in
      let s := if destroyed (socket_at s (socket client)) then s
               else socket_destroy (socket client) s in
      set_clients (delete clientId) s
  | None => s
  end.

(** The body of the [try] block of [handleClientData]. *)
Definition handle_message (clientId : N) (text : string) (now : Z) (s : World)
  : result World :=
  let! message := parse text in
  let! type := get message "type" in
  if is_string type "ping" then
    Ok (sendToClient clientId (pong now) s)
  else if is_string type "data" then
    let! encrypted := get message "encrypted" in
    let! payload := get message "payload" in
    if truthy encrypted && truthy payload then
      let! encryptedBuffer := Buffer_from payload in
      let '(decrypted, printed) := decrypt encryptedBuffer in
      let s := foldl (fun s l => log l s) s printed in
      match decrypted with
      | Some decrypted =>
          let s := log (Log_decrypted clientId decrypted) s in
          Ok (broadcastToOthers clientId (relay clientId decrypted) s)
      | None => Ok s
      end
    else Ok s
  else if is_string type "tunnel" then
    let s := log (Log_tunnel_request clientId) s in
    Ok (sendToClient clientId tunnel_established s)
  else Ok s.

(** [handleClientData(clientId, data)]; [now] is what [Date.now()] reads. *)
Definition handleClientData (clientId : N) (data : Buffer) (now : Z) (s : World)
  : World :=
  match clients s !! clientId with
  | None => s
  | Some client =>
      let length := N.of_nat (length data) in
      let s := set_clients (insert clientId (add_bytesReceived length client)) s in
      match handle_message clientId (Buffer_toString data) now s with
      | Ok s' => s'
      | Throw _ => log (Log_raw_data clientId length) s
      end
  end.

(** [getStats()]; [up] is what [process.uptime()] reads.  The world is
    returned along with the snapshot. *)
Definition getStats {uptime_t} (up : uptime_t) (s : World) : stats uptime_t * World :=
  let keys := Object_keys (clients s) in
  let totalClients := N.of_nat (length keys) in
  let '(received, sent) :=
    foldl (fun '(received, sent) clientId =>
             match clients s !! clientId with
             | Some client => (received + bytesReceived client, sent + bytesSent client)
             | None => (received, sent)
             end)
          (0, 0) keys in
  ({| connectedClients := totalClients;
      totalBytesReceived := received;
      totalBytesSent := sent;
      uptime := up |}, s).

(** The listener's ['error'] handler installed by [start]. *)
Definition server_on_error (message code : string) (s : World) : World :=
  let s := log (Error_server message) s in
  if String.eqb code "EADDRINUSE" then log (Error_port_in_use (this_port s)) s
  else s.

(** The statistics timer installed by [start]. *)
Definition print_stats {uptime_t} (up : uptime_t) (s : World) : World :=
  let '(st, s) := getStats up s in
  log (Log_stats (connectedClients st) (totalBytesReceived st) (totalBytesSent st)) s.

Definition stop (s : World) : World :=
  let s := log Log_shutting_down s in
  foldl (fun s clientId => removeClient clientId s) s (Object_keys (clients s)).

(** The [SIGINT] / [SIGTERM] handler: stop, then exit one second later. *)
Definition on_signal (s : World) : World :=
  set_exit_timer true (stop (log Log_signal s)).

(** One turn of the event loop. *)
Definition dispatch {uptime_t} (ev : event uptime_t) (s : World) : World :=
  match ev with
  | Connection addr p =>
      let sock := length (sockets s) in
      handleConnection sock (set_sockets (fun l => l ++ [new_socket addr p]) s)
  | SocketData sock data now =>
      match handlers (socket_at s sock), destroyed (socket_at s sock) with
      | Some clientId, false => handleClientData clientId data now s
      | _, _ => s
      end
  | SocketEnd sock =>
      match handlers (socket_at s sock), destroyed (socket_at s sock) with
      | Some clientId, false =>
          removeClient clientId (log (Log_client_disconnected clientId) s)
      | _, _ => s
      end
  | SocketError sock message =>
      let s := socket_destroy sock s in
      match handlers (socket_at s sock) with
      | Some clientId => removeClient clientId (log (Error_client clientId message) s)
      | None => s
      end
  | ServerError message code => server_on_error message code s
  | StatsTimer up => print_stats up s
  | Signal => on_signal s
  | ExitTimer => if exit_timer s then process_exit 0 s else s
  end.

(** Nothing runs once the process has exited. *)
Definition step {uptime_t} (s : World) (ev : event uptime_t) : World :=
  match exit_code s with
  | Some _ => s
  | None => dispatch ev s
  end.

Definition run {uptime_t} (evs : list (event uptime_t)) (s : World) : World :=
  foldl step s evs.

End Server.

(** ** Notions used to state the properties *)

Definition sumN (l : list N) : N := foldr N.add 0 l.

(** The sum of [f] over the sessions of a registry. *)
Definition sum_over (f : clientInfo -> N) (m : gmap N clientInfo) : N :=
  foldr (fun kc acc => f kc.2 + acc) 0 (map_to_list m).

(** The worlds the event loop can reach from a freshly built server. *)
Definition reachable (K IV : Buffer) (bfo : JSON -> result Buffer) (s : World) : Prop :=
  exists (uptime_t : Type) (p : option N) (h : option string)
         (evs : list (event uptime_t)),
    s = run K IV bfo evs (VPNServer p h).

(** The chunk a client writes for message [m]: [JSON.stringify(m) + '\n']. *)
Definition wire (m : JSON) : Buffer := list_byte_of_string (stringify m +:+ NL).

(** ** Sample data for the worked examples *)

(** The key and plaintext of FIPS 197, appendix C.3. *)
Definition sample_key : Buffer := map (fun n => byte_of_N (N.of_nat n)) (seq 0 32).
Definition sample_iv : Buffer := map (fun n => byte_of_N (N.of_nat n)) (seq 0 16).
Definition sample_block : Buffer :=
  [x00; x11; x22; x33; x44; x55; x66; x77; x88; x99; xaa; xbb; xcc; xdd; xee; xff].

Definition sample_from_object (_ : JSON) : result Buffer := Throw TypeError.

Definition sample_run : list (event unit) -> World -> World :=
  run sample_key sample_iv sample_from_object.

(** A server with three clients connected. *)
Definition three_clients : World :=
  sample_run [Connection "10.0.0.1" 5001; Connection "10.0.0.2" 5002;
              Connection "10.0.0.3" 5003] (VPNServer None None).

Definition ping_message (T : Z) : JSON :=
  JObject [("type", JString "ping"); ("timestamp", JInt T)].

Definition tunnel_message : JSON :=
  JObject [("type", JString "tunnel"); ("request", JString "establish")].

Definition data_message (payload : string) : JSON :=
  JObject [("type", JString "data"); ("encrypted", JBool true);
           ("payload", JString payload)].

(** What has been written to the socket of the first client. *)
Definition sent_to_first (s : World) : list string := written (socket_at s 0).

(** A socket only ever changes by being written to or destroyed. *)
Definition socket_grows (k k' : Socket) : Prop :=
  remoteAddress k' = remoteAddress k /\
  remotePort k' = remotePort k /\
  handlers k' = handlers k /\
  (destroyed k = true -> destroyed k' = true) /\
  exists more, written k' = written k ++ more.

Definition sockets_grow (s s' : World) : Prop :=
  Forall2 socket_grows (sockets s) (sockets s').

(** The identities handed out so far, in the order the connections were
    accepted: the one captured by the handlers of each socket. *)
Definition assigned_ids (s : World) : list N := omap handlers (sockets s).

(** The session [cx] registered under [X] is intact: it carries its own
    key, is marked connected, and its socket is live and routes its events
    to [X]. *)
Definition session_ok (s : World) (X : N) (cx : clientInfo) : Prop :=
  id cx = X /\ connected cx = true /\
  exists k, sockets s !! socket cx = Some k /\
            destroyed k = false /\ handlers k = Some X.

Definition registry_ok (s : World) : Prop :=
  forall X cx, clients s !! X = Some cx ->
    session_ok s X cx /\ 1 <= X <= clientIdCounter s.

(** The part of the world that only the connection, signal and timer
    handlers touch. *)
Definition server_fields (s : World) : N * string * N * bool * option Z :=
  (this_port s, this_host s, clientIdCounter s, exit_timer s, exit_code s).

(** Sockets are numbered in the order the connections were accepted; the
    socket of the [i]-th connection (counting from 0) is bound to identity
    [i + 1], which is also the identity in the welcome written first. *)
Definition ids_follow_acceptance (K IV : Buffer) (s : World) : Prop :=
  clientIdCounter s = N.of_nat (length (sockets s)) /\
  forall i k, sockets s !! i = Some k ->
    handlers k = Some (N.of_nat (S i)) /\
    head (written k) = Some (stringify (welcome K IV (N.of_nat (S i))) +:+ NL).

(** As [registry_ok], except that the socket [h] may have been destroyed
    by the transport already. *)
Definition registry_ok_but (h : nat) (s : World) : Prop :=
  forall X cx, clients s !! X = Some cx ->
    (id cx = X /\ connected cx = true /\
     exists k, sockets s !! socket cx = Some k /\ handlers k = Some X /\
               (socket cx <> h -> destroyed k = false)) /\
    1 <= X <= clientIdCounter s.

(** The world after [frame] has been sent to the session [client] through
    [sendToClient], [received] bytes having been counted first. *)
Definition replied (clientId : N) (client : clientInfo) (received : nat)
    (frame : string) (s : World) : World :=
  set_clients
    (insert clientId
       (add_bytesSent (N.of_nat (String.length frame))
          (add_bytesReceived (N.of_nat received) client)))
    (socket_write (socket client) frame s).

(** Every socket of [s] is still there in [s'], at the same handle, and
    has only grown. *)
Definition sockets_extend (s s' : World) : Prop :=
  forall i k, sockets s !! i = Some k ->
    exists k', sockets s' !! i = Some k' /\ socket_grows k k'.

(** [c'] is the session [c], possibly with other byte counters. *)
Definition same_session (c c' : clientInfo) : Prop :=
  id c' = id c /\ socket c' = socket c /\ address c' = address c /\
  port c' = port c /\ connected c' = connected c.

(** From [s] to [s'] the registry kept its sessions; the session under
    key [Y] received [received Y] more bytes and its sent counter did not
    go down. *)
Definition sessions_kept (received : N -> N) (s s' : World) : Prop :=
  forall Y, option_Forall2
    (fun c c' => same_session c c' /\
                 bytesReceived c' = bytesReceived c + received Y /\
                 bytesSent c <= bytesSent c')
    (clients s !! Y) (clients s' !! Y).

(** The number of characters handed to a socket so far. *)
Definition written_size (k : Socket) : N :=
  sumN ((fun chunk => N.of_nat (String.length chunk)) <$> written k).

(** For every registered session, what has been written to its socket is
    the welcome message plus [bytesSent] characters. *)
Definition accounting_ok (K IV : Buffer) (s : World) : Prop :=
  forall X cx k, clients s !! X = Some cx -> sockets s !! socket cx = Some k ->
    written_size k
    = N.of_nat (String.length (stringify (welcome K IV X) +:+ NL)) + bytesSent cx.

(** ** The token sequence and the text of a JSON value *)

(** The tokens of the text that [stringify] prints for [v]. *)
Fixpoint tokens (v : JSON) : list token :=
  match v with
  | JNull => [TNull]
  | JBool true => [TTrue]
  | JBool false => [TFalse]
  | JNumber m e => [TNumber m e]
  | JString s => [TString s]
  | JArray elems =>
      TLBracket ::
      (fix items (l : list JSON) : list token :=
         match l with
         | [] => []
         | [x] => tokens x
         | x :: l' => tokens x ++ TComma :: items l'
         end) elems ++ [TRBracket]
  | JObject members =>
      TLBrace ::
      (fix items (l : list (string * JSON)) : list token :=
         match l with
         | [] => []
         | [(k, x)] => TString k :: TColon :: tokens x
         | (k, x) :: l' => TString k :: TColon :: tokens x ++ TComma :: items l'
         end) members ++ [TRBrace]
  end.

(** A character that can continue a number literal. *)
Definition continues_number (c : ascii) : bool :=
  is_digit c || Ascii.eqb c "." || Ascii.eqb c "e" || Ascii.eqb c "E"
  || Ascii.eqb c "+" || Ascii.eqb c "-".

(** A text that can follow a number literal without changing it. *)
Definition delimited (rest : string) : Prop :=
  match rest with
  | EmptyString => True
  | String c _ => continues_number c = false
  end.

(** No character of [s] is a control character (below 32), so in
    particular [s] contains no newline. *)
Fixpoint printable (s : string) : bool :=
  match s with
  | EmptyString => true
  | String c s' => negb (N_of_ascii c <? 32) && printable s'
  end.

(** The number read by appending the digits [d] to the digits of [z]. *)
Fixpoint uint_acc (d : Decimal.uint) (z : Z) : Z :=
  match d with
  | Decimal.Nil => z
  | Decimal.D0 d => uint_acc d (10 * z + 0)
  | Decimal.D1 d => uint_acc d (10 * z + 1)
  | Decimal.D2 d => uint_acc d (10 * z + 2)
  | Decimal.D3 d => uint_acc d (10 * z + 3)
  | Decimal.D4 d => uint_acc d (10 * z + 4)
  | Decimal.D5 d => uint_acc d (10 * z + 5)
  | Decimal.D6 d => uint_acc d (10 * z + 6)
  | Decimal.D7 d => uint_acc d (10 * z + 7)
  | Decimal.D8 d => uint_acc d (10 * z + 8)
  | Decimal.D9 d => uint_acc d (10 * z + 9)
  end%Z.

Definition set_mant (a : num_acc) (z : Z) : num_acc :=
  {| n_neg := n_neg a; n_mant := z; n_frac := n_frac a;
     n_eneg := n_eneg a; n_exp := n_exp a |}.

Definition set_exp (a : num_acc) (z : Z) : num_acc :=
  {| n_neg := n_neg a; n_mant := n_mant a; n_frac := n_frac a;
     n_eneg := n_eneg a; n_exp := z |}.

(** Texts, and token sequences, separated by commas. *)
Fixpoint join_values (l : list string) : string :=
  match l with
  | [] => ""
  | [x] => x
  | x :: l' => x +:+ "," +:+ join_values l'
  end.

Fixpoint join_tokens (l : list (list token)) : list token :=
  match l with
  | [] => []
  | [x] => x
  | x :: l' => x ++ TComma :: join_tokens l'
  end.

Definition member_text (kv : string * JSON) : string :=
  quote kv.1 +:+ ":" +:+ stringify kv.2.

Definition member_tokens (kv : string * JSON) : list token :=
  TString kv.1 :: TColon :: tokens kv.2.

(** [text] is scanned as [toks], whatever delimited text follows it. *)
Definition scans (text : string) (toks : list token) : Prop :=
  forall rest, delimited rest ->
    lex_from LStart (text +:+ rest) = app toks <$> lex_from LStart rest.

(** Where a value is expected, [toks] is parsed as [v], which is then
    delivered to the enclosing container. *)
Definition parses (toks : list token) (v : JSON) : Prop :=
  forall e stack ts, e = PValue \/ e = PValueOrEnd ->
    parse_tokens e stack (toks ++ ts)
    = match deliver v stack with
      | Some (e', stack') => parse_tokens e' stack' ts
      | None => None
      end.

(** Every character of [s] is an ASCII character. *)
Fixpoint ascii_text (s : string) : bool :=
  match s with
  | EmptyString => true
  | String c s' => (N_of_ascii c <? 128) && ascii_text s'
  end.

(** A key that the runtime would list as an array index, before the other
    keys of its object: here, any key that starts with a digit. *)
Definition index_like (k : string) : bool :=
  match k with
  | EmptyString => false
  | String c _ => is_digit c
  end.

Fixpoint distinct (l : list string) : bool :=
  match l with
  | [] => true
  | k :: l' => negb (existsb (String.eqb k) l') && distinct l'
  end.

(** The values that a program holds and that [stringify] prints as the
    runtime does: every number is an integer below 2^53 in magnitude,
    written without exponent; every string and every key is ASCII text;
    and the keys of every object are distinct and listed in the order the
    runtime lists them (none is an array index). *)
Fixpoint plain (v : JSON) : bool :=
  match v with
  | JNull | JBool _ => true
  | JNumber m e => (e =? 0)%Z && (Z.abs m <? 2 ^ 53)%Z
  | JString s => ascii_text s
  | JArray elems => forallb plain elems
  | JObject members =>
      forallb (fun kv => plain (snd kv)) members
      && forallb (fun kv => ascii_text (fst kv) && negb (index_like (fst kv))) members
      && distinct (map fst members)
  end.

(** The double quote, and the relay frame that names the sender [A] and
    carries the bytes [P], character by character: an object with the
    members type (the string relay), fromClient ([A] in decimal) and data
    (the string that holds two lower-case hex digits for each byte of
    [P]), in this order and without white space, followed by a newline. *)
Definition dquote : string := String "034" EmptyString.

Definition relay_text (A : N) (P : Buffer) : string :=
  "{" +:+ dquote +:+ "type" +:+ dquote +:+ ":" +:+ dquote +:+ "relay" +:+ dquote
  +:+ "," +:+ dquote +:+ "fromClient" +:+ dquote +:+ ":" +:+ decimal (Z.of_N A)
  +:+ "," +:+ dquote +:+ "data" +:+ dquote +:+ ":"
  +:+ dquote +:+ Hex.to_hex P +:+ dquote +:+ "}" +:+ NL.

(** ** The client *)

Module Client.

(** What the client prints, one constructor per [console.log] or
    [console.error] call of the source (one for the help text).  A line
    that prints a field of a received message carries the field as it was
    read. *)
Inductive log_line : Type :=
  | Log_connecting (host : string) (port : N)
  | Log_connected
  | Log_disconnected_from_server
  | Error_connection (message : string)
  | Error_keys_not_initialized
  | Error_decryption (e : exn)
  | Error_failed_to_parse (e : exn)
  | Log_client_id (clientId : option JSON)
  | Log_server_message (message : option JSON)
  | Log_encryption_initialized
  | Log_pong (now : Z) (timestamp : option JSON)
  | Log_tunnel_established
  | Log_type_messages
  | Log_relayed_from (fromClient : option JSON)
  | Log_data (data : Buffer)
  | Error_not_connected
  | Log_sent_encrypted (length : N)
  | Log_disconnected
  | Log_help                                  (* the seven lines of the help text *)
  | Log_statistics
  | Log_stats_connected (connected : bool)
  | Log_stats_clientId (clientId : option JSON)
  | Log_stats_bytesReceived (bytesReceived : N)
  | Log_stats_bytesSent (bytesSent : N)
  | Log_goodbye.

(** The socket returned by [net.createConnection]: the chunks written to
    it, oldest first, and whether [end()] was called. *)
Record Socket := {
  written : list string;
  ended : bool
}.

(** The [VPNClient] object ([host] to [bytesSent]), the module variables
    [encryptionKey] and [encryptionIV], the variable [buffer] captured by
    the ['data'] handler, and what the process shares with the runtime:
    the console, the prompts shown by [readline], and the exit status. *)
Record World := {
  host : string;
  port : N;
  socket : option Socket;               (* [None] is [null] *)
  connected : bool;
  clientId : option JSON;               (* [None] is [undefined] *)
  bytesReceived : N;
  bytesSent : N;
  encryptionKey : option Buffer;        (* [None] is [null] *)
  encryptionIV : option Buffer;
  buffer : string;
  console : list log_line;
  prompts : N;
  exit_code : option Z
}.

Record stats := {
  stats_connected : bool;
  stats_clientId : option JSON;
  stats_bytesReceived : N;
  stats_bytesSent : N
}.

Definition VPN_SERVER_HOST : string := "localhost".
Definition VPN_SERVER_PORT : N := 8888.

(** [new VPNClient(options)] in a fresh process. *)
Definition VPNClient (options_host : option string) (options_port : option N) : World :=
  {| host := match options_host with
             | Some h => if String.eqb h "" then VPN_SERVER_HOST else h
             | None => VPN_SERVER_HOST
             end;
     port := match options_port with
             | Some p => if p =? 0 then VPN_SERVER_PORT else p
             | None => VPN_SERVER_PORT
             end;
     socket := None;
     connected := false;
     clientId := Some JNull;
     bytesReceived := 0;
     bytesSent := 0;
     encryptionKey := None;
     encryptionIV := None;
     buffer := "";
     console := [];
     prompts := 0;
     exit_code := None |}.

(** *** Field updates *)

Definition set_socket (k : option Socket) (w : World) : World :=
  {| host := host w; port := port w; socket := k; connected := connected w;
     clientId := clientId w; bytesReceived := bytesReceived w;
     bytesSent := bytesSent w; encryptionKey := encryptionKey w;
     encryptionIV := encryptionIV w; buffer := buffer w; console := console w;
     prompts := prompts w; exit_code := exit_code w |}.

Definition set_connected (b : bool) (w : World) : World :=
  {| host := host w; port := port w; socket := socket w; connected := b;
     clientId := clientId w; bytesReceived := bytesReceived w;
     bytesSent := bytesSent w; encryptionKey := encryptionKey w;
     encryptionIV := encryptionIV w; buffer := buffer w; console := console w;
     prompts := prompts w; exit_code := exit_code w |}.

Definition set_clientId (v : option JSON) (w : World) : World :=
  {| host := host w; port := port w; socket := socket w; connected := connected w;
     clientId := v; bytesReceived := bytesReceived w;
     bytesSent := bytesSent w; encryptionKey := encryptionKey w;
     encryptionIV := encryptionIV w; buffer := buffer w; console := console w;
     prompts := prompts w; exit_code := exit_code w |}.

Definition add_bytesReceived (n : N) (w : World) : World :=
  {| host := host w; port := port w; socket := socket w; connected := connected w;
     clientId := clientId w; bytesReceived := bytesReceived w + n;
     bytesSent := bytesSent w; encryptionKey := encryptionKey w;
     encryptionIV := encryptionIV w; buffer := buffer w; console := console w;
     prompts := prompts w; exit_code := exit_code w |}.

Definition add_bytesSent (n : N) (w : World) : World :=
  {| host := host w; port := port w; socket := socket w; connected := connected w;
     clientId := clientId w; bytesReceived := bytesReceived w;
     bytesSent := bytesSent w + n; encryptionKey := encryptionKey w;
     encryptionIV := encryptionIV w; buffer := buffer w; console := console w;
     prompts := prompts w; exit_code := exit_code w |}.

Definition set_encryptionKey (k : option Buffer) (w : World) : World :=
  {| host := host w; port := port w; socket := socket w; connected := connected w;
     clientId := clientId w; bytesReceived := bytesReceived w;
     bytesSent := bytesSent w; encryptionKey := k;
     encryptionIV := encryptionIV w; buffer := buffer w; console := console w;
     prompts := prompts w; exit_code := exit_code w |}.

Definition set_encryptionIV (k : option Buffer) (w : World) : World :=
  {| host := host w; port := port w; socket := socket w; connected := connected w;
     clientId := clientId w; bytesReceived := bytesReceived w;
     bytesSent := bytesSent w; encryptionKey := encryptionKey w;
     encryptionIV := k; buffer := buffer w; console := console w;
     prompts := prompts w; exit_code := exit_code w |}.

Definition set_buffer (b : string) (w : World) : World :=
  {| host := host w; port := port w; socket := socket w; connected := connected w;
     clientId := clientId w; bytesReceived := bytesReceived w;
     bytesSent := bytesSent w; encryptionKey := encryptionKey w;
     encryptionIV := encryptionIV w; buffer := b; console := console w;
     prompts := prompts w; exit_code := exit_code w |}.

Definition log (l : log_line) (w : World) : World :=
  {| host := host w; port := port w; socket := socket w; connected := connected w;
     clientId := clientId w; bytesReceived := bytesReceived w;
     bytesSent := bytesSent w; encryptionKey := encryptionKey w;
     encryptionIV := encryptionIV w; buffer := buffer w;
     console := console w ++ [l];
     prompts := prompts w; exit_code := exit_code w |}.

(** [rl.prompt()] *)
Definition prompt (w : World) : World :=
  {| host := host w; port := port w; socket := socket w; connected := connected w;
     clientId := clientId w; bytesReceived := bytesReceived w;
     bytesSent := bytesSent w; encryptionKey := encryptionKey w;
     encryptionIV := encryptionIV w; buffer := buffer w; console := console w;
     prompts := prompts w + 1; exit_code := exit_code w |}.

(** [process.exit(status)] *)
Definition process_exit (status : Z) (w : World) : World :=
  {| host := host w; port := port w; socket := socket w; connected := connected w;
     clientId := clientId w; bytesReceived := bytesReceived w;
     bytesSent := bytesSent w; encryptionKey := encryptionKey w;
     encryptionIV := encryptionIV w; buffer := buffer w; console := console w;
     prompts := prompts w; exit_code := Some status |}.

(** [socket.write(chunk)]: nothing is sent once [end()] was called (the
    runtime then reports the write with an ['error'] event). *)
Definition write (chunk : string) (k : Socket) : Socket :=
  if ended k then k else {| written := written k ++ [chunk]; ended := false |}.

(** [socket.end()] *)
Definition end_ (k : Socket) : Socket := {| written := written k; ended := true |}.

(** *** Strings *)

(** [s.split('\n')] *)
Fixpoint split (s : string) : list string :=
  match s with
  | EmptyString => [EmptyString]
  | String c s' =>
      if Ascii.eqb c "010" then EmptyString :: split s'
      else match split s' with
           | line :: lines => String c line :: lines
           | [] => [String c EmptyString]
           end
  end.

(** [lines.pop()]: the last element, and the array that is left.  The
    array comes from [split] and is never empty. *)
Definition pop (lines : list string) : string * list string :=
  (List.last lines EmptyString, removelast lines).

(** White space and line terminators among the ASCII characters: tab,
    line feed, vertical tab, form feed, carriage return and space. *)
Definition is_space (c : ascii) : bool :=
  let n := N_of_ascii c in ((9 <=? n) && (n <=? 13)) || (n =? 32).

(** The other characters that [trim] strips, in their UTF-8 form.  Of two
    bytes: the no-break space U+00A0. *)
Definition is_space2 (a b : ascii) : bool :=
  (N_of_ascii a =? 194) && (N_of_ascii b =? 160).

(** Of three bytes: U+1680, the spaces U+2000 to U+200A, the line and
    paragraph separators U+2028 and U+2029, U+202F, U+205F, U+3000 and
    the byte order mark U+FEFF. *)
Definition is_space3 (a b c : ascii) : bool :=
  let a := N_of_ascii a in
  let b := N_of_ascii b in
  let c := N_of_ascii c in
  ((a =? 225) && (b =? 154) && (c =? 128))
  || ((a =? 226) && (b =? 128)
      && (((128 <=? c) && (c <=? 138)) || (c =? 168) || (c =? 169) || (c =? 175)))
  || ((a =? 226) && (b =? 129) && (c =? 159))
  || ((a =? 227) && (b =? 128) && (c =? 128))
  || ((a =? 239) && (b =? 187) && (c =? 191)).

(** [s.trimStart()] *)
Fixpoint trim_start (s : string) : string :=
  match s with
  | EmptyString => EmptyString
  | String a s1 =>
      if is_space a then trim_start s1
      else
        match s1 with
        | EmptyString => s
        | String b s2 =>
            if is_space2 a b then trim_start s2
            else
              match s2 with
              | EmptyString => s
              | String c s3 => if is_space3 a b c then trim_start s3 else s
              end
        end
  end.

(** [s.trimEnd()]: nothing is left of a text that is all white space;
    otherwise its first byte stays and the rest is trimmed. *)
Fixpoint trim_end (s : string) : string :=
  match s with
  | EmptyString => EmptyString
  | String c s' =>
      match trim_start s with
      | EmptyString => EmptyString
      | String _ _ => String c (trim_end s')
      end
  end.

(** [s.trim()] *)
Definition trim (s : string) : string := trim_end (trim_start s).

(** *** Messages built by the client *)

Definition tunnel_request : JSON :=
  JObject [("type", JString "tunnel"); ("request", JString "establish")].

Definition data_packet (encrypted : Buffer) : JSON :=
  JObject [("type", JString "data"); ("encrypted", JBool true);
           ("payload", JString (Hex.to_hex encrypted))].

Definition ping_packet (now : Z) : JSON :=
  JObject [("type", JString "ping"); ("timestamp", JInt now)].

(** *** Methods *)

(** A method body: it updates the world and completes with a value or a
    thrown error; what was updated before the error stays updated. *)
Definition action (A : Type) : Type := World -> World * result A.

Definition pure {A} (a : A) : action A := fun w => (w, Ok a).

Definition value {A} (r : result A) : action A := fun w => (w, r).

Definition effect (f : World -> World) : action unit := fun w => (f w, Ok tt).

Definition and_then {A B} (m : action A) (k : A -> action B) : action B :=
  fun w =>
    match m w with
    | (w', Ok a) => k a w'
    | (w', Throw e) => (w', Throw e)
    end.

Notation "'do!' x ':=' m 'in' k" := (and_then m (fun x => k))
  (at level 10, x name, m at level 100, k at level 200).

Section Methods.

(** [Buffer.from(v, 'hex')] for a parsed array or object [v], as for the
    server. *)
Variable Buffer_from_object : JSON -> result Buffer.

(** [Buffer.concat([cipher.update(data), cipher.final()])] for a cipher
    made from [key] and [iv]. *)
Definition cipher_text (key iv data : Buffer) : result Buffer :=
  let! cipher := Cipher.createCipheriv key iv in
  let '(cipher, head) := Cipher.cipher_update cipher data in
  Ok (head ++ Cipher.cipher_final cipher).

Definition encrypt (data : Buffer) : action (option Buffer) :=
  fun w =>
    match encryptionKey w, encryptionIV w with
    | Some key, Some iv =>
        (w, let! encrypted := cipher_text key iv data in Ok (Some encrypted))
    | _, _ => (log Error_keys_not_initialized w, Ok None)
    end.

Definition decrypt (data : Buffer) : action (option Buffer) :=
  fun w =>
    match encryptionKey w, encryptionIV w with
    | Some key, Some iv =>
        match (let! decipher := Cipher.createDecipheriv key iv in
               let '(decipher, head) := Cipher.decipher_update decipher data in
               let! tail := Cipher.decipher_final decipher in
               Ok (head ++ tail)) with
        | Ok decrypted => (w, Ok (Some decrypted))
        | Throw e => (log (Error_decryption e) w, Ok None)
        end
    | _, _ => (log Error_keys_not_initialized w, Ok None)
    end.

Definition sendMessage (message : JSON) : action unit :=
  fun w =>
    match connected w, socket w with
    | true, Some k =>
        let data := stringify message +:+ NL in
        let w := set_socket (Some (write data k)) w in
        (add_bytesSent (N.of_nat (String.length data)) w, Ok tt)
    | _, _ => (log Error_not_connected w, Ok tt)
    end.

(** [handleMessage(message)]; [now] is what [Date.now()] reads. *)
Definition handleMessage (message : JSON) (now : Z) : action unit :=
  do! type := value (get message "type") in
  if is_string type "welcome" then
    do! id := value (get message "clientId") in
    do! _ := effect (set_clientId id) in
    do! _ := effect (log (Log_client_id id)) in
    do! text := value (get message "message") in
    do! _ := effect (log (Log_server_message text)) in
    do! key := value (get message "encryptionKey") in
    do! key := value (Buffer_from Buffer_from_object key) in
    do! _ := effect (set_encryptionKey (Some key)) in
    do! iv := value (get message "encryptionIV") in
    do! iv := value (Buffer_from Buffer_from_object iv) in
    do! _ := effect (set_encryptionIV (Some iv)) in
    do! _ := effect (log Log_encryption_initialized) in
    sendMessage tunnel_request
  else if is_string type "pong" then
    do! timestamp := value (get message "timestamp") in
    effect (log (Log_pong now timestamp))
  else if is_string type "tunnel_established" then
    do! _ := effect (log Log_tunnel_established) in
    effect (log Log_type_messages)
  else if is_string type "relay" then
    do! fromClient := value (get message "fromClient") in
    do! _ := effect (log (Log_relayed_from fromClient)) in
    do! data := value (get message "data") in
    do! dataBuffer := value (Buffer_from Buffer_from_object data) in
    effect (log (Log_data dataBuffer))
  else pure tt.

(** [handleMessage(message)] inside the [try] of the ['data'] handler. *)
Definition try_handleMessage (now : Z) (w : World) (message : JSON) : World :=
  match handleMessage message now w with
  | (w', Ok _) => w'
  | (w', Throw e) => log (Error_failed_to_parse e) w'
  end.

(** The body of the [forEach] in the ['data'] handler. *)
Definition on_line (now : Z) (w : World) (line : string) : World :=
  if String.eqb (trim line) "" then w
  else
    match parse line with
    | Ok message => try_handleMessage now w message
    | Throw e => log (Error_failed_to_parse e) w
    end.

(** The ['data'] handler installed by [connect]. *)
Definition on_data (data : Buffer) (now : Z) (w : World) : World :=
  let w := add_bytesReceived (N.of_nat (length data)) w in
  let w := set_buffer (buffer w +:+ Buffer_toString data) w in
  let '(last, lines) := pop (split (buffer w)) in
  let w := set_buffer last w in
  foldl (on_line now) w lines.

(** [connect()]: the socket is created, [buffer] starts empty. *)
Definition connect (w : World) : World :=
  let w := log (Log_connecting (host w) (port w)) w in
  let w := set_socket (Some {| written := []; ended := false |}) w in
  set_buffer "" w.

(** The callback given to [net.createConnection]. *)
Definition on_connect (w : World) : World :=
  set_connected true (log Log_connected w).

Definition on_end (w : World) : World :=
  set_connected false (log Log_disconnected_from_server w).

Definition on_error (message : string) (w : World) : World :=
  set_connected false (log (Error_connection message) w).

Definition sendEncryptedData (data : string) : action unit :=
  do! encrypted := encrypt (list_byte_of_string data) in
  match encrypted with
  | Some encrypted =>
      do! _ := sendMessage (data_packet encrypted) in
      effect (log (Log_sent_encrypted (N.of_nat (length encrypted))))
  | None => pure tt
  end.

Definition ping (now : Z) : action unit := sendMessage (ping_packet now).

Definition disconnect (w : World) : World :=
  match socket w with
  | Some k =>
      let w := set_socket (Some (end_ k)) w in
      let w := set_connected false w in
      log Log_disconnected w
  | None => w
  end.

Definition getStats (w : World) : stats :=
  {| stats_connected := connected w;
     stats_clientId := clientId w;
     stats_bytesReceived := bytesReceived w;
     stats_bytesSent := bytesSent w |}.

(** *** The command line *)

(** The ['close'] handler of the [readline] interface. *)
Definition rl_on_close (w : World) : World :=
  process_exit 0 (log Log_goodbye w).

(** The ['line'] handler.  [rl.close()] runs the ['close'] handler, which
    exits; an error thrown by [sendEncryptedData] is not caught and ends
    the process with status 1. *)
Definition rl_on_line (line : string) (now : Z) (w : World) : World :=
  let input := trim line in
  if String.eqb input "" then prompt w
  else if String.eqb input "quit" || String.eqb input "exit" then
    rl_on_close (disconnect w)
  else if String.eqb input "ping" then
    match ping now w with
    | (w, Ok _) => prompt w
    | (w, Throw _) => process_exit 1 w
    end
  else if String.eqb input "stats" then
    let stats := getStats w in
    let w := log Log_statistics w in
    let w := log (Log_stats_connected (stats_connected stats)) w in
    let w := log (Log_stats_clientId (stats_clientId stats)) w in
    let w := log (Log_stats_bytesReceived (stats_bytesReceived stats)) w in
    let w := log (Log_stats_bytesSent (stats_bytesSent stats)) w in
    prompt w
  else
    match sendEncryptedData input w with
    | (w, Ok _) => prompt w
    | (w, Throw _) => process_exit 1 w
    end.

(** The timer that prints the help text. *)
Definition on_help_timer (w : World) : World := prompt (log Log_help w).

(** *** The event loop *)

Inductive event : Type :=
  | Connect
  | Data (data : Buffer) (now : Z)
  | End_
  | Error (message : string)
  | HelpTimer
  | Line (line : string) (now : Z)
  | Close.

Definition dispatch (ev : event) (w : World) : World :=
  match ev with
  | Connect => on_connect w
  | Data data now => on_data data now w
  | End_ => on_end w
  | Error message => on_error message w
  | HelpTimer => on_help_timer w
  | Line line now => rl_on_line line now w
  | Close => rl_on_close w
  end.

(** Nothing runs after [process.exit]. *)
Definition step (w : World) (ev : event) : World :=
  match exit_code w with
  | Some _ => w
  | None => dispatch ev w
  end.

(** The module body: the client is created and [connect()] is called. *)
Definition main : World :=
  connect (VPNClient (Some VPN_SERVER_HOST) (Some VPN_SERVER_PORT)).

Definition run (evs : list event) : World := foldl step main evs.

End Methods.

(** *** Notions used in the statements *)

(** Every byte of [data] is an ASCII character: [data.toString()] is then
    the same text however [data] is cut into chunks. *)
Definition ascii_only (data : Buffer) : bool :=
  forallb (fun b => Byte.to_N b <? 128) data.


(** The chunks written to the client's socket. *)
Definition sent (w : World) : list string :=
  match socket w with
  | Some k => written k
  | None => []
  end.


End Client.

(** ** Sample clients for the worked examples *)

(** A client whose connection is established and that has read nothing. *)
Definition sample_client : Client.World := Client.on_connect Client.main.

(** The same client, holding the key and the IV of the sample server. *)
Definition sample_keyed_client : Client.World :=
  Client.set_encryptionIV (Some sample_iv)
    (Client.set_encryptionKey (Some sample_key) sample_client).

Definition sample_socket : Client.Socket :=
  {| Client.written := []; Client.ended := false |}.

(** The session of the [n]-th of the three sample clients. *)
Definition sample_session (n : N) (address : string) (port : N) : clientInfo :=
  {| id := n; socket := N.to_nat (n - 1); address := address; port := port;
     connected := true; bytesReceived := 0; bytesSent := 0 |}.
(* ================================================================== *)
(** * Part II. Properties                                              *)
(* ================================================================== *)

(** ** Bytes *)

Lemma byte_of_to_N (b : byte) : byte_of_N (Byte.to_N b) = b.
Proof.
  unfold byte_of_N.
  pose proof (Byte.to_N_bounded b).
  rewrite N.mod_small by lia.
  now rewrite Byte.of_to_N.
Qed.

Lemma to_N_byte_of_N (n : N) : n < 256 -> Byte.to_N (byte_of_N n) = n.
Proof.
  intros Hn. unfold byte_of_N. rewrite N.mod_small by lia.
  destruct (Byte.of_N n) as [b|] eqn:E.
  - now apply Byte.to_of_N.
  - apply Byte.of_N_None_iff in E. lia.
Qed.

Lemma to_N_lt (b : byte) : Byte.to_N b < 256.
Proof. pose proof (Byte.to_N_bounded b). lia. Qed.

Lemma to_N_inj (a b : byte) : Byte.to_N a = Byte.to_N b -> a = b.
Proof.
  intros H. rewrite <- (byte_of_to_N a), <- (byte_of_to_N b). now rewrite H.
Qed.

Lemma lxor_lt_256 (a b : N) : a < 256 -> b < 256 -> N.lxor a b < 256.
Proof.
  intros Ha Hb.
  destruct (N.eq_dec (N.lxor a b) 0) as [->|Hz]; [lia|].
  change 256 with (2 ^ 8) in *.
  apply N.log2_lt_pow2; [lia|].
  pose proof (N.log2_lxor a b) as Hl.
  assert (N.log2 a < 8).
  { destruct (N.eq_dec a 0) as [->|]; [cbn; lia|]. apply N.log2_lt_pow2; lia. }
  assert (N.log2 b < 8).
  { destruct (N.eq_dec b 0) as [->|]; [cbn; lia|]. apply N.log2_lt_pow2; lia. }
  lia.
Qed.

Lemma to_N_bxor (a b : byte) :
  Byte.to_N (bxor a b) = N.lxor (Byte.to_N a) (Byte.to_N b).
Proof.
  unfold bxor. apply to_N_byte_of_N, lxor_lt_256; apply to_N_lt.
Qed.

Lemma bxor_comm (a b : byte) : bxor a b = bxor b a.
Proof. apply to_N_inj. rewrite !to_N_bxor. apply N.lxor_comm. Qed.

Lemma bxor_assoc (a b c : byte) : bxor a (bxor b c) = bxor (bxor a b) c.
Proof. apply to_N_inj. rewrite !to_N_bxor. symmetry. apply N.lxor_assoc. Qed.

Lemma bxor_nilpotent (a : byte) : bxor a a = x00.
Proof. apply to_N_inj. rewrite to_N_bxor. apply N.lxor_nilpotent. Qed.

Lemma bxor_0_r (a : byte) : bxor a x00 = a.
Proof. apply to_N_inj. rewrite to_N_bxor. apply N.lxor_0_r. Qed.

Lemma bxor_0_l (a : byte) : bxor x00 a = a.
Proof. rewrite bxor_comm. apply bxor_0_r. Qed.

Lemma bxor_involutive (a b : byte) : bxor (bxor a b) b = a.
Proof. now rewrite <- bxor_assoc, bxor_nilpotent, bxor_0_r. Qed.

Lemma xor_bytes_length (a b : list byte) : length (xor_bytes a b) = length a.
Proof. revert b. induction a as [|x a IH]; intros b; simpl; [|rewrite IH]; reflexivity. Qed.

Lemma xor_bytes_involutive (a b : list byte) : xor_bytes (xor_bytes a b) b = a.
Proof.
  revert b. induction a as [|x a IH]; intros b; simpl; [reflexivity|].
  now rewrite bxor_involutive, IH.
Qed.

(** Every byte occurs in [all_bytes], so a boolean property checked on that
    list holds of every byte. *)
Lemma elem_of_all_bytes (b : byte) : In b all_bytes.
Proof.
  unfold all_bytes. apply in_map_iff.
  exists (N.to_nat (Byte.to_N b)). split.
  - rewrite N2Nat.id. apply byte_of_to_N.
  - apply in_seq. pose proof (to_N_lt b). lia.
Qed.

Lemma forall_bytes (P : byte -> bool) :
  forallb P all_bytes = true -> forall b, P b = true.
Proof.
  intros H b. rewrite forallb_forall in H. apply H, elem_of_all_bytes.
Qed.

Lemma forall_bytes2 (P : byte -> byte -> bool) :
  forallb (fun a => forallb (P a) all_bytes) all_bytes = true ->
  forall a b, P a b = true.
Proof.
  intros H a b.
  apply (forall_bytes (P a)), (forall_bytes (fun a => forallb (P a) all_bytes) H).
Qed.

(** ** The block cipher is a permutation of 16-byte blocks *)

Module AES_facts.
Import AES.

Lemma inv_sub_byte_sub_byte (b : byte) : inv_sub_byte (sub_byte b) = b.
Proof.
  apply Byte.byte_dec_bl.
  revert b. apply (forall_bytes (fun b => Byte.eqb (inv_sub_byte (sub_byte b)) b)).
  vm_compute. reflexivity.
Qed.

Lemma xtime_bxor (a b : byte) : xtime (bxor a b) = bxor (xtime a) (xtime b).
Proof.
  apply Byte.byte_dec_bl.
  revert a b.
  apply (forall_bytes2 (fun a b => Byte.eqb (xtime (bxor a b)) (bxor (xtime a) (xtime b)))).
  vm_compute. reflexivity.
Qed.


(** Equality of two xor-sums of bytes, up to reordering and cancelling of
    repeated terms. *)
Ltac bxor_ring :=
  apply to_N_inj; rewrite ?to_N_bxor;
  apply N.bits_inj; intros ?; rewrite ?N.lxor_spec; btauto.

(** The product of the two matrices is the identity: written out with
    [xtime], every entry is a sum in which all terms but one cancel. *)
Lemma inv_mix_column_mix_column (a0 a1 a2 a3 : byte) :
  match mix_column a0 a1 a2 a3 with
  | [b0; b1; b2; b3] => inv_mix_column b0 b1 b2 b3
  | _ => []
  end = [a0; a1; a2; a3].
Proof.
  unfold mix_column, inv_mix_column.
  unfold mul14, mul13, mul11, mul9, mul8, mul4, mul3, mul2.
  rewrite ?xtime_bxor.
  f_equal; [|f_equal; [|f_equal; [|f_equal]]]; bxor_ring.
Qed.


Lemma mix_columns_length (st : block) : length (mix_columns st) = length st.
Proof.
  remember (length st) as n eqn:Hn. revert st Hn.
  induction (lt_wf n) as [n _ IH]; intros st ->.
  destruct st as [|a0 [|a1 [|a2 [|a3 rest]]]]; try reflexivity.
  cbn [mix_columns mix_column app length].
  rewrite (IH (length rest) ltac:(simpl; lia) rest eq_refl). reflexivity.
Qed.

Lemma inv_mix_columns_mix_columns (st : block) :
  inv_mix_columns (mix_columns st) = st.
Proof.
  remember (length st) as n eqn:Hn. revert st Hn.
  induction (lt_wf n) as [n _ IH]; intros st ->.
  destruct st as [|a0 [|a1 [|a2 [|a3 rest]]]]; try reflexivity.
  pose proof (inv_mix_column_mix_column a0 a1 a2 a3) as Hc.
  cbn [mix_columns]. unfold mix_column in *. cbn [app inv_mix_columns].
  rewrite (IH (length rest) ltac:(simpl; lia) rest eq_refl).
  unfold inv_mix_column in *. cbn [app].
  injection Hc as -> -> -> ->. reflexivity.
Qed.

Lemma shift_rows_length (st : block) : length (shift_rows st) = 16%nat.
Proof. reflexivity. Qed.

Lemma inv_shift_rows_shift_rows (st : block) :
  length st = 16%nat -> inv_shift_rows (shift_rows st) = st.
Proof.
  intros H.
  do 16 (destruct st as [|? st]; [discriminate H|]).
  destruct st; [reflexivity|discriminate H].
Qed.

Lemma inv_sub_bytes_sub_bytes (st : block) : inv_sub_bytes (sub_bytes st) = st.
Proof.
  unfold inv_sub_bytes, sub_bytes. rewrite map_map.
  induction st as [|b st IH]; simpl; [|rewrite inv_sub_byte_sub_byte, IH]; reflexivity.
Qed.

Lemma sub_bytes_length (st : block) : length (sub_bytes st) = length st.
Proof. apply length_map. Qed.

Lemma add_round_key_length (st rk : block) : length (add_round_key st rk) = length st.
Proof. apply xor_bytes_length. Qed.

Lemma add_round_key_involutive (st rk : block) :
  add_round_key (add_round_key st rk) rk = st.
Proof. apply xor_bytes_involutive. Qed.

Lemma round_length (w : list byte) (st : block) (r : nat) :
  length (round w st r) = 16%nat.
Proof.
  unfold round. now rewrite add_round_key_length, mix_columns_length.
Qed.

Lemma unshift_unsub (st : block) :
  length st = 16%nat -> inv_sub_bytes (inv_shift_rows (shift_rows (sub_bytes st))) = st.
Proof.
  intros H. rewrite inv_shift_rows_shift_rows by now rewrite sub_bytes_length.
  apply inv_sub_bytes_sub_bytes.
Qed.

(** Undoing one round, seen through the substitution and row shift that
    follow it in the cipher. *)
Lemma inv_round_after_round (w : list byte) (st : block) (r : nat) :
  length st = 16%nat ->
  inv_round w (shift_rows (sub_bytes (round w st r))) r = shift_rows (sub_bytes st).
Proof.
  intros H. unfold inv_round.
  rewrite unshift_unsub by apply round_length.
  unfold round. rewrite add_round_key_involutive.
  apply inv_mix_columns_mix_columns.
Qed.

Lemma fold_round_length (w : list byte) (rs : list nat) (st : block) :
  length st = 16%nat -> length (fold_left (round w) rs st) = 16%nat.
Proof.
  revert st. induction rs as [|r rs IH]; intros st H; simpl; [assumption|].
  apply IH, round_length.
Qed.

Lemma inv_rounds_after_rounds (w : list byte) (rs : list nat) (st : block) :
  length st = 16%nat ->
  fold_left (inv_round w) (rev rs) (shift_rows (sub_bytes (fold_left (round w) rs st)))
  = shift_rows (sub_bytes st).
Proof.
  revert st. induction rs as [|r rs IH]; intros st H; simpl; [reflexivity|].
  rewrite fold_left_app. simpl.
  rewrite IH by apply round_length.
  now apply inv_round_after_round.
Qed.

Lemma encrypt_block_length (w : list byte) (b : block) :
  length (encrypt_block w b) = 16%nat.
Proof. unfold encrypt_block. now rewrite add_round_key_length. Qed.

Lemma decrypt_block_encrypt_block (w : list byte) (b : block) :
  length b = 16%nat -> decrypt_block w (encrypt_block w b) = b.
Proof.
  intros H. unfold decrypt_block, encrypt_block.
  rewrite add_round_key_involutive.
  rewrite inv_rounds_after_rounds by now rewrite add_round_key_length.
  rewrite unshift_unsub by now rewrite add_round_key_length.
  apply add_round_key_involutive.
Qed.

End AES_facts.

(** ** Cipher objects *)

Module Cipher_facts.
Import AES AES_facts Cipher.

#[local] Opaque encrypt_block decrypt_block key_expansion.


Lemma cbc_encrypt_whole (w : list byte) (prev : block) (bs : list block) :
  Forall whole (cbc_encrypt w prev bs).1 /\
  length (cbc_encrypt w prev bs).1 = length bs.
Proof.
  revert prev. induction bs as [|b bs IH]; intros prev; simpl.
  - split; [constructor|reflexivity].
  - destruct (cbc_encrypt w _ bs) as [cs prev'] eqn:E. simpl.
    specialize (IH (encrypt_block w (xor_bytes b prev))). rewrite E in IH.
    destruct IH as [IH1 IH2]. split.
    + constructor; [apply encrypt_block_length|exact IH1].
    + simpl in IH2. now rewrite IH2.
Qed.

Lemma cbc_decrypt_encrypt (w : list byte) (prev : block) (bs : list block) :
  Forall whole bs ->
  (cbc_decrypt w prev (cbc_encrypt w prev bs).1).1 = bs.
Proof.
  intros H. revert prev. induction H as [|b bs Hb _ IH]; intros prev; simpl.
  - reflexivity.
  - specialize (IH (encrypt_block w (xor_bytes b prev))).
    destruct (cbc_encrypt w _ bs) as [cs prev'] eqn:E. simpl in *.
    destruct (cbc_decrypt w _ cs) as [ps prev''] eqn:E'. simpl in *.
    rewrite decrypt_block_encrypt_block
      by (unfold whole in Hb; now rewrite xor_bytes_length).
    now rewrite xor_bytes_involutive, IH.
Qed.

Lemma cbc_decrypt_app (w : list byte) (prev : block) (bs1 bs2 : list block) :
  (cbc_decrypt w prev (bs1 ++ bs2)).1
  = (cbc_decrypt w prev bs1).1 ++ (cbc_decrypt w (cbc_decrypt w prev bs1).2 bs2).1.
Proof.
  revert prev. induction bs1 as [|c bs1 IH]; intros prev; simpl.
  - reflexivity.
  - specialize (IH c).
    destruct (cbc_decrypt w c (bs1 ++ bs2)) as [ps p'].
    destruct (cbc_decrypt w c bs1) as [ps1 p1]. simpl in *.
    now rewrite IH.
Qed.

Lemma blocks_whole (n : nat) (l : list byte) :
  (16 * n <= length l)%nat -> Forall whole (blocks n l).
Proof.
  revert l. induction n as [|n IH]; intros l H; simpl; constructor.
  - unfold whole. rewrite length_firstn. lia.
  - apply IH. rewrite length_skipn. lia.
Qed.

Lemma concat_blocks (n : nat) (l : list byte) :
  concat (blocks n l) = firstn (16 * n) l.
Proof.
  revert l. induction n as [|n IH]; intros l; [reflexivity|].
  cbn [blocks concat]. rewrite IH.
  replace (16 * S n)%nat with (16 + 16 * n)%nat by lia.
  now rewrite <- take_take_drop.
Qed.

Lemma blocks_concat (cs : list block) (rest : list byte) :
  Forall whole cs -> blocks (length cs) (concat cs ++ rest) = cs.
Proof.
  induction 1 as [|c cs Hc _ IH]; [reflexivity|].
  cbn [length blocks concat]. rewrite <- app_assoc.
  unfold whole in Hc.
  rewrite take_app_length' by (symmetry; assumption).
  rewrite drop_app_length' by (symmetry; assumption).
  now rewrite IH.
Qed.

Lemma blocks_concat_whole (cs : list block) :
  Forall whole cs -> blocks (length cs) (concat cs) = cs.
Proof.
  intros H. pose proof (blocks_concat cs [] H) as E.
  now rewrite app_nil_r in E.
Qed.

Lemma concat_whole_length (cs : list block) :
  Forall whole cs -> length (concat cs) = (16 * length cs)%nat.
Proof.
  induction 1 as [|c cs Hc _ IH]; [reflexivity|].
  cbn [concat length]. rewrite length_app, IH. unfold whole in Hc. lia.
Qed.

Lemma blocks_length (n : nat) (l : list byte) : length (blocks n l) = n.
Proof. revert l. induction n as [|n IH]; intros l; simpl; [|rewrite IH]; reflexivity. Qed.

Lemma cbc_encrypt_app (w : list byte) (prev : block) (bs1 bs2 : list block) :
  (cbc_encrypt w prev (bs1 ++ bs2)).1
  = (cbc_encrypt w prev bs1).1 ++ (cbc_encrypt w (cbc_encrypt w prev bs1).2 bs2).1.
Proof.
  revert prev. induction bs1 as [|b bs1 IH]; intros prev; [reflexivity|].
  cbn [app cbc_encrypt]. specialize (IH (encrypt_block w (xor_bytes b prev))).
  destruct (cbc_encrypt w _ (bs1 ++ bs2)) as [cs p'].
  destruct (cbc_encrypt w _ bs1) as [cs1 p1]. simpl in *.
  now rewrite IH.
Qed.

(** A fresh decipher object fed whole blocks returns all plaintext blocks
    but the last, which it holds back. *)
Lemma decipher_update_whole (w : list byte) (iv : block) (cs : list block) :
  Forall whole cs -> cs <> [] ->
  let ps := (cbc_decrypt w iv cs).1 in
  exists prev',
    decipher_update {| d_w := w; d_prev := iv; d_buf := []; d_held := None |}
                    (concat cs)
    = ({| d_w := w; d_prev := prev'; d_buf := []; d_held := last ps |},
       concat (removelast ps)).
Proof.
  intros Hw Hne ps. unfold decipher_update.
  destruct (concat cs) as [|x l] eqn:Ec.
  { pose proof (concat_whole_length cs Hw) as Hlen. rewrite Ec in Hlen.
    destruct cs as [|c cs]; [congruence|]. simpl in Hlen. lia. }
  rewrite <- Ec. pose proof (concat_whole_length cs Hw) as Hlen. cbn [d_buf d_w d_prev d_held app from_option].
  rewrite Hlen.
  replace (16 * length cs / 16)%nat with (length cs)
    by (symmetry; rewrite Nat.mul_comm; apply Nat.div_mul; lia).
  rewrite (blocks_concat_whole cs Hw).
  subst ps. destruct (cbc_decrypt w iv cs) as [ps prev'].
  rewrite <- Hlen, drop_all. exists prev'. reflexivity.
Qed.

(** Stripping the padding that [cipher_final] adds. *)
Lemma unpad_pad (rest : list byte) :
  (length rest < 16)%nat ->
  let k := (16 - length rest)%nat in
  unpad (rest ++ repeat (byte_of_N (N.of_nat k)) k) = Ok rest.
Proof.
  intros H k. unfold unpad.
  assert (Hk : (1 <= k <= 16)%nat) by (subst k; lia).
  assert (Hr : (16 - k)%nat = length rest) by (subst k; lia).
  clearbody k.
  assert (Hlast : List.last (rest ++ repeat (byte_of_N (N.of_nat k)) k) x00
                  = byte_of_N (N.of_nat k)).
  { destruct k as [|k']; [lia|].
    cbn [repeat]. rewrite repeat_cons, app_assoc. apply last_last. }
  rewrite Hlast, to_N_byte_of_N by lia. rewrite Nat2N.id, Hr.
  rewrite drop_app_length, take_app_length.
  destruct (k =? 0)%nat eqn:E1; [apply Nat.eqb_eq in E1; lia|].
  destruct (16 <? k)%nat eqn:E2; [apply Nat.ltb_lt in E2; lia|].
  cbn [orb].
  replace (forallb _ _) with true; [reflexivity|].
  symmetry. apply forallb_forall. intros x Hx%repeat_spec. subst x.
  apply Byte.byte_dec_lb. reflexivity.
Qed.

End Cipher_facts.

Section Crypto.

Import AES AES_facts Cipher Cipher_facts.

Variable ENCRYPTION_KEY : Buffer.
Variable ENCRYPTION_IV : Buffer.
Hypothesis key_length : length ENCRYPTION_KEY = 32%nat.
Hypothesis iv_length : length ENCRYPTION_IV = 16%nat.

Local Abbreviation enc := (encrypt ENCRYPTION_KEY ENCRYPTION_IV).
Local Abbreviation dec := (decipher ENCRYPTION_KEY ENCRYPTION_IV).

Lemma check_key_iv_ok : check_key_iv ENCRYPTION_KEY ENCRYPTION_IV = Ok tt.
Proof. unfold check_key_iv. now rewrite key_length, iv_length. Qed.

(** The ciphertext of [B]: the chained encryption of its whole blocks
    followed by the padded rest. *)
Lemma encrypt_eq (B : Buffer) :
  let n := (length B / 16)%nat in
  let rest := skipn (16 * n) B in
  let k := (16 - length rest)%nat in
  enc B
  = Ok (concat (cbc_encrypt (key_expansion ENCRYPTION_KEY) ENCRYPTION_IV
                  (blocks n B ++ [rest ++ repeat (byte_of_N (N.of_nat k)) k])).1).
Proof.
  intros n rest k.
  unfold encrypt, createCipheriv. rewrite check_key_iv_ok. cbn [bind].
  unfold cipher_update, cipher_final. cbn [c_buf c_w c_prev app].
  rewrite cbc_encrypt_app. fold n. fold rest.
  destruct (cbc_encrypt _ ENCRYPTION_IV (blocks n B)) as [cs prev'].
  cbn [c_buf c_w c_prev fst snd cbc_encrypt]. fold k.
  rewrite concat_app. cbn [concat]. now rewrite app_nil_r.
Qed.

Lemma decipher_encrypt (B : Buffer) :
  exists c, enc B = Ok c /\ dec c = Ok B.
Proof.
  pose proof (encrypt_eq B) as He. cbv zeta in He.
  set (n := (length B / 16)%nat) in *.
  set (rest := skipn (16 * n) B) in *.
  set (k := (16 - length rest)%nat) in *.
  set (padded := rest ++ repeat (byte_of_N (N.of_nat k)) k) in *.
  set (w := key_expansion ENCRYPTION_KEY) in *.
  eexists. split; [exact He|].
  assert (Hn : (16 * n <= length B)%nat).
  { subst n. apply Nat.Div0.mul_div_le. }
  assert (Hrest : (length rest < 16)%nat).
  { subst rest n. rewrite length_skipn.
    pose proof (Nat.div_mod_eq (length B) 16).
    pose proof (Nat.mod_upper_bound (length B) 16). lia. }
  assert (Hpad : whole padded).
  { unfold whole. subst padded k. rewrite length_app, repeat_length. lia. }
  assert (Hbs : Forall whole (blocks n B ++ [padded])).
  { apply Forall_app. split; [now apply blocks_whole|]. repeat constructor. exact Hpad. }
  pose proof (cbc_encrypt_whole w ENCRYPTION_IV (blocks n B ++ [padded])) as [Hcs Hcl].
  pose proof (cbc_decrypt_encrypt w ENCRYPTION_IV _ Hbs) as Hdec.
  set (cs := (cbc_encrypt w ENCRYPTION_IV (blocks n B ++ [padded])).1) in *.
  assert (Hne : cs <> []).
  { intros E. rewrite E, length_app in Hcl. simpl in Hcl. lia. }
  destruct (decipher_update_whole w ENCRYPTION_IV cs Hcs Hne) as [prev' Hup].
  cbv zeta in Hup. rewrite Hdec in Hup.
  unfold decipher, createDecipheriv. rewrite check_key_iv_ok. cbn [bind].
  fold w. rewrite Hup.
  rewrite last_snoc, removelast_last.
  unfold decipher_final. cbn [d_buf d_held].
  subst padded k. rewrite unpad_pad by assumption. cbn [bind].
  rewrite concat_blocks. subst rest. now rewrite firstn_skipn.
Qed.

(** C3. Decrypting what [encrypt] returns gives back the input, for every
    byte string, the empty one included, under the one key and IV of the
    process. *)
Theorem decrypt_encrypt_round_trip (B : Buffer) :
  exists c, encrypt ENCRYPTION_KEY ENCRYPTION_IV B = Ok c /\
            decrypt ENCRYPTION_KEY ENCRYPTION_IV c = (Some B, []).
Proof.
  destruct (decipher_encrypt B) as [c [He Hd]].
  exists c. split; [exact He|]. unfold decrypt. now rewrite Hd.
Qed.

End Crypto.

Lemma decrypt_encrypt_round_trip_witness :
  length sample_key = 32%nat /\ length sample_iv = 16%nat /\
  exists c, encrypt sample_key sample_iv [] = Ok c /\
            decrypt sample_key sample_iv c = (Some [], []).
Proof.
  split; [reflexivity|]. split; [reflexivity|].
  exact (decrypt_encrypt_round_trip sample_key sample_iv eq_refl eq_refl []).
Defined.

(** ** The registry and the sockets *)

Lemma Object_keys_Permutation (m : gmap N clientInfo) :
  Object_keys m ≡ₚ (map_to_list m).*1.
Proof. apply merge_sort_Permutation. Qed.

Lemma Object_keys_NoDup (m : gmap N clientInfo) : NoDup (Object_keys m).
Proof.
  rewrite Object_keys_Permutation. apply NoDup_fst_map_to_list.
Qed.

Lemma elem_of_Object_keys (m : gmap N clientInfo) (k : N) :
  k ∈ Object_keys m <-> is_Some (m !! k).
Proof.
  rewrite Object_keys_Permutation, list_elem_of_fmap. split.
  - intros [[k' c] [-> H%elem_of_map_to_list]]. now exists c.
  - intros [c H]. exists (k, c). split; [reflexivity|].
    now apply elem_of_map_to_list.
Qed.

Lemma Object_keys_length (m : gmap N clientInfo) : length (Object_keys m) = size m.
Proof.
  rewrite Object_keys_Permutation, length_fmap. apply length_map_to_list.
Qed.

Lemma Object_keys_sorted (m : gmap N clientInfo) : Sorted N.le (Object_keys m).
Proof. apply Sorted_merge_sort. intros x y. lia. Qed.

(** A socket other than the one altered is untouched. *)
Lemma socket_at_alter_ne (f : Socket -> Socket) (h h' : nat) (s : World) :
  h <> h' -> socket_at (set_sockets (alter f h) s) h' = socket_at s h'.
Proof.
  intros Hne. unfold socket_at. cbn. now rewrite list_lookup_alter_ne.
Qed.

Lemma socket_at_alter_eq (f : Socket -> Socket) (h : nat) (s : World) (k : Socket) :
  sockets s !! h = Some k -> socket_at (set_sockets (alter f h) s) h = f k.
Proof.
  intros Hk. unfold socket_at. cbn. now rewrite list_lookup_alter_eq, Hk.
Qed.

Lemma socket_at_Some (s : World) (h : nat) (k : Socket) :
  sockets s !! h = Some k -> socket_at s h = k.
Proof. intros H. unfold socket_at. now rewrite H. Qed.

(** ** Removing a client *)

Lemma removeClient_absent (clientId : N) (s : World) :
  clients s !! clientId = None -> removeClient clientId s = s.
Proof. intros H. unfold removeClient. now rewrite H. Qed.

Lemma removeClient_lookup (clientId : N) (s : World) :
  clients (removeClient clientId s) !! clientId = None.
Proof.
  unfold removeClient. destruct (clients s !! clientId) as [client|] eqn:E.
  - cbn. destruct (destroyed _); cbn; apply lookup_delete_eq.
  - exact E.
Qed.

(** C8. Removing a client is idempotent: a second [removeClient] on the
    same identity leaves the registry, the sockets and everything else as
    the first one left them, without destroying the socket again; removing
    an identity that is not in the registry changes nothing. *)
Theorem removeClient_idempotent (clientId : N) (s : World) :
  removeClient clientId (removeClient clientId s) = removeClient clientId s /\
  (clients s !! clientId = None -> removeClient clientId s = s).
Proof.
  split.
  - apply removeClient_absent, removeClient_lookup.
  - apply removeClient_absent.
Qed.

Lemma removeClient_idempotent_witness :
  clients three_clients !! 7 = None /\
  removeClient 7 three_clients = three_clients /\
  removeClient 2 (removeClient 2 three_clients) = removeClient 2 three_clients.
Proof.
  assert (H : clients three_clients !! 7 = None) by (vm_compute; reflexivity).
  destruct (removeClient_idempotent 7 three_clients) as [_ H7].
  destruct (removeClient_idempotent 2 three_clients) as [H2 _].
  exact (conj H (conj (H7 H) H2)).
Defined.

(** ** Statistics *)

Lemma sumN_cons (x : N) (l : list N) : sumN (x :: l) = x + sumN l.
Proof. reflexivity. Qed.

Lemma sumN_Permutation (l1 l2 : list N) : l1 ≡ₚ l2 -> sumN l1 = sumN l2.
Proof. induction 1; simpl in *; lia. Qed.

Lemma sum_over_sumN (f : clientInfo -> N) (m : gmap N clientInfo) :
  sum_over f m = sumN ((fun k => from_option f 0 (m !! k)) <$> Object_keys m).
Proof.
  rewrite (sumN_Permutation _ ((fun k => from_option f 0 (m !! k)) <$> (map_to_list m).*1))
    by (apply fmap_Permutation, Object_keys_Permutation).
  unfold sum_over.
  assert (H : forall kc, kc ∈ map_to_list m -> m !! kc.1 = Some kc.2).
  { intros [k c] Hkc. now apply elem_of_map_to_list. }
  revert H. generalize (map_to_list m) as l.
  induction l as [|[k c] l IH]; intros H; [reflexivity|].
  pose proof (H (k, c) ltac:(left)) as Hk. cbn in Hk.
  cbn. rewrite Hk. cbn. rewrite IH; [reflexivity|].
  intros kc Hkc. apply H. now right.
Qed.

Lemma getStats_fold (f g : clientInfo -> N) (m : gmap N clientInfo) (ks : list N) (a b : N) :
  foldl (fun '(received, sent) clientId =>
           match m !! clientId with
           | Some client => (received + f client, sent + g client)
           | None => (received, sent)
           end) (a, b) ks
  = (a + sumN ((fun k => from_option f 0 (m !! k)) <$> ks),
     b + sumN ((fun k => from_option g 0 (m !! k)) <$> ks)).
Proof.
  revert a b. induction ks as [|k ks IH]; intros a b.
  - cbn. now rewrite !N.add_0_r.
  - cbn [foldl]. rewrite !fmap_cons, !sumN_cons.
    destruct (m !! k) as [c|]; rewrite IH; cbn [from_option]; f_equal; lia.
Qed.

(** What the statistics timer prints. *)
Lemma print_stats_eq {uptime_t : Type} (up : uptime_t) (s : World) :
  print_stats up s
  = log (Log_stats (N.of_nat (size (clients s)))
                   (sum_over bytesReceived (clients s))
                   (sum_over bytesSent (clients s))) s.
Proof.
  unfold print_stats, getStats. rewrite getStats_fold, Object_keys_length.
  now rewrite !N.add_0_l, <- !sum_over_sumN.
Qed.

(** C9. The statistics snapshot counts the sessions in the registry, sums
    their [bytesReceived] and [bytesSent] counters, reports the uptime it
    read, and leaves the world as it was. *)
Theorem getStats_snapshot {uptime_t : Type} (up : uptime_t) (s : World) :
  getStats up s
  = ({| connectedClients := N.of_nat (size (clients s));
        totalBytesReceived := sum_over bytesReceived (clients s);
        totalBytesSent := sum_over bytesSent (clients s);
        uptime := up |}, s).
Proof.
  unfold getStats. rewrite getStats_fold, Object_keys_length.
  now rewrite !N.add_0_l, <- !sum_over_sumN.
Qed.

(** ** The listener's error handler and process exit *)

(** C7 as stated fails: after an address-in-use error the process has not
    exited, with any status. *)
Lemma bind_error_does_not_exit :
  ~ exists status : Z,
      exit_code (sample_run [ServerError "listen EADDRINUSE" "EADDRINUSE"]
                            (VPNServer None None)) = Some status
      /\ status <> 0%Z.
Proof. intros [status [H _]]. vm_compute in H. discriminate H. Qed.

Lemma foldl_preserves {A B C} (proj : B -> C) (f : B -> A -> B) (l : list A) (s : B) :
  (forall s x, proj (f s x) = proj s) -> proj (foldl f s l) = proj s.
Proof.
  intros H. revert s. induction l as [|x l IH]; intros s; cbn; [reflexivity|].
  now rewrite IH, H.
Qed.

Section Exit.

Variable K IV : Buffer.
Variable bfo : JSON -> result Buffer.

(** The per-client methods leave the configuration, the identity counter
    and the exit state of the process alone. *)

Lemma sendToClient_server_fields (clientId : N) (data : JSON) (s : World) :
  server_fields (sendToClient clientId data s) = server_fields s.
Proof.
  unfold sendToClient. destruct (clients s !! clientId) as [c|]; [|reflexivity].
  destruct (connected c); reflexivity.
Qed.

Lemma broadcastToOthers_server_fields (senderId : N) (data : JSON) (s : World) :
  server_fields (broadcastToOthers senderId data s) = server_fields s.
Proof.
  unfold broadcastToOthers. apply foldl_preserves. intros s' k.
  destruct (decide _); [apply sendToClient_server_fields|reflexivity].
Qed.

Lemma removeClient_server_fields (clientId : N) (s : World) :
  server_fields (removeClient clientId s) = server_fields s.
Proof.
  unfold removeClient. destruct (clients s !! clientId) as [c|]; [|reflexivity].
  cbn. destruct (destroyed _); reflexivity.
Qed.

Lemma handle_message_server_fields (clientId : N) (text : string) (now : Z) (s s' : World) :
  handle_message K IV bfo clientId text now s = Ok s' ->
  server_fields s' = server_fields s.
Proof.
  unfold handle_message.
  destruct (parse text) as [message|]; [|discriminate]. cbn [bind].
  destruct (get message "type") as [type|]; [|discriminate]. cbn [bind].
  destruct (is_string type "ping").
  { intros [= <-]. apply sendToClient_server_fields. }
  destruct (is_string type "data").
  { destruct (get message "encrypted") as [encrypted|]; [|discriminate]. cbn [bind].
    destruct (get message "payload") as [payload|]; [|discriminate]. cbn [bind].
    destruct (truthy encrypted && truthy payload); [|now intros [= <-]].
    destruct (Buffer_from bfo payload) as [buf|]; [|discriminate]. cbn [bind].
    unfold decrypt. destruct (decipher K IV buf) as [decrypted|e]; cbn [foldl].
    - intros [= <-]. now rewrite broadcastToOthers_server_fields.
    - now intros [= <-]. }
  destruct (is_string type "tunnel").
  { intros [= <-]. now rewrite sendToClient_server_fields. }
  now intros [= <-].
Qed.

Lemma handleClientData_server_fields (clientId : N) (data : Buffer) (now : Z) (s : World) :
  server_fields (handleClientData K IV bfo clientId data now s) = server_fields s.
Proof.
  unfold handleClientData. destruct (clients s !! clientId) as [c|]; [|reflexivity].
  destruct (handle_message _ _ _ _ _ _ _) as [s'|e] eqn:E; [|reflexivity].
  now rewrite (handle_message_server_fields _ _ _ _ _ E).
Qed.

Lemma stop_server_fields (s : World) : server_fields (stop s) = server_fields s.
Proof.
  unfold stop.
  rewrite (foldl_preserves server_fields) by (intros; apply removeClient_server_fields).
  reflexivity.
Qed.

Lemma server_fields_exit_code (s s' : World) :
  server_fields s' = server_fields s -> exit_code s' = exit_code s.
Proof. unfold server_fields. congruence. Qed.

Lemma server_fields_counter (s s' : World) :
  server_fields s' = server_fields s -> clientIdCounter s' = clientIdCounter s.
Proof. unfold server_fields. congruence. Qed.

Lemma dispatch_exit_code {uptime_t : Type} (ev : event uptime_t) (s : World) :
  exit_code (dispatch K IV bfo ev s) = exit_code s \/
  (ev = ExitTimer /\ exit_code (dispatch K IV bfo ev s) = Some 0%Z).
Proof.
  destruct ev; cbn [dispatch].
  - left. reflexivity.
  - left. destruct (handlers _) as [c|]; [|reflexivity].
    destruct (destroyed _); [reflexivity|].
    apply server_fields_exit_code, handleClientData_server_fields.
  - left. destruct (handlers _) as [c|]; [|reflexivity].
    destruct (destroyed _); [reflexivity|].
    now rewrite (server_fields_exit_code _ _ (removeClient_server_fields _ _)).
  - left. destruct (handlers _) as [c|]; [|reflexivity].
    now rewrite (server_fields_exit_code _ _ (removeClient_server_fields _ _)).
  - left. unfold server_on_error. cbn. destruct (String.eqb code _); reflexivity.
  - left. rewrite print_stats_eq. reflexivity.
  - left. unfold on_signal. cbn.
    now rewrite (server_fields_exit_code _ _ (stop_server_fields _)).
  - destruct (exit_timer s); [right|left]; auto.
Qed.

(** C7, amended.  The listener's error handler prints the error, and a
    second line naming the port when the code is [EADDRINUSE]; it changes
    nothing else and requests no exit.  No event handler other than the
    exit timer armed by a termination signal ends the process, and that
    one exits with status 0. *)
Theorem server_error_is_logged_not_fatal {uptime_t : Type}
    (message code : string) (ev : event uptime_t) (s : World) :
  (let s' := server_on_error message code s in
   console s' = console s ++
                Error_server message ::
                (if String.eqb code "EADDRINUSE"
                 then [Error_port_in_use (this_port s)] else []) /\
   exit_code s' = exit_code s /\ exit_timer s' = exit_timer s /\
   clients s' = clients s /\ sockets s' = sockets s) /\
  (exit_code (step K IV bfo s ev) = exit_code s \/
   (ev = ExitTimer /\ exit_timer s = true /\
    exit_code s = None /\ exit_code (step K IV bfo s ev) = Some 0%Z)).
Proof.
  split.
  - unfold server_on_error. destruct (String.eqb code _); cbn.
    + now rewrite <- app_assoc.
    + auto.
  - unfold step. destruct (exit_code s) as [c|] eqn:E; [left; exact E|].
    destruct (dispatch_exit_code ev s) as [H|[-> H]].
    + left. congruence.
    + cbn [dispatch] in *. destruct (exit_timer s); [|cbn in H; congruence].
      right. auto.
Qed.

End Exit.

(** ** Handling a chunk *)

Lemma is_string_inj (x : option JSON) (a b : string) :
  is_string x a = true -> is_string x b = true -> a = b.
Proof.
  destruct x as [[]|]; try discriminate. cbn.
  intros Ha%String.eqb_eq Hb%String.eqb_eq. congruence.
Qed.

Lemma is_string_other (x : option JSON) (a b : string) :
  is_string x a = true -> a <> b -> is_string x b = false.
Proof.
  intros Ha Hne. destruct (is_string x b) eqn:E; [|reflexivity].
  destruct Hne. eapply is_string_inj; eassumption.
Qed.

Section Handling.

Variable K IV : Buffer.
Variable bfo : JSON -> result Buffer.

(** C10. A [data] message whose [encrypted] field or [payload] field is
    falsy (or missing) is dropped without a trace: the only change is the
    sender's [bytesReceived]; nothing is decrypted, written to any socket
    or printed, and the registry keeps its sessions. *)
Theorem unencrypted_or_empty_data_is_dropped
    (clientId : N) (data : Buffer) (now : Z) (s : World) (client : clientInfo)
    (message : JSON) (type encrypted payload : option JSON) :
  clients s !! clientId = Some client ->
  parse (Buffer_toString data) = Ok message ->
  get message "type" = Ok type ->
  is_string type "data" = true ->
  get message "encrypted" = Ok encrypted ->
  get message "payload" = Ok payload ->
  truthy encrypted = false \/ truthy payload = false ->
  handleClientData K IV bfo clientId data now s
  = set_clients
      (insert clientId (add_bytesReceived (N.of_nat (length data)) client)) s.
Proof.
  intros Hc Hp Ht Hd He Hpl Hf.
  unfold handleClientData, handle_message. rewrite Hc, Hp. cbn [bind].
  rewrite Ht. cbn [bind].
  rewrite (is_string_other type "data" "ping" Hd) by discriminate.
  rewrite Hd, He. cbn [bind]. rewrite Hpl. cbn [bind].
  replace (truthy encrypted && truthy payload) with false; [reflexivity|].
  destruct Hf as [-> | ->]; [reflexivity|]. now rewrite andb_false_r.
Qed.

(** C4. A ciphertext on which the decipher throws (wrong length or bad
    padding) makes [decrypt] return null and print the error, without
    throwing.  When it arrives as the payload of a [data] message the
    handler only counts the bytes and prints that error: no socket is
    written to, so nothing is relayed, and the sender stays registered. *)
Theorem decrypt_failure_is_contained (ciphertext : Buffer) (e : exn) :
  decipher K IV ciphertext = Throw e ->
  decrypt K IV ciphertext = (None, [Error_decryption e]) /\
  forall (clientId : N) (data : Buffer) (now : Z) (s : World) (client : clientInfo)
         (message : JSON) (type encrypted : option JSON) (payload : string),
    clients s !! clientId = Some client ->
    parse (Buffer_toString data) = Ok message ->
    get message "type" = Ok type ->
    is_string type "data" = true ->
    get message "encrypted" = Ok encrypted ->
    truthy encrypted = true ->
    get message "payload" = Ok (Some (JString payload)) ->
    payload <> ""%string ->
    Hex.from_hex payload = ciphertext ->
    let s' := handleClientData K IV bfo clientId data now s in
    s' = log (Error_decryption e)
           (set_clients
              (insert clientId (add_bytesReceived (N.of_nat (length data)) client)) s)
    /\ sockets s' = sockets s
    /\ is_Some (clients s' !! clientId)
    /\ exit_code s' = exit_code s.
Proof.
  intros Hthrow.
  assert (Hd : decrypt K IV ciphertext = (None, [Error_decryption e])).
  { unfold decrypt. now rewrite Hthrow. }
  split; [exact Hd|].
  intros clientId data now s client message type encrypted payload
         Hc Hp Ht Hty He Hte Hpl Hne Hhex s'.
  assert (Hs' : s' = log (Error_decryption e)
           (set_clients
              (insert clientId (add_bytesReceived (N.of_nat (length data)) client)) s)).
  { subst s'. unfold handleClientData, handle_message. rewrite Hc, Hp. cbn [bind].
    rewrite Ht. cbn [bind].
    rewrite (is_string_other type "data" "ping" Hty) by discriminate.
    rewrite Hty, He. cbn [bind]. rewrite Hpl. cbn [bind].
    rewrite Hte. cbn [truthy andb].
    destruct (String.eqb payload "") eqn:E; [apply String.eqb_eq in E; contradiction|].
    cbn [negb Buffer_from bind]. rewrite Hhex, Hd. reflexivity. }
  rewrite Hs'. cbn. repeat split.
  rewrite lookup_insert_eq. eauto.
Qed.

End Handling.

Lemma unencrypted_or_empty_data_is_dropped_witness :
  let data := wire (JObject [("type", JString "data"); ("encrypted", JBool false);
                              ("payload", JString "00")]%string) in
  exists client,
    clients three_clients !! 1 = Some client /\
    handleClientData sample_key sample_iv sample_from_object 1 data 0 three_clients
    = set_clients (insert 1 (add_bytesReceived (N.of_nat (length data)) client))
        three_clients.
Proof.
  intros data. eexists. split; [vm_compute; reflexivity|].
  eapply (unencrypted_or_empty_data_is_dropped sample_key sample_iv sample_from_object
            1 data 0 three_clients _ _ _ (Some (JBool false)) (Some (JString "00"))).
  - vm_compute; reflexivity.
  - vm_compute; reflexivity.
  - reflexivity.
  - reflexivity.
  - reflexivity.
  - reflexivity.
  - left. reflexivity.
Defined.

Lemma decrypt_failure_is_contained_witness :
  let payload := "e23fc0b91c7bd64425c559736e9b0c58"%string in
  let data := wire (data_message payload) in
  decipher sample_key sample_iv (Hex.from_hex payload) = Throw ERR_OSSL_BAD_DECRYPT /\
  decrypt sample_key sample_iv (Hex.from_hex payload)
  = (None, [Error_decryption ERR_OSSL_BAD_DECRYPT]) /\
  sockets (handleClientData sample_key sample_iv sample_from_object 1 data 0 three_clients)
  = sockets three_clients.
Proof.
  intros payload data.
  assert (H : decipher sample_key sample_iv (Hex.from_hex payload)
              = Throw ERR_OSSL_BAD_DECRYPT) by (vm_compute; reflexivity).
  destruct (decrypt_failure_is_contained sample_key sample_iv sample_from_object
              (Hex.from_hex payload) ERR_OSSL_BAD_DECRYPT H) as [Hd Hh].
  split; [exact H|]. split; [exact Hd|].
  eapply (Hh 1 data 0%Z three_clients _ _ _ (Some (JBool true)) payload).
  - vm_compute; reflexivity.
  - vm_compute; reflexivity.
  - reflexivity.
  - reflexivity.
  - reflexivity.
  - reflexivity.
  - reflexivity.
  - discriminate.
  - reflexivity.
Defined.

(** ** Worked examples on a server with three clients *)

(** C1, at a failing input.  A tunnel request delivered in one chunk is
    answered.  The same bytes delivered in two chunks are not put back
    together: each chunk is reported as raw data and nothing is answered.
    Two requests delivered in one chunk are lost in the same way. *)
Theorem split_frame_is_not_reassembled :
  let whole := wire tunnel_message in
  let first := take 10 whole in
  let second := drop 10 whole in
  let welcome1 := stringify (welcome sample_key sample_iv 1) +:+ NL in
  let reply := stringify tunnel_established +:+ NL in
  let connected := console three_clients in
  first ++ second = whole /\
  sent_to_first (sample_run [SocketData 0 whole 0] three_clients)
    = [welcome1; reply] /\
  (let s := sample_run [SocketData 0 first 0; SocketData 0 second 0] three_clients in
   sent_to_first s = [welcome1] /\
   console s = connected ++ [Log_raw_data 1 10; Log_raw_data 1 30]) /\
  (let s := sample_run [SocketData 0 (whole ++ whole) 0] three_clients in
   sent_to_first s = [welcome1] /\
   console s = connected ++ [Log_raw_data 1 80]).
Proof. vm_compute. repeat split. Qed.

(** C2, at a failing input.  A ping stamped 1000 that is handled when the
    clock reads 2000 is answered with a pong stamped 2000: the reply
    carries the server's clock, not the timestamp it was sent. *)
Theorem ping_is_answered_with_server_clock :
  let s := sample_run [SocketData 0 (wire (ping_message 1000)) 2000] three_clients in
  last (sent_to_first s) = Some (stringify (pong 2000) +:+ NL) /\
  last (sent_to_first s) <> Some (stringify (pong 1000) +:+ NL).
Proof. vm_compute. split; [reflexivity|discriminate]. Qed.

(** ** Sockets are append-only *)

Lemma socket_grows_refl (k : Socket) : socket_grows k k.
Proof. repeat split; auto. exists []. now rewrite app_nil_r. Qed.

Lemma socket_grows_trans (k1 k2 k3 : Socket) :
  socket_grows k1 k2 -> socket_grows k2 k3 -> socket_grows k1 k3.
Proof.
  intros (A1 & P1 & H1 & D1 & m1 & W1) (A2 & P2 & H2 & D2 & m2 & W2).
  repeat split; try congruence; auto.
  exists (m1 ++ m2). now rewrite W2, W1, app_assoc.
Qed.

Lemma socket_grows_write (chunk : string) (k : Socket) : socket_grows k (write chunk k).
Proof.
  unfold write. destruct (destroyed k) eqn:E; [apply socket_grows_refl|].
  repeat split; cbn; try congruence. now exists [chunk].
Qed.

Lemma socket_grows_destroy (k : Socket) : socket_grows k (destroy k).
Proof. repeat split; cbn; auto. exists []. now rewrite app_nil_r. Qed.

Lemma sockets_grow_refl (s : World) : sockets_grow s s.
Proof. apply Forall_Forall2_diag, Forall_forall. intros; apply socket_grows_refl. Qed.

Lemma sockets_grow_trans (s1 s2 s3 : World) :
  sockets_grow s1 s2 -> sockets_grow s2 s3 -> sockets_grow s1 s3.
Proof.
  unfold sockets_grow. intros H12 H23.
  eapply Forall2_trans; [|exact H12|exact H23].
  intros; eapply socket_grows_trans; eassumption.
Qed.

Lemma Forall2_alter_grows (f : Socket -> Socket) (h : nat) (l : list Socket) :
  (forall k, socket_grows k (f k)) -> Forall2 socket_grows l (alter f h l).
Proof.
  intros Hf. revert h. induction l as [|k l IH]; intros h; [constructor|].
  destruct h as [|h]; cbn; constructor; auto using socket_grows_refl.
  apply Forall_Forall2_diag, Forall_forall. intros; apply socket_grows_refl.
Qed.

Lemma sockets_grow_alter (f : Socket -> Socket) (h : nat) (s : World) :
  (forall k, socket_grows k (f k)) -> sockets_grow s (set_sockets (alter f h) s).
Proof. intros Hf. now apply Forall2_alter_grows. Qed.

(** A step that leaves the sockets alone. *)
Lemma sockets_grow_same (s s' : World) : sockets s' = sockets s -> sockets_grow s s'.
Proof. unfold sockets_grow. intros ->. apply (sockets_grow_refl s). Qed.

Lemma foldl_sockets_grow {A} (f : World -> A -> World) (l : list A) (s : World) :
  (forall s x, sockets_grow s (f s x)) -> sockets_grow s (foldl f s l).
Proof.
  intros H. revert s. induction l as [|x l IH]; intros s; cbn.
  - apply sockets_grow_refl.
  - eapply sockets_grow_trans; [apply H|apply IH].
Qed.

Section Grow.

Variable K IV : Buffer.
Variable bfo : JSON -> result Buffer.

Lemma sendToClient_grows (clientId : N) (data : JSON) (s : World) :
  sockets_grow s (sendToClient clientId data s).
Proof.
  unfold sendToClient. destruct (clients s !! clientId) as [c|]; [|apply sockets_grow_refl].
  destruct (connected c); [|apply sockets_grow_refl].
  apply (sockets_grow_alter (write _)), socket_grows_write.
Qed.

Lemma broadcastToOthers_grows (senderId : N) (data : JSON) (s : World) :
  sockets_grow s (broadcastToOthers senderId data s).
Proof.
  unfold broadcastToOthers. apply foldl_sockets_grow. intros s' k.
  destruct (decide _); [apply sendToClient_grows|apply sockets_grow_refl].
Qed.

Lemma removeClient_grows (clientId : N) (s : World) :
  sockets_grow s (removeClient clientId s).
Proof.
  unfold removeClient. destruct (clients s !! clientId) as [c|]; [|apply sockets_grow_refl].
  destruct (destroyed _).
  - now apply sockets_grow_same.
  - unfold sockets_grow. cbn. apply Forall2_alter_grows, socket_grows_destroy.
Qed.

Lemma handle_message_grows (clientId : N) (text : string) (now : Z) (s s' : World) :
  handle_message K IV bfo clientId text now s = Ok s' -> sockets_grow s s'.
Proof.
  unfold handle_message.
  destruct (parse text) as [message|]; [|discriminate]. cbn [bind].
  destruct (get message "type") as [type|]; [|discriminate]. cbn [bind].
  destruct (is_string type "ping").
  { intros [= <-]. apply sendToClient_grows. }
  destruct (is_string type "data").
  { destruct (get message "encrypted") as [encrypted|]; [|discriminate]. cbn [bind].
    destruct (get message "payload") as [payload|]; [|discriminate]. cbn [bind].
    destruct (truthy encrypted && truthy payload);
      [|intros [= <-]; apply sockets_grow_refl].
    destruct (Buffer_from bfo payload) as [buf|]; [|discriminate]. cbn [bind].
    unfold decrypt. destruct (decipher K IV buf) as [decrypted|e]; cbn [foldl].
    - intros [= <-]. apply (broadcastToOthers_grows _ _ (log _ s)).
    - intros [= <-]. now apply sockets_grow_same. }
  destruct (is_string type "tunnel").
  { intros [= <-]. apply (sendToClient_grows _ _ (log _ s)). }
  intros [= <-]. apply sockets_grow_refl.
Qed.

Lemma handleClientData_grows (clientId : N) (data : Buffer) (now : Z) (s : World) :
  sockets_grow s (handleClientData K IV bfo clientId data now s).
Proof.
  unfold handleClientData. destruct (clients s !! clientId) as [c|]; [|apply sockets_grow_refl].
  destruct (handle_message _ _ _ _ _ _ _) as [s'|e] eqn:E.
  - apply (handle_message_grows _ _ _ _ _ E).
  - now apply sockets_grow_same.
Qed.

Lemma stop_grows (s : World) : sockets_grow s (stop s).
Proof.
  unfold stop. apply (foldl_sockets_grow _ _ (log _ s)).
  intros; apply removeClient_grows.
Qed.

End Grow.

(** ** Identities *)

Section Identities.

Variable K IV : Buffer.
Variable bfo : JSON -> result Buffer.

Lemma ids_follow_acceptance_grows (s s' : World) :
  ids_follow_acceptance K IV s -> sockets_grow s s' ->
  clientIdCounter s' = clientIdCounter s ->
  ids_follow_acceptance K IV s'.
Proof.
  intros [Hc Hs] Hg Hcount. split.
  - rewrite Hcount, Hc. f_equal. apply (Forall2_length _ _ _ Hg).
  - intros i k' Hk'.
    destruct (Forall2_lookup_r _ _ _ _ _ Hg Hk') as (k & Hk & _ & _ & Hh & _ & more & Hw).
    destruct (Hs i k Hk) as [H1 H2]. split; [congruence|].
    rewrite Hw. destruct (written k); [discriminate|exact H2].
Qed.

Lemma handleConnection_ids (addr : string) (p : N) (s : World) :
  ids_follow_acceptance K IV s ->
  ids_follow_acceptance K IV
    (handleConnection K IV (length (sockets s))
       (set_sockets (fun l => l ++ [new_socket addr p]) s)).
Proof.
  intros [Hc Hs]. unfold handleConnection, ids_follow_acceptance. cbn.
  rewrite !length_alter, length_app. cbn. split; [lia|].
  assert (Hid : clientIdCounter s + 1 = N.of_nat (S (length (sockets s)))) by lia.
  intros i k.
  destruct (decide (length (sockets s) = i)) as [<-|Hne].
  - rewrite !list_lookup_alter_eq, lookup_app_r, Nat.sub_diag by lia. cbn.
    intros [= <-]. cbn. now rewrite Hid.
  - rewrite !list_lookup_alter_ne by assumption.
    intros Hk. apply Hs. apply lookup_app_Some in Hk as [Hk|[Hlen Hk]]; [exact Hk|].
    destruct (i - length (sockets s))%nat eqn:E; [lia|discriminate].
Qed.

Lemma dispatch_grows {uptime_t : Type} (ev : event uptime_t) (s : World) :
  (forall addr p, ev <> Connection addr p) ->
  sockets_grow s (dispatch K IV bfo ev s) /\
  clientIdCounter (dispatch K IV bfo ev s) = clientIdCounter s.
Proof.
  intros Hev. destruct ev as [addr p| | | | | | |]; cbn [dispatch].
  - now destruct (Hev addr p).
  - destruct (handlers _) as [c|]; [|split; [apply sockets_grow_refl|reflexivity]].
    destruct (destroyed _); [split; [apply sockets_grow_refl|reflexivity]|].
    split; [apply handleClientData_grows|].
    apply server_fields_counter, handleClientData_server_fields.
  - destruct (handlers _) as [c|]; [|split; [apply sockets_grow_refl|reflexivity]].
    destruct (destroyed _); [split; [apply sockets_grow_refl|reflexivity]|].
    split; [apply (removeClient_grows _ (log _ s))|].
    now rewrite (server_fields_counter _ _ (removeClient_server_fields _ _)).
  - assert (Hd : sockets_grow s (socket_destroy sock s)).
    { apply (sockets_grow_alter destroy), socket_grows_destroy. }
    destruct (handlers _) as [c|]; [|split; [exact Hd|reflexivity]].
    split.
    + eapply sockets_grow_trans; [exact Hd|].
      apply (removeClient_grows _ (log _ (socket_destroy sock s))).
    + now rewrite (server_fields_counter _ _ (removeClient_server_fields _ _)).
  - split; [apply sockets_grow_same|];
      unfold server_on_error; cbn; destruct (String.eqb code _); reflexivity.
  - rewrite print_stats_eq.
    split; [now apply sockets_grow_same|reflexivity].
  - unfold on_signal. split.
    + apply (stop_grows (log Log_signal s)).
    + cbn. now rewrite (server_fields_counter _ _ (stop_server_fields _)).
  - destruct (exit_timer s); split; try reflexivity; now apply sockets_grow_same.
Qed.

Lemma step_ids {uptime_t : Type} (ev : event uptime_t) (s : World) :
  ids_follow_acceptance K IV s -> ids_follow_acceptance K IV (step K IV bfo s ev).
Proof.
  intros H. unfold step. destruct (exit_code s); [exact H|].
  destruct ev; try (eapply ids_follow_acceptance_grows;
                    [exact H|apply dispatch_grows; discriminate..]).
  now apply handleConnection_ids.
Qed.

Lemma run_ids {uptime_t : Type} (evs : list (event uptime_t)) (s : World) :
  ids_follow_acceptance K IV s -> ids_follow_acceptance K IV (run K IV bfo evs s).
Proof.
  unfold run. revert s. induction evs as [|ev evs IH]; intros s H; cbn; [exact H|].
  apply IH, step_ids, H.
Qed.

Lemma VPNServer_ids (p : option N) (h : option string) :
  ids_follow_acceptance K IV (VPNServer p h).
Proof. split; [reflexivity|]. intros i k Hk. discriminate Hk. Qed.

End Identities.

Lemma omap_handlers_pointwise (l : list Socket) (f : nat -> N) :
  (forall i k, l !! i = Some k -> handlers k = Some (f i)) ->
  omap handlers l = f <$> seq 0 (length l).
Proof.
  revert f. induction l as [|k l IH]; intros f H; [reflexivity|].
  pose proof (H 0%nat k eq_refl) as H0.
  specialize (IH (fun i => f (S i)) (fun i k' Hk' => H (S i) k' Hk')).
  cbn. rewrite H0. cbn. f_equal.
  etransitivity; [exact IH|].
  now rewrite <- fmap_S_seq, <- list_fmap_compose.
Qed.

Lemma consecutive_sorted (start n : nat) :
  StronglySorted N.lt (N.of_nat <$> seq start n).
Proof.
  revert start. induction n as [|n IH]; intros start; cbn; constructor; [apply IH|].
  apply Forall_fmap, Forall_forall. intros x Hx%elem_of_seq. cbn. lia.
Qed.

(** C6. Whatever the server has been through, the identities it has
    assigned, in the order the connections were accepted, are exactly
    1, 2, ..., N: positive, strictly increasing, pairwise distinct, and so
    never handed out twice however sessions were closed in between.  The
    counter equals N, and the [i]-th accepted socket both routes its events
    to identity [i] and was first sent the welcome naming [i]. *)
Theorem identities_are_consecutive (K IV : Buffer) (bfo : JSON -> result Buffer)
    {uptime_t : Type} (p : option N) (h : option string)
    (evs : list (event uptime_t)) :
  let s := run K IV bfo evs (VPNServer p h) in
  let n := length (sockets s) in
  assigned_ids s = N.of_nat <$> seq 1 n /\
  clientIdCounter s = N.of_nat n /\
  Forall (fun i => 1 <= i) (assigned_ids s) /\
  StronglySorted N.lt (assigned_ids s) /\
  NoDup (assigned_ids s) /\
  forall i k, sockets s !! i = Some k ->
    handlers k = Some (N.of_nat (S i)) /\
    head (written k) = Some (stringify (welcome K IV (N.of_nat (S i))) +:+ NL).
Proof.
  intros s n.
  destruct (run_ids K IV bfo evs _ (VPNServer_ids K IV p h)) as [Hc Hs].
  fold s in Hc, Hs. fold n in Hc.
  assert (Hids : assigned_ids s = N.of_nat <$> seq 1 n).
  { unfold assigned_ids.
    rewrite (omap_handlers_pointwise _ (fun i => N.of_nat (S i)))
      by (intros i k Hk; apply (Hs i k Hk)).
    fold n. now rewrite <- fmap_S_seq, <- list_fmap_compose. }
  rewrite Hids. repeat split; try assumption.
  - apply Forall_fmap, Forall_forall. intros x Hx%elem_of_seq. cbn. lia.
  - apply consecutive_sorted.
  - apply NoDup_fmap_2; [intros x y; lia|apply NoDup_seq].
  - apply Hs. assumption.
  - apply Hs. assumption.
Qed.

(** ** Every registered session has a live socket of its own *)

Lemma registry_ok_distinct (s : World) (X Y : N) (cx cy : clientInfo) :
  registry_ok s -> clients s !! X = Some cx -> clients s !! Y = Some cy ->
  socket cx = socket cy -> X = Y.
Proof.
  intros Hok Hx Hy Heq.
  destruct (Hok X cx Hx) as [(_ & _ & k & Hk & _ & Hh) _].
  destruct (Hok Y cy Hy) as [(_ & _ & k' & Hk' & _ & Hh') _].
  rewrite Heq in Hk. congruence.
Qed.

Lemma registry_ok_ext (s s' : World) :
  clients s' = clients s -> sockets s' = sockets s ->
  clientIdCounter s' = clientIdCounter s -> registry_ok s -> registry_ok s'.
Proof.
  intros Hc Hs Hn Hok X cx. rewrite Hc, Hn. intros Hx.
  destruct (Hok X cx Hx) as [(Hi & Hc' & k & Hk & Hd & Hh) Hb].
  split; [|exact Hb]. split; [exact Hi|]. split; [exact Hc'|].
  exists k. rewrite Hs. auto.
Qed.

(** Changing only the byte counters of a session keeps the registry intact. *)
Lemma registry_ok_update (s : World) (X : N) (cx c' : clientInfo) :
  registry_ok s -> clients s !! X = Some cx ->
  id c' = id cx -> socket c' = socket cx -> connected c' = connected cx ->
  registry_ok (set_clients (insert X c') s).
Proof.
  intros Hok Hx Hi Hso Hco Y cy. cbn. rewrite lookup_insert.
  destruct (decide (X = Y)) as [<-|Hne].
  - intros [= <-]. destruct (Hok X cx Hx) as [(Hi' & Hc' & k & Hk & Hd & Hh) Hb].
    split; [|exact Hb]. split; [congruence|]. split; [congruence|].
    exists k. rewrite Hso. auto.
  - intros Hy. apply (Hok Y cy Hy).
Qed.

(** Writing to a socket keeps the registry intact. *)
Lemma registry_ok_write (s : World) (h : nat) (chunk : string) :
  registry_ok s -> registry_ok (socket_write h chunk s).
Proof.
  intros Hok X cx Hx. destruct (Hok X cx Hx) as [(Hi & Hc' & k & Hk & Hd & Hh) Hb].
  split; [|exact Hb]. split; [exact Hi|]. split; [exact Hc'|]. cbn.
  destruct (decide (h = socket cx)) as [->|Hne].
  - exists (write chunk k). rewrite list_lookup_alter_eq, Hk. cbn.
    unfold write. rewrite Hd. cbn. auto.
  - exists k. rewrite list_lookup_alter_ne by assumption. auto.
Qed.

Lemma sendToClient_eq (X : N) (cx : clientInfo) (data : JSON) (s : World) :
  clients s !! X = Some cx -> connected cx = true ->
  sendToClient X data s
  = set_clients
      (insert X (add_bytesSent (N.of_nat (String.length (stringify data +:+ NL))) cx))
      (socket_write (socket cx) (stringify data +:+ NL) s).
Proof. intros Hx Hc. unfold sendToClient. now rewrite Hx, Hc. Qed.

Lemma sendToClient_registry_ok (X : N) (data : JSON) (s : World) :
  registry_ok s -> registry_ok (sendToClient X data s).
Proof.
  intros Hok. unfold sendToClient.
  destruct (clients s !! X) as [cx|] eqn:Hx; [|exact Hok].
  destruct (connected cx); [|exact Hok].
  eapply registry_ok_update; [apply registry_ok_write, Hok|exact Hx|reflexivity..].
Qed.

(** What is on a live socket after a write. *)
Lemma written_socket_write (s : World) (h h' : nat) (chunk : string) (k : Socket) :
  sockets s !! h' = Some k -> destroyed k = false ->
  written (socket_at (socket_write h chunk s) h')
  = written k ++ (if decide (h = h') then [chunk] else []).
Proof.
  intros Hk Hd. unfold socket_write.
  destruct (decide (h = h')) as [->|Hne].
  - rewrite (socket_at_alter_eq _ _ _ _ Hk). unfold write. now rewrite Hd.
  - rewrite socket_at_alter_ne, (socket_at_Some _ _ _ Hk), app_nil_r by assumption.
    reflexivity.
Qed.

Lemma socket_at_set_clients (f : gmap N clientInfo -> gmap N clientInfo)
    (s : World) (h : nat) :
  socket_at (set_clients f s) h = socket_at s h.
Proof. reflexivity. Qed.

Lemma socket_at_log (l : log_line) (s : World) (h : nat) :
  socket_at (log l s) h = socket_at s h.
Proof. reflexivity. Qed.

Section Broadcast.

Variable senderId : N.
Variable data : JSON.

Let message : string := stringify data +:+ NL.
Let size : N := N.of_nat (String.length message).

Let deliver (s : World) (clientId : N) : World :=
  if decide (clientId ≠ senderId) then sendToClient clientId data s else s.

(** The effect of sending [data] to the identities [ks], skipping the
    sender, on each registered session. *)
Lemma broadcast_fold_spec (ks : list N) (s : World) :
  NoDup ks -> registry_ok s ->
  let s' := foldl deliver s ks in
  registry_ok s' /\
  console s' = console s /\
  forall X cx, clients s !! X = Some cx ->
    let hit := bool_decide (X ∈ ks /\ X ≠ senderId) in
    clients s' !! X = Some (if hit then add_bytesSent size cx else cx) /\
    written (socket_at s' (socket cx))
    = written (socket_at s (socket cx)) ++ (if hit then [message] else []).
Proof.
  revert s. induction ks as [|k ks IH]; intros s Hnd Hok; cbn zeta.
  - cbn [foldl]. split; [assumption|]. split; [reflexivity|].
    intros X cx Hx. cbn zeta. rewrite bool_decide_eq_false_2 by (intros [H _]; inv H).
    now rewrite app_nil_r.
  - apply NoDup_cons in Hnd as [Hk Hnd]. cbn [foldl].
    assert (Hok1 : registry_ok (deliver s k)).
    { unfold deliver. destruct (decide _); [now apply sendToClient_registry_ok|assumption]. }
    destruct (IH (deliver s k) Hnd Hok1) as (Hok' & Hcon & Hall).
    split; [exact Hok'|]. split.
    { rewrite Hcon. unfold deliver. destruct (decide _); [|reflexivity].
      unfold sendToClient. destruct (clients s !! k) as [c|]; [|reflexivity].
      destruct (connected c); reflexivity. }
    intros X cx Hx.
    destruct (Hok X cx Hx) as [(_ & Hcx & kx & Hkx & Hdx & Hhx) _].
    unfold deliver in Hall |- *.
    destruct (decide (k ≠ senderId)) as [Hks|Hks].
    + destruct (clients s !! k) as [ck|] eqn:Hck.
      * destruct (Hok k ck Hck) as [(_ & Hcck & _) _].
        rewrite (sendToClient_eq k ck data s Hck Hcck) in Hall |- *.
        fold message in Hall |- *. fold size in Hall |- *.
        destruct (decide (k = X)) as [->|Hne].
        -- assert (cx = ck) as -> by congruence.
           destruct (Hall X (add_bytesSent size ck)) as [H1 H2].
           { cbn. apply lookup_insert_eq. }
           rewrite bool_decide_eq_false_2 in H1, H2 by (intros [H _]; contradiction).
           rewrite bool_decide_eq_true_2 by (split; [left|assumption]).
           split; [exact H1|]. cbn [socket add_bytesSent] in H2.
           rewrite H2, app_nil_r, socket_at_set_clients.
           rewrite (written_socket_write s _ _ message kx Hkx Hdx).
           rewrite decide_True by reflexivity.
           now rewrite (socket_at_Some _ _ _ Hkx).
        -- destruct (Hall X cx) as [H1 H2].
           { cbn. now rewrite lookup_insert_ne. }
           assert (Hsock : socket ck <> socket cx).
           { intros E. apply Hne. exact (registry_ok_distinct s k X ck cx Hok Hck Hx E). }
           rewrite (bool_decide_ext (X ∈ k :: ks /\ X ≠ senderId) (X ∈ ks /\ X ≠ senderId)).
           2:{ rewrite elem_of_cons. split; [|tauto].
               intros [[->|H] ?]; [now destruct Hne|tauto]. }
           split; [exact H1|]. rewrite H2. f_equal.
           rewrite socket_at_set_clients.
           rewrite (written_socket_write s _ _ message kx Hkx Hdx).
           rewrite decide_False by assumption.
           now rewrite app_nil_r, (socket_at_Some _ _ _ Hkx).
      * assert (Hs1 : sendToClient k data s = s).
        { unfold sendToClient. now rewrite Hck. }
        rewrite Hs1 in Hall |- *.
        destruct (Hall X cx Hx) as [H1 H2].
        rewrite (bool_decide_ext (X ∈ k :: ks /\ X ≠ senderId) (X ∈ ks /\ X ≠ senderId)).
        2:{ rewrite elem_of_cons. split; [|tauto]. intros [[->|H] ?]; [congruence|tauto]. }
        now split.
    + apply dec_stable in Hks. subst k.
      destruct (Hall X cx Hx) as [H1 H2].
      rewrite (bool_decide_ext (X ∈ senderId :: ks /\ X ≠ senderId) (X ∈ ks /\ X ≠ senderId)).
      2:{ rewrite elem_of_cons. split; [|tauto]. intros [[->|H] ?]; [congruence|tauto]. }
      now split.
Qed.

End Broadcast.

Lemma registry_ok_log (l : log_line) (s : World) : registry_ok s -> registry_ok (log l s).
Proof. now apply registry_ok_ext. Qed.

Lemma registry_ok_weaken (h : nat) (s : World) : registry_ok s -> registry_ok_but h s.
Proof.
  intros Hok X cx Hx. destruct (Hok X cx Hx) as [(Hi & Hc & k & Hk & Hd & Hh) Hb].
  split; [|exact Hb]. split; [exact Hi|]. split; [exact Hc|]. exists k. auto.
Qed.

(** The transport destroying a socket only harms the session bound to it. *)
Lemma registry_ok_but_destroy (h : nat) (s : World) :
  registry_ok s -> registry_ok_but h (socket_destroy h s).
Proof.
  intros Hok X cx Hx. destruct (Hok X cx Hx) as [(Hi & Hc & k & Hk & Hd & Hh) Hb].
  split; [|exact Hb]. split; [exact Hi|]. split; [exact Hc|]. cbn.
  destruct (decide (h = socket cx)) as [->|Hne].
  - exists (destroy k). rewrite list_lookup_alter_eq, Hk. cbn.
    split; [reflexivity|]. split; [exact Hh|]. intros E. now destruct E.
  - exists k. rewrite list_lookup_alter_ne by assumption. auto.
Qed.

(** Removing the client whose handlers are on socket [h] restores the
    registry, whether or not the transport has destroyed [h] already. *)
Lemma removeClient_registry_ok_but (h : nat) (X : N) (s : World) (k : Socket) :
  registry_ok_but h s -> sockets s !! h = Some k -> handlers k = Some X ->
  registry_ok (removeClient X s).
Proof.
  intros Hok Hk Hh.
  assert (Hother : forall Y cy, clients s !! Y = Some cy -> Y <> X ->
            socket cy <> h).
  { intros Y cy Hy Hne E. destruct (Hok Y cy Hy) as [(_ & _ & k' & Hk' & Hh' & _) _].
    rewrite E in Hk'. congruence. }
  unfold removeClient. destruct (clients s !! X) as [cx|] eqn:Hx.
  - destruct (Hok X cx Hx) as [(_ & _ & kx & Hkx & Hhx & _) _].
    assert (Hsock : forall Y cy, clients s !! Y = Some cy -> Y <> X ->
              socket cy <> socket cx).
    { intros Y cy Hy Hne E. destruct (Hok Y cy Hy) as [(_ & _ & k' & Hk' & Hh' & _) _].
      rewrite E in Hk'. congruence. }
    assert (Hkeep : forall Y cy,
              delete X (<[X:=with_connected false cx]> (clients s)) !! Y = Some cy ->
              clients s !! Y = Some cy /\ Y <> X).
    { intros Y cy. rewrite lookup_delete.
      destruct (decide (X = Y)) as [|Hne]; [discriminate|].
      rewrite lookup_insert_ne by assumption. auto. }
    destruct (destroyed _); intros Y cy Hy; cbn in Hy;
      apply Hkeep in Hy as [Hy Hne];
      destruct (Hok Y cy Hy) as [(Hi & Hc & k' & Hk' & Hh' & Hd') Hb];
      (split; [|exact Hb]); (split; [exact Hi|]); (split; [exact Hc|]);
      exists k'; cbn;
      rewrite ?list_lookup_alter_ne by (apply not_eq_sym, Hsock with Y; auto);
      (split; [exact Hk'|]); (split; [|exact Hh']);
      apply Hd', Hother with Y; auto.
  - intros Y cy Hy. destruct (Hok Y cy Hy) as [(Hi & Hc & k' & Hk' & Hh' & Hd') Hb].
    split; [|exact Hb]. split; [exact Hi|]. split; [exact Hc|]. exists k'.
    split; [exact Hk'|]. split; [|exact Hh'].
    apply Hd', Hother with Y; [exact Hy|]. intros ->. congruence.
Qed.

Lemma removeClient_registry_ok (X : N) (s : World) :
  registry_ok s -> registry_ok (removeClient X s).
Proof.
  intros Hok. destruct (clients s !! X) as [cx|] eqn:Hx.
  - destruct (Hok X cx Hx) as [(_ & _ & k & Hk & _ & Hh) _].
    apply (removeClient_registry_ok_but (socket cx) X s k); auto.
    now apply registry_ok_weaken.
  - now rewrite removeClient_absent.
Qed.

Section Registry.

Variable K IV : Buffer.
Variable bfo : JSON -> result Buffer.

Lemma broadcastToOthers_registry_ok (senderId : N) (data : JSON) (s : World) :
  registry_ok s -> registry_ok (broadcastToOthers senderId data s).
Proof.
  intros Hok.
  apply (broadcast_fold_spec senderId data (Object_keys (clients s)) s
           (Object_keys_NoDup _) Hok).
Qed.

Lemma handle_message_registry_ok (clientId : N) (text : string) (now : Z) (s s' : World) :
  handle_message K IV bfo clientId text now s = Ok s' ->
  registry_ok s -> registry_ok s'.
Proof.
  unfold handle_message. intros H Hok. revert H.
  destruct (parse text) as [message|]; [|discriminate]. cbn [bind].
  destruct (get message "type") as [type|]; [|discriminate]. cbn [bind].
  destruct (is_string type "ping").
  { intros [= <-]. now apply sendToClient_registry_ok. }
  destruct (is_string type "data").
  { destruct (get message "encrypted") as [encrypted|]; [|discriminate]. cbn [bind].
    destruct (get message "payload") as [payload|]; [|discriminate]. cbn [bind].
    destruct (truthy encrypted && truthy payload); [|now intros [= <-]].
    destruct (Buffer_from bfo payload) as [buf|]; [|discriminate]. cbn [bind].
    unfold decrypt. destruct (decipher K IV buf) as [decrypted|e]; cbn [foldl].
    - intros [= <-]. now apply broadcastToOthers_registry_ok, registry_ok_log.
    - intros [= <-]. now apply registry_ok_log. }
  destruct (is_string type "tunnel").
  { intros [= <-]. now apply sendToClient_registry_ok, registry_ok_log. }
  now intros [= <-].
Qed.

Lemma handleClientData_registry_ok (clientId : N) (data : Buffer) (now : Z) (s : World) :
  registry_ok s -> registry_ok (handleClientData K IV bfo clientId data now s).
Proof.
  intros Hok. unfold handleClientData.
  destruct (clients s !! clientId) as [c|] eqn:Hc; [|exact Hok].
  assert (Hok1 : registry_ok
            (set_clients (insert clientId
               (add_bytesReceived (N.of_nat (length data)) c)) s)).
  { eapply registry_ok_update; [exact Hok|exact Hc|reflexivity..]. }
  destruct (handle_message _ _ _ _ _ _ _) as [s'|e] eqn:E.
  - exact (handle_message_registry_ok _ _ _ _ _ E Hok1).
  - now apply registry_ok_log.
Qed.

Lemma stop_registry_ok (s : World) : registry_ok s -> registry_ok (stop s).
Proof.
  intros Hok. unfold stop.
  assert (H : forall ks s, registry_ok s ->
            registry_ok (foldl (fun s clientId => removeClient clientId s) s ks)).
  { induction ks as [|k ks IH]; intros s0 H0; cbn; [exact H0|].
    apply IH, removeClient_registry_ok, H0. }
  now apply H, registry_ok_log.
Qed.

Lemma handleConnection_registry_ok (addr : string) (p : N) (s : World) :
  registry_ok s ->
  registry_ok (handleConnection K IV (length (sockets s))
                 (set_sockets (fun l => l ++ [new_socket addr p]) s)).
Proof.
  intros Hok X cx. unfold handleConnection, session_ok. cbn.
  rewrite lookup_insert. destruct (decide (clientIdCounter s + 1 = X)) as [<-|Hne].
  - intros [= <-]. cbn. split; [|lia]. split; [reflexivity|]. split; [reflexivity|].
    eexists. rewrite !list_lookup_alter_eq, lookup_app_r, Nat.sub_diag by lia.
    cbn. split; [reflexivity|]. cbn. auto.
  - intros Hx. destruct (Hok X cx Hx) as [(Hi & Hc & k & Hk & Hd & Hh) Hb].
    split; [|lia]. split; [exact Hi|]. split; [exact Hc|]. exists k.
    assert (socket cx < length (sockets s))%nat by (eapply lookup_lt_Some; eassumption).
    rewrite !list_lookup_alter_ne by lia.
    rewrite lookup_app_l by assumption. auto.
Qed.

Lemma dispatch_registry_ok {uptime_t : Type} (ev : event uptime_t) (s : World) :
  registry_ok s -> registry_ok (dispatch K IV bfo ev s).
Proof.
  intros Hok. destruct ev; cbn [dispatch].
  - now apply handleConnection_registry_ok.
  - destruct (handlers _); [|exact Hok]. destruct (destroyed _); [exact Hok|].
    now apply handleClientData_registry_ok.
  - destruct (handlers _); [|exact Hok]. destruct (destroyed _); [exact Hok|].
    now apply removeClient_registry_ok, registry_ok_log.
  - unfold socket_at. cbn.
    destruct (sockets s !! sock) as [k|] eqn:Hk.
    + rewrite list_lookup_alter_eq, Hk. cbn.
      destruct (handlers k) as [X|] eqn:Hh.
      * apply (removeClient_registry_ok_but sock X _ (destroy k)).
        -- intros Y cy Hy. apply (registry_ok_but_destroy sock s Hok Y cy Hy).
        -- cbn. now rewrite list_lookup_alter_eq, Hk.
        -- exact Hh.
      * intros Y cy Hy.
        destruct (Hok Y cy Hy) as [(Hi & Hc & k' & Hk' & Hd & Hh') Hb].
        split; [|exact Hb]. split; [exact Hi|]. split; [exact Hc|]. exists k'. cbn.
        rewrite list_lookup_alter_ne by (intros ->; congruence). auto.
    + rewrite list_lookup_alter_eq, Hk. cbn.
      apply (registry_ok_ext s); auto. cbn.
      apply list_eq. intros i. rewrite list_lookup_alter.
      destruct (decide (sock = i)) as [<-|]; [now rewrite Hk|reflexivity].
  - unfold server_on_error. destruct (String.eqb code _); now repeat apply registry_ok_log.
  - rewrite print_stats_eq. now apply registry_ok_log.
  - unfold on_signal. apply (registry_ok_ext (stop (log Log_signal s))); auto.
    now apply stop_registry_ok, registry_ok_log.
  - destruct (exit_timer s); [|exact Hok]. now apply (registry_ok_ext s).
Qed.

Lemma reachable_registry_ok (s : World) : reachable K IV bfo s -> registry_ok s.
Proof.
  intros (uptime_t & p & h & evs & ->). unfold run.
  assert (H0 : registry_ok (VPNServer p h)).
  { intros X cx Hx. cbn in Hx. now rewrite lookup_empty in Hx. }
  revert H0. generalize (VPNServer p h) as s.
  induction evs as [|ev evs IH]; intros s H; cbn; [exact H|].
  apply IH. unfold step. destruct (exit_code s); [exact H|].
  now apply dispatch_registry_ok.
Qed.

End Registry.

(** ** The text of a relay frame *)

Lemma append_nil_l (s : string) : "" +:+ s = s.
Proof. reflexivity. Qed.

Lemma append_cons (c : ascii) (s1 s2 : string) :
  String c s1 +:+ s2 = String c (s1 +:+ s2).
Proof. reflexivity. Qed.

Lemma append_nil_r (s : string) : s +:+ "" = s.
Proof. induction s as [|c s IH]; [reflexivity|]. now rewrite append_cons, IH. Qed.

Lemma append_assoc (s1 s2 s3 : string) : (s1 +:+ s2) +:+ s3 = s1 +:+ (s2 +:+ s3).
Proof.
  induction s1 as [|c s1 IH]; [reflexivity|]. now rewrite !append_cons, IH.
Qed.

(** Hex digits are printed as they are inside a JSON string. *)
Lemma quote_char_hex (b : byte) :
  quote_char (Hex.hex_digit (Byte.to_N b / 16))
  = String (Hex.hex_digit (Byte.to_N b / 16)) EmptyString /\
  quote_char (Hex.hex_digit (Byte.to_N b mod 16))
  = String (Hex.hex_digit (Byte.to_N b mod 16)) EmptyString.
Proof. destruct b; vm_compute; split; reflexivity. Qed.

Lemma quote_to_hex (P : Buffer) :
  quote (Hex.to_hex P) = dquote +:+ Hex.to_hex P +:+ dquote.
Proof.
  unfold quote, dquote. rewrite append_cons, append_nil_l. f_equal.
  induction P as [|b P IH]; [reflexivity|].
  cbn [Hex.to_hex quote_chars]. destruct (quote_char_hex b) as [-> ->].
  now rewrite !append_cons, !append_nil_l, IH.
Qed.

(** What [sendToClient] writes for a relay message is [relay_text]. *)
Lemma relay_text_eq (A : N) (P : Buffer) :
  stringify (relay A P) +:+ NL = relay_text A P.
Proof.
  unfold relay_text.
  change (stringify (relay A P))
    with ("{" +:+ ((dquote +:+ "type" +:+ dquote) +:+ ":"
                   +:+ (dquote +:+ "relay" +:+ dquote) +:+ ","
                   +:+ ((dquote +:+ "fromClient" +:+ dquote) +:+ ":"
                        +:+ decimal (Z.of_N A) +:+ ","
                        +:+ ((dquote +:+ "data" +:+ dquote) +:+ ":"
                             +:+ quote (Hex.to_hex P)))) +:+ "}").
  rewrite quote_to_hex. unfold dquote, NL.
  repeat first [rewrite append_assoc | rewrite append_cons | rewrite append_nil_l].
  reflexivity.
Qed.

(** C5. In any world the server can reach, when the session registered as
    [A] sends a [data] message marked encrypted whose hex payload decrypts
    to [P], every other registered session (B, C, ...) has exactly one
    chunk appended to its socket, the relay message naming [A] and carrying
    the hex form of [P], and nothing is appended to the socket of [A].
    The chunk is given character by character, as [relay_text A P]: the
    object with type relay, fromClient [A] and data the hex form of [P],
    and the newline. *)
Theorem relay_reaches_everyone_but_sender
    (K IV : Buffer) (bfo : JSON -> result Buffer)
    (s : World) (A : N) (cA : clientInfo) (data : Buffer) (now : Z)
    (message : JSON) (type encrypted : option JSON) (payload : string) (P : Buffer) :
  reachable K IV bfo s ->
  clients s !! A = Some cA ->
  parse (Buffer_toString data) = Ok message ->
  get message "type" = Ok type ->
  is_string type "data" = true ->
  get message "encrypted" = Ok encrypted ->
  truthy encrypted = true ->
  get message "payload" = Ok (Some (JString payload)) ->
  payload <> ""%string ->
  decrypt K IV (Hex.from_hex payload) = (Some P, []) ->
  let s' := handleClientData K IV bfo A data now s in
  let relayed := relay_text A P in
  forall X cx, clients s !! X = Some cx ->
    written (socket_at s' (socket cx))
    = written (socket_at s (socket cx)) ++ (if decide (X = A) then [] else [relayed]).
Proof.
  intros Hreach HA Hp Ht Hty He Hte Hpl Hne Hdec s' relayed X cx Hx.
  pose proof (reachable_registry_ok K IV bfo s Hreach) as Hok.
  set (s1 := set_clients
               (insert A (add_bytesReceived (N.of_nat (length data)) cA)) s).
  set (s2 := log (Log_decrypted A P) s1).
  assert (Hok2 : registry_ok s2).
  { apply registry_ok_log. eapply registry_ok_update; [exact Hok|exact HA|reflexivity..]. }
  assert (Hs' : s' = broadcastToOthers A (relay A P) s2).
  { subst s'. unfold handleClientData, handle_message. rewrite HA, Hp. cbn [bind].
    rewrite Ht. cbn [bind].
    rewrite (is_string_other type "data" "ping" Hty) by discriminate.
    rewrite Hty, He. cbn [bind]. rewrite Hpl. cbn [bind].
    rewrite Hte. cbn [truthy andb].
    destruct (String.eqb payload "") eqn:E; [apply String.eqb_eq in E; contradiction|].
    cbn [negb Buffer_from bind]. rewrite Hdec. reflexivity. }
  set (cx2 := if decide (A = X) then add_bytesReceived (N.of_nat (length data)) cA else cx).
  assert (Hx2 : clients s2 !! X = Some cx2).
  { subst s2 s1 cx2. cbn. rewrite lookup_insert.
    destruct (decide (A = X)); [reflexivity|exact Hx]. }
  assert (Hsock : socket cx2 = socket cx).
  { subst cx2. destruct (decide (A = X)) as [<-|]; [|reflexivity]. cbn. congruence. }
  destruct (broadcast_fold_spec A (relay A P) (Object_keys (clients s2)) s2
              (Object_keys_NoDup _) Hok2) as (_ & _ & Hall).
  destruct (Hall X cx2 Hx2) as [_ Hw]. rewrite Hsock in Hw.
  rewrite Hs'. unfold broadcastToOthers. rewrite Hw.
  change (socket_at s2 (socket cx)) with (socket_at s (socket cx)).
  f_equal. rewrite relay_text_eq. fold relayed.
  destruct (decide (X = A)) as [->|HXA].
  - rewrite bool_decide_eq_false_2; [reflexivity|]. intros [_ H]. now apply H.
  - rewrite bool_decide_eq_true_2; [reflexivity|]. split; [|exact HXA].
    apply elem_of_Object_keys. rewrite Hx2. eauto.
Qed.

Lemma relay_reaches_everyone_but_sender_witness :
  let payload := "7fd12dafb7e9599d0b849ad8c2e3c21f"%string in
  let data := wire (data_message payload) in
  let hello := list_byte_of_string "hello" in
  let s' := handleClientData sample_key sample_iv sample_from_object 1 data 0
              three_clients in
  let relayed := relay_text 1 hello in
  written (socket_at s' 0) = written (socket_at three_clients 0) ++ [] /\
  written (socket_at s' 1) = written (socket_at three_clients 1) ++ [relayed] /\
  written (socket_at s' 2) = written (socket_at three_clients 2) ++ [relayed].
Proof.
  intros payload data hello.
  assert (H : reachable sample_key sample_iv sample_from_object three_clients).
  { exists unit, None, None. eexists. reflexivity. }
  assert (Hrelay : forall X cx, clients three_clients !! X = Some cx ->
            written (socket_at
                       (handleClientData sample_key sample_iv sample_from_object 1
                          data 0 three_clients) (socket cx))
            = written (socket_at three_clients (socket cx))
              ++ (if decide (X = 1) then [] else [relay_text 1 hello])).
  { eapply (relay_reaches_everyone_but_sender sample_key sample_iv sample_from_object
              three_clients 1 _ data 0%Z _ _ (Some (JBool true)) payload hello H).
    - vm_compute; reflexivity.
    - vm_compute; reflexivity.
    - reflexivity.
    - reflexivity.
    - reflexivity.
    - reflexivity.
    - reflexivity.
    - discriminate.
    - vm_compute; reflexivity. }
  pose proof (Hrelay 1 _ ltac:(vm_compute; reflexivity)) as H1.
  pose proof (Hrelay 2 _ ltac:(vm_compute; reflexivity)) as H2.
  pose proof (Hrelay 3 _ ltac:(vm_compute; reflexivity)) as H3.
  exact (conj H1 (conj H2 H3)).
Defined.

(* ================================================================== *)
(** * Part III. Further properties of the server                       *)
(* ================================================================== *)

(** ** [removeClient] *)

Lemma destroy_destroyed (k : Socket) : destroyed k = true -> destroy k = k.
Proof. destruct k as [a p d w h]. cbn. now intros ->. Qed.

Lemma alter_destroy_destroyed (l : list Socket) (h : nat) :
  destroyed (default (destroy (new_socket "" 0)) (l !! h)) = true ->
  alter destroy h l = l.
Proof.
  intros Hd. apply list_eq. intros i. rewrite list_lookup_alter.
  destruct (decide (h = i)) as [<-|]; [|reflexivity].
  destruct (l !! h) as [k|]; [|reflexivity]. cbn in *.
  now rewrite destroy_destroyed.
Qed.

Lemma removeClient_eq (clientId : N) (client : clientInfo) (s : World) :
  clients s !! clientId = Some client ->
  removeClient clientId s
  = set_clients (delete clientId) (socket_destroy (socket client) s).
Proof.
  intros Hc. unfold removeClient. rewrite Hc.
  destruct s as [p h m n l c t e]. unfold socket_at, socket_destroy, set_clients, set_sockets.
  cbn in *. destruct (destroyed _) eqn:Hd; cbn; f_equal.
  - apply map_eq. intros i. rewrite !lookup_delete.
    destruct (decide (clientId = i)); [reflexivity|]. now rewrite lookup_insert_ne.
  - symmetry. now apply alter_destroy_destroyed.
  - apply map_eq. intros i. rewrite !lookup_delete.
    destruct (decide (clientId = i)); [reflexivity|]. now rewrite lookup_insert_ne.
Qed.

(** X1. Removing a registered client deletes exactly its entry and destroys
    exactly its socket; every other session, every other socket, the
    console and the counter are kept. *)
Theorem removeClient_effect (clientId : N) (client : clientInfo) (s : World) :
  clients s !! clientId = Some client ->
  removeClient clientId s
  = set_clients (delete clientId) (socket_destroy (socket client) s).
Proof. apply removeClient_eq. Qed.

Lemma removeClient_effect_witness :
  exists client,
    clients three_clients !! 2 = Some client /\
    removeClient 2 three_clients
    = set_clients (delete 2) (socket_destroy (socket client) three_clients).
Proof.
  eexists. split; [vm_compute; reflexivity|].
  apply (removeClient_effect 2 _ three_clients). vm_compute; reflexivity.
Defined.

(** ** What each kind of chunk does *)

Section Chunks.

Variable K IV : Buffer.
Variable bfo : JSON -> result Buffer.

Lemma sendToClient_after_count (clientId : N) (client : clientInfo) (received : nat)
    (data : JSON) (s : World) :
  clients s !! clientId = Some client -> connected client = true ->
  sendToClient clientId data
    (set_clients (insert clientId (add_bytesReceived (N.of_nat received) client)) s)
  = replied clientId client received (stringify data +:+ NL) s.
Proof.
  intros Hc Hco. unfold sendToClient, replied. cbn [clients set_clients].
  rewrite lookup_insert_eq. cbn [connected add_bytesReceived]. rewrite Hco.
  destruct s as [p h m n l c t e]. unfold set_clients, socket_write, set_sockets. cbn.
  f_equal. apply insert_insert_eq.
Qed.

(** X2. A ping, whatever else it carries, is answered to its sender alone by
    a pong stamped with the clock of the server; the sender's counters
    grow by the sizes of the chunk and of the reply. *)
Theorem ping_is_answered_to_sender
    (clientId : N) (client : clientInfo) (data : Buffer) (now : Z) (s : World)
    (message : JSON) (type : option JSON) :
  clients s !! clientId = Some client ->
  connected client = true ->
  parse (Buffer_toString data) = Ok message ->
  get message "type" = Ok type ->
  is_string type "ping" = true ->
  handleClientData K IV bfo clientId data now s
  = replied clientId client (length data) (stringify (pong now) +:+ NL) s.
Proof.
  intros Hc Hco Hp Ht Hty.
  unfold handleClientData, handle_message. rewrite Hc, Hp. cbn [bind].
  rewrite Ht. cbn [bind]. rewrite Hty.
  now apply sendToClient_after_count.
Qed.

(** X3. A tunnel request is logged and answered to its sender alone with
    [tunnel_established]; no state of the session records the tunnel. *)
Theorem tunnel_request_is_acknowledged
    (clientId : N) (client : clientInfo) (data : Buffer) (now : Z) (s : World)
    (message : JSON) (type : option JSON) :
  clients s !! clientId = Some client ->
  connected client = true ->
  parse (Buffer_toString data) = Ok message ->
  get message "type" = Ok type ->
  is_string type "tunnel" = true ->
  handleClientData K IV bfo clientId data now s
  = replied clientId client (length data) (stringify tunnel_established +:+ NL)
      (log (Log_tunnel_request clientId) s).
Proof.
  intros Hc Hco Hp Ht Hty.
  unfold handleClientData, handle_message. rewrite Hc, Hp. cbn [bind].
  rewrite Ht. cbn [bind].
  rewrite (is_string_other type "tunnel" "ping" Hty) by discriminate.
  rewrite (is_string_other type "tunnel" "data" Hty) by discriminate.
  rewrite Hty.
  apply (sendToClient_after_count clientId client (length data) tunnel_established
           (log (Log_tunnel_request clientId) s) Hc Hco).
Qed.

(** X4. A chunk that is not one JSON text, or is the JSON text [null], is
    only counted and reported as raw data with its length. *)
Theorem unparsable_chunk_is_logged_as_raw
    (clientId : N) (client : clientInfo) (data : Buffer) (now : Z) (s : World) :
  clients s !! clientId = Some client ->
  (exists e, parse (Buffer_toString data) = Throw e) \/
  parse (Buffer_toString data) = Ok JNull ->
  handleClientData K IV bfo clientId data now s
  = log (Log_raw_data clientId (N.of_nat (length data)))
      (set_clients
         (insert clientId (add_bytesReceived (N.of_nat (length data)) client)) s).
Proof.
  intros Hc [[e Hp]|Hp]; unfold handleClientData, handle_message;
    rewrite Hc, Hp; reflexivity.
Qed.

(** X5. A JSON text that is not an object with [type] equal to [ping], [data]
    or [tunnel] (another type, no type, or a number, string, boolean or
    array) is only counted: nothing is written or printed. *)
Theorem unknown_message_is_ignored
    (clientId : N) (client : clientInfo) (data : Buffer) (now : Z) (s : World)
    (message : JSON) (type : option JSON) :
  clients s !! clientId = Some client ->
  parse (Buffer_toString data) = Ok message ->
  get message "type" = Ok type ->
  is_string type "ping" = false ->
  is_string type "data" = false ->
  is_string type "tunnel" = false ->
  handleClientData K IV bfo clientId data now s
  = set_clients
      (insert clientId (add_bytesReceived (N.of_nat (length data)) client)) s.
Proof.
  intros Hc Hp Ht H1 H2 H3.
  unfold handleClientData, handle_message. rewrite Hc, Hp. cbn [bind].
  rewrite Ht. cbn [bind]. now rewrite H1, H2, H3.
Qed.

(** X6. Once a client has been removed, chunks that still arrive for it, and
    frames still sent to it, change nothing. *)
Theorem removed_client_is_ignored (clientId : N) (data : Buffer) (now : Z)
    (reply : JSON) (s : World) :
  let s' := removeClient clientId s in
  handleClientData K IV bfo clientId data now s' = s' /\
  sendToClient clientId reply s' = s'.
Proof.
  intros s'. pose proof (removeClient_lookup clientId s) as H. fold s' in H.
  unfold handleClientData, sendToClient. now rewrite H.
Qed.

End Chunks.

Lemma ping_is_answered_to_sender_witness :
  exists client,
    clients three_clients !! 2 = Some client /\
    handleClientData sample_key sample_iv sample_from_object 2
      (wire (ping_message 1000)) 2000 three_clients
    = replied 2 client (length (wire (ping_message 1000)))
        (stringify (pong 2000) +:+ NL) three_clients.
Proof.
  eexists. split; [vm_compute; reflexivity|].
  eapply (ping_is_answered_to_sender sample_key sample_iv sample_from_object 2 _
            (wire (ping_message 1000)) 2000%Z three_clients).
  - vm_compute; reflexivity.
  - reflexivity.
  - vm_compute; reflexivity.
  - reflexivity.
  - reflexivity.
Defined.

Lemma tunnel_request_is_acknowledged_witness :
  exists client,
    clients three_clients !! 3 = Some client /\
    handleClientData sample_key sample_iv sample_from_object 3
      (wire tunnel_message) 0 three_clients
    = replied 3 client (length (wire tunnel_message))
        (stringify tunnel_established +:+ NL)
        (log (Log_tunnel_request 3) three_clients).
Proof.
  eexists. split; [vm_compute; reflexivity|].
  eapply (tunnel_request_is_acknowledged sample_key sample_iv sample_from_object 3 _
            (wire tunnel_message) 0%Z three_clients).
  - vm_compute; reflexivity.
  - reflexivity.
  - vm_compute; reflexivity.
  - reflexivity.
  - reflexivity.
Defined.

Lemma unparsable_chunk_is_logged_as_raw_witness :
  let data := take 10 (wire tunnel_message) in
  exists client,
    clients three_clients !! 1 = Some client /\
    handleClientData sample_key sample_iv sample_from_object 1 data 0 three_clients
    = log (Log_raw_data 1 10)
        (set_clients (insert 1 (add_bytesReceived 10 client)) three_clients).
Proof.
  intros data. eexists. split; [vm_compute; reflexivity|].
  apply (unparsable_chunk_is_logged_as_raw sample_key sample_iv sample_from_object 1 _
           data 0%Z three_clients).
  - vm_compute; reflexivity.
  - left. exists SyntaxError. vm_compute; reflexivity.
Defined.

Lemma unknown_message_is_ignored_witness :
  let data := wire (JObject [("type", JString "hello")]%string) in
  exists client,
    clients three_clients !! 1 = Some client /\
    handleClientData sample_key sample_iv sample_from_object 1 data 0 three_clients
    = set_clients
        (insert 1 (add_bytesReceived (N.of_nat (length data)) client)) three_clients.
Proof.
  intros data. eexists. split; [vm_compute; reflexivity|].
  eapply (unknown_message_is_ignored sample_key sample_iv sample_from_object 1 _
            data 0%Z three_clients).
  - vm_compute; reflexivity.
  - vm_compute; reflexivity.
  - reflexivity.
  - reflexivity.
  - reflexivity.
  - reflexivity.
Defined.

(** ** Shutting down *)

Lemma removeClient_clients (clientId : N) (s : World) :
  clients (removeClient clientId s) = delete clientId (clients s).
Proof.
  destruct (clients s !! clientId) as [c|] eqn:Hc.
  - now rewrite (removeClient_eq _ _ _ Hc).
  - now rewrite removeClient_absent, delete_id.
Qed.

Lemma removeClient_effect_console (clientId : N) (s : World) :
  console (removeClient clientId s) = console s.
Proof.
  unfold removeClient. destruct (clients s !! clientId) as [c|]; [|reflexivity].
  cbn. destruct (destroyed _); reflexivity.
Qed.

Lemma removeClient_destroys (clientId : N) (client : clientInfo) (s : World) :
  clients s !! clientId = Some client ->
  destroyed (socket_at (removeClient clientId s) (socket client)) = true.
Proof.
  intros Hc. rewrite (removeClient_eq _ _ _ Hc).
  rewrite socket_at_set_clients. unfold socket_at, socket_destroy. cbn.
  rewrite list_lookup_alter_eq. now destruct (sockets s !! socket client).
Qed.

Lemma destroyed_grows (s s' : World) (h : nat) :
  sockets_grow s s' -> destroyed (socket_at s h) = true ->
  destroyed (socket_at s' h) = true.
Proof.
  unfold sockets_grow, socket_at. intros Hg Hd.
  destruct (sockets s' !! h) as [k'|] eqn:Hk'; [|reflexivity].
  destruct (Forall2_lookup_r _ _ _ _ _ Hg Hk') as (k & Hk & _ & _ & _ & Hdd & _).
  rewrite Hk in Hd. cbn in *. auto.
Qed.

Lemma foldl_removeClient_lookup (ks : list N) (s : World) (X : N) :
  clients (foldl (fun s clientId => removeClient clientId s) s ks) !! X
  = if decide (X ∈ ks) then None else clients s !! X.
Proof.
  revert s. induction ks as [|k ks IH]; intros s; cbn [foldl].
  - rewrite decide_False; [reflexivity|]. intros H; inv H.
  - rewrite IH, removeClient_clients, lookup_delete.
    destruct (decide (X ∈ ks)) as [Hin|Hin].
    + rewrite decide_True; [reflexivity|]. now right.
    + destruct (decide (k = X)) as [->|Hne].
      * rewrite decide_True; [reflexivity|]. left.
      * rewrite decide_False; [reflexivity|].
        intros [->|H]%elem_of_cons; [now destruct Hne|contradiction].
Qed.

Lemma foldl_removeClient_destroys (ks : list N) (s : World) (X : N) (cx : clientInfo) :
  X ∈ ks -> clients s !! X = Some cx ->
  destroyed (socket_at (foldl (fun s clientId => removeClient clientId s) s ks)
               (socket cx)) = true.
Proof.
  revert s. induction ks as [|k ks IH]; intros s Hin Hx; [inv Hin|].
  cbn [foldl]. destruct (decide (k = X)) as [->|Hne].
  - eapply destroyed_grows; [|apply (removeClient_destroys _ _ _ Hx)].
    apply foldl_sockets_grow. intros; apply removeClient_grows.
  - apply IH.
    + apply elem_of_cons in Hin as [->|H]; [now destruct Hne|exact H].
    + now rewrite removeClient_clients, lookup_delete_ne.
Qed.

Lemma stop_spec (s : World) :
  clients (stop s) = ∅ /\
  forall X cx, clients s !! X = Some cx ->
    destroyed (socket_at (stop s) (socket cx)) = true.
Proof.
  unfold stop. split.
  - apply map_eq. intros X. rewrite foldl_removeClient_lookup, lookup_empty.
    destruct (decide _) as [|Hn]; [reflexivity|].
    destruct (clients s !! X) as [cx|] eqn:Hx; [|exact Hx].
    destruct Hn. apply elem_of_Object_keys. cbn. rewrite Hx. eauto.
  - intros X cx Hx. apply (foldl_removeClient_destroys _ _ X); [|exact Hx].
    apply elem_of_Object_keys. cbn. rewrite Hx. eauto.
Qed.

(** X7. [stop] empties the registry and leaves the socket of every session
    that was registered destroyed, whatever state the server was in. *)
Theorem stop_disconnects_everyone (s : World) :
  clients (stop s) = ∅ /\
  forall X cx, clients s !! X = Some cx ->
    destroyed (socket_at (stop s) (socket cx)) = true.
Proof. apply stop_spec. Qed.

Lemma stop_disconnects_everyone_witness :
  clients (stop three_clients) = ∅ /\
  destroyed (socket_at (stop three_clients) 0) = true /\
  destroyed (socket_at (stop three_clients) 2) = true.
Proof.
  destruct (stop_disconnects_everyone three_clients) as [H1 H2].
  split; [exact H1|]. split.
  - exact (H2 1 _ ltac:(vm_compute; reflexivity)).
  - exact (H2 3 _ ltac:(vm_compute; reflexivity)).
Defined.

Section Shutdown.

Variable K IV : Buffer.
Variable bfo : JSON -> result Buffer.

Lemma run_after_exit {uptime_t : Type} (evs : list (event uptime_t)) (s : World) :
  is_Some (exit_code s) -> run K IV bfo evs s = s.
Proof.
  intros [c Hc]. unfold run. induction evs as [|ev evs IH]; [reflexivity|].
  cbn [foldl]. unfold step at 2. now rewrite Hc.
Qed.

(** X8. A termination signal followed by the exit timer: every client is
    disconnected, the process exits with status 0, and nothing that the
    runtime delivers afterwards changes the world. *)
Theorem signal_shuts_down_gracefully {uptime_t : Type} (s : World)
    (evs : list (event uptime_t)) :
  exit_code s = None ->
  let s' := run (uptime_t:=uptime_t) K IV bfo [Signal; ExitTimer] s in
  exit_code s' = Some 0%Z /\
  clients s' = ∅ /\
  run K IV bfo evs s' = s'.
Proof.
  intros He s'.
  assert (Hs' : s' = process_exit 0 (on_signal s)).
  { subst s'. unfold run. cbn [foldl]. unfold step at 2. rewrite He. cbn [dispatch].
    unfold step, on_signal. cbn [exit_code set_exit_timer].
    rewrite (server_fields_exit_code _ _ (stop_server_fields _)). cbn [exit_code log].
    rewrite He. reflexivity. }
  rewrite Hs'. cbn. repeat split.
  - apply (stop_spec (log Log_signal s)).
  - now apply run_after_exit.
Qed.

End Shutdown.

Lemma signal_shuts_down_gracefully_witness :
  exit_code three_clients = None /\
  let s' := sample_run [Signal; ExitTimer] three_clients in
  exit_code s' = Some 0%Z /\
  clients s' = ∅ /\
  sample_run [Connection "10.0.0.9" 1; Signal] s' = s'.
Proof.
  split; [reflexivity|].
  destruct (signal_shuts_down_gracefully (uptime_t:=unit)
              sample_key sample_iv sample_from_object
              three_clients [Connection "10.0.0.9" 1; Signal] eq_refl)
    as (H1 & H2 & H4).
  exact (conj H1 (conj H2 H4)).
Defined.

(** ** Invariants of the event loop *)

(** X9. In every world the server can reach, each registered session carries
    the key it is registered under (between 1 and the counter), is marked
    connected, and owns a live socket whose handlers route to that key; no
    two sessions share a socket. *)
Theorem registry_stays_consistent (K IV : Buffer) (bfo : JSON -> result Buffer)
    {uptime_t : Type} (p : option N) (h : option string)
    (evs : list (event uptime_t)) :
  let s := run K IV bfo evs (VPNServer p h) in
  registry_ok s /\
  forall X Y cx cy, clients s !! X = Some cx -> clients s !! Y = Some cy ->
    socket cx = socket cy -> X = Y.
Proof.
  intros s.
  assert (Hok : registry_ok s).
  { apply (reachable_registry_ok K IV bfo). now exists uptime_t, p, h, evs. }
  split; [exact Hok|]. intros X Y cx cy. apply registry_ok_distinct, Hok.
Qed.

Lemma sockets_extend_refl (s : World) : sockets_extend s s.
Proof. intros i k Hk. exists k. split; [exact Hk|apply socket_grows_refl]. Qed.

Lemma sockets_extend_trans (s1 s2 s3 : World) :
  sockets_extend s1 s2 -> sockets_extend s2 s3 -> sockets_extend s1 s3.
Proof.
  intros H12 H23 i k Hk. destruct (H12 i k Hk) as (k2 & Hk2 & Hg2).
  destruct (H23 i k2 Hk2) as (k3 & Hk3 & Hg3).
  exists k3. split; [exact Hk3|]. eapply socket_grows_trans; eassumption.
Qed.

Lemma sockets_grow_extend (s s' : World) : sockets_grow s s' -> sockets_extend s s'.
Proof. intros Hg i k Hk. apply (Forall2_lookup_l _ _ _ _ _ Hg Hk). Qed.

Section Extend.

Variable K IV : Buffer.
Variable bfo : JSON -> result Buffer.

Lemma step_extends {uptime_t : Type} (ev : event uptime_t) (s : World) :
  sockets_extend s (step K IV bfo s ev).
Proof.
  unfold step. destruct (exit_code s); [apply sockets_extend_refl|].
  destruct ev as [addr p| | | | | | |];
    try (apply sockets_grow_extend, dispatch_grows; discriminate).
  intros i k Hk. exists k. split; [|apply socket_grows_refl].
  assert (i < length (sockets s))%nat by (eapply lookup_lt_Some; eassumption).
  cbn. rewrite !list_lookup_alter_ne by lia. now rewrite lookup_app_l.
Qed.

(** X10. Whatever the runtime delivers next, a socket keeps its handle, its
    peer address and the identity its handlers route to; what was written
    to it stays written, in order, with later chunks appended after it;
    and once destroyed it stays destroyed. *)
Theorem sockets_only_grow {uptime_t : Type} (evs : list (event uptime_t)) (s : World) :
  sockets_extend s (run K IV bfo evs s).
Proof.
  unfold run. revert s. induction evs as [|ev evs IH]; intros s; cbn [foldl].
  - apply sockets_extend_refl.
  - eapply sockets_extend_trans; [apply (step_extends ev)|apply IH].
Qed.

End Extend.

(** ** Sessions and byte counters *)

Lemma sessions_kept_refl (s : World) : sessions_kept (fun _ => 0) s s.
Proof.
  intros Y. destruct (clients s !! Y) as [c|]; constructor.
  split; [repeat split|]. split; lia.
Qed.

Lemma sessions_kept_ext (r : N -> N) (s s' : World) :
  clients s' = clients s -> sessions_kept (fun _ => 0) s s'.
Proof.
  intros H Y. rewrite H. apply sessions_kept_refl.
Qed.

Lemma sessions_kept_trans (r1 r2 : N -> N) (s1 s2 s3 : World) :
  sessions_kept r1 s1 s2 -> sessions_kept r2 s2 s3 ->
  sessions_kept (fun Y => r1 Y + r2 Y) s1 s3.
Proof.
  intros H12 H23 Y. specialize (H12 Y). specialize (H23 Y).
  destruct H12 as [c1 c2 ((I1 & S1 & A1 & P1 & C1) & R1 & T1)|]; inv H23; constructor.
  match goal with H : _ /\ _ /\ _ |- _ => destruct H as ((I2 & S2 & A2 & P2 & C2) & R2 & T2) end.
  split; [repeat split; congruence|]. split; lia.
Qed.

Lemma sessions_kept_zero (r : N -> N) (s s' : World) :
  (forall Y, r Y = 0) -> sessions_kept r s s' -> sessions_kept (fun _ => 0) s s'.
Proof.
  intros Hr H Y. specialize (H Y). rewrite Hr in H. exact H.
Qed.

Lemma sendToClient_sessions_kept (clientId : N) (data : JSON) (s : World) :
  sessions_kept (fun _ => 0) s (sendToClient clientId data s).
Proof.
  unfold sendToClient. destruct (clients s !! clientId) as [c|] eqn:Hc;
    [|apply sessions_kept_refl].
  destruct (connected c); [|apply sessions_kept_refl].
  intros Y. cbn. rewrite lookup_insert.
  destruct (decide (clientId = Y)) as [<-|].
  - rewrite Hc. constructor. split; [repeat split|]. cbn. split; lia.
  - apply (sessions_kept_refl s Y).
Qed.

Lemma foldl_sessions_kept {A} (f : World -> A -> World) (l : list A) (s : World) :
  (forall s x, sessions_kept (fun _ => 0) s (f s x)) ->
  sessions_kept (fun _ => 0) s (foldl f s l).
Proof.
  intros H. revert s. induction l as [|x l IH]; intros s; cbn [foldl].
  - apply sessions_kept_refl.
  - eapply sessions_kept_zero; [|eapply sessions_kept_trans; [apply H|apply IH]].
    reflexivity.
Qed.

Section Sessions.

Variable K IV : Buffer.
Variable bfo : JSON -> result Buffer.

Lemma broadcastToOthers_sessions_kept (senderId : N) (data : JSON) (s : World) :
  sessions_kept (fun _ => 0) s (broadcastToOthers senderId data s).
Proof.
  unfold broadcastToOthers. apply foldl_sessions_kept. intros s' k.
  destruct (decide _); [apply sendToClient_sessions_kept|apply sessions_kept_refl].
Qed.

Lemma handle_message_sessions_kept (clientId : N) (text : string) (now : Z) (s s' : World) :
  handle_message K IV bfo clientId text now s = Ok s' ->
  sessions_kept (fun _ => 0) s s'.
Proof.
  unfold handle_message.
  destruct (parse text) as [message|]; [|discriminate]. cbn [bind].
  destruct (get message "type") as [type|]; [|discriminate]. cbn [bind].
  destruct (is_string type "ping").
  { intros [= <-]. apply sendToClient_sessions_kept. }
  destruct (is_string type "data").
  { destruct (get message "encrypted") as [encrypted|]; [|discriminate]. cbn [bind].
    destruct (get message "payload") as [payload|]; [|discriminate]. cbn [bind].
    destruct (truthy encrypted && truthy payload);
      [|intros [= <-]; apply sessions_kept_refl].
    destruct (Buffer_from bfo payload) as [buf|]; [|discriminate]. cbn [bind].
    unfold decrypt. destruct (decipher K IV buf) as [decrypted|e]; cbn [foldl].
    - intros [= <-]. apply (broadcastToOthers_sessions_kept _ _ (log _ s)).
    - intros [= <-]. apply (sessions_kept_refl s). }
  destruct (is_string type "tunnel").
  { intros [= <-]. apply (sendToClient_sessions_kept _ _ (log _ s)). }
  intros [= <-]. apply sessions_kept_refl.
Qed.

(** X11. No chunk, whatever it contains, adds or removes a session or changes
    which socket, address or identity a session has.  It adds exactly its
    length to the [bytesReceived] of the session it came from and to no
    other, and no [bytesSent] goes down. *)
Theorem chunk_keeps_sessions (clientId : N) (data : Buffer) (now : Z) (s : World) :
  sessions_kept
    (fun Y => if decide (Y = clientId) then N.of_nat (length data) else 0)
    s (handleClientData K IV bfo clientId data now s).
Proof.
  unfold handleClientData. destruct (clients s !! clientId) as [c|] eqn:Hc.
  - set (s1 := set_clients _ s).
    assert (H1 : sessions_kept
              (fun Y => if decide (Y = clientId) then N.of_nat (length data) else 0)
              s s1).
    { intros Y. subst s1. cbn. rewrite lookup_insert.
      destruct (decide (clientId = Y)) as [<-|Hne].
      - rewrite Hc, decide_True by reflexivity. constructor.
        split; [repeat split|]. cbn. split; lia.
      - rewrite decide_False by congruence. apply (sessions_kept_refl s Y). }
    assert (H2 : forall s2, sessions_kept (fun _ => 0) s1 s2 ->
              sessions_kept
                (fun Y => if decide (Y = clientId) then N.of_nat (length data) else 0)
                s s2).
    { intros s2 H Y. pose proof (sessions_kept_trans _ _ _ _ _ H1 H Y) as HY.
      cbn in HY. now rewrite N.add_0_r in HY. }
    destruct (handle_message _ _ _ _ _ _ _) as [s'|e] eqn:E; apply H2.
    + exact (handle_message_sessions_kept _ _ _ _ _ E).
    + apply (sessions_kept_refl s1).
  - intros Y. pose proof (sessions_kept_refl s Y) as H.
    destruct (decide (Y = clientId)) as [->|]; [|exact H].
    rewrite Hc. constructor.
Qed.

End Sessions.

(** ** Ciphertext sizes *)

Section Sizes.

Import AES AES_facts Cipher Cipher_facts.

Variable ENCRYPTION_KEY : Buffer.
Variable ENCRYPTION_IV : Buffer.
Hypothesis key_length : length ENCRYPTION_KEY = 32%nat.
Hypothesis iv_length : length ENCRYPTION_IV = 16%nat.

(** X12. [encrypt] never throws; the ciphertext is whole blocks, one more than
    the whole blocks of the plaintext, so it is always longer than the
    plaintext, by 1 to 16 bytes. *)
Theorem ciphertext_is_whole_blocks (B : Buffer) :
  exists c, encrypt ENCRYPTION_KEY ENCRYPTION_IV B = Ok c /\
            length c = (16 * (length B / 16 + 1))%nat /\
            (length B < length c <= length B + 16)%nat.
Proof.
  rewrite (encrypt_eq ENCRYPTION_KEY ENCRYPTION_IV key_length iv_length B).
  eexists. split; [reflexivity|].
  set (n := (length B / 16)%nat).
  set (padded := _ ++ repeat _ _).
  pose proof (cbc_encrypt_whole (key_expansion ENCRYPTION_KEY) ENCRYPTION_IV
                (blocks n B ++ [padded])) as [Hw Hl].
  rewrite (concat_whole_length _ Hw), Hl, length_app, blocks_length. cbn [length].
  pose proof (Nat.div_mod_eq (length B) 16).
  pose proof (Nat.mod_upper_bound (length B) 16). fold n in H. lia.
Qed.

(** X13. A ciphertext that is empty or not a whole number of blocks is refused:
    [decrypt] returns null and reports a wrong final block length. *)
Theorem decrypt_rejects_partial_blocks (data : Buffer) :
  data = [] \/ (length data mod 16 <> 0)%nat ->
  decrypt ENCRYPTION_KEY ENCRYPTION_IV data
  = (None, [Error_decryption ERR_OSSL_WRONG_FINAL_BLOCK_LENGTH]).
Proof.
  intros H. unfold decrypt, decipher, createDecipheriv.
  rewrite (check_key_iv_ok _ _ key_length iv_length). cbn [bind].
  destruct data as [|x data]; [reflexivity|].
  destruct H as [H|H]; [discriminate|].
  unfold decipher_update. cbn [d_buf d_w d_prev d_held app].
  destruct (cbc_decrypt _ _ _) as [ps prev'].
  destruct (skipn _ (x :: data)) as [|y rest] eqn:E; [|reflexivity].
  exfalso. apply H.
  assert (Hlen : length (skipn (16 * (length (x :: data) / 16)) (x :: data)) = 0%nat)
    by now rewrite E.
  rewrite length_skipn in Hlen.
  pose proof (Nat.div_mod_eq (length (x :: data)) 16). lia.
Qed.

End Sizes.

Lemma ciphertext_is_whole_blocks_witness :
  exists c, encrypt sample_key sample_iv sample_block = Ok c /\
            length c = 32%nat /\ (16 < length c <= 32)%nat.
Proof.
  exact (ciphertext_is_whole_blocks sample_key sample_iv eq_refl eq_refl sample_block).
Defined.

Lemma decrypt_rejects_partial_blocks_witness :
  decrypt sample_key sample_iv (take 20 (sample_block ++ sample_block))
  = (None, [Error_decryption ERR_OSSL_WRONG_FINAL_BLOCK_LENGTH]).
Proof.
  apply (decrypt_rejects_partial_blocks sample_key sample_iv eq_refl eq_refl).
  right. discriminate.
Defined.

(** ** Hex strings *)

Module Hex_facts.
Import Hex.

Lemma hex_digit_value (n : N) : n < 16 -> hex_value (hex_digit n) = Some n.
Proof.
  intros H. destruct n as [|p]; [reflexivity|].
  do 5 (try (destruct p as [p|p|]; try reflexivity; try lia)).
Qed.

Lemma from_hex_to_hex (B : Buffer) : from_hex (to_hex B) = B.
Proof.
  induction B as [|b B IH]; [reflexivity|].
  cbn [to_hex from_hex]. pose proof (to_N_lt b) as Hb.
  assert (Byte.to_N b / 16 < 16) by (apply N.Div0.div_lt_upper_bound; lia).
  assert (Byte.to_N b mod 16 < 16) by (apply N.mod_upper_bound; lia).
  rewrite !hex_digit_value by assumption.
  rewrite <- N.div_mod by lia. now rewrite byte_of_to_N, IH.
Qed.

Lemma to_hex_length (B : Buffer) : String.length (to_hex B) = (2 * length B)%nat.
Proof. induction B as [|b B IH]; [reflexivity|]. cbn [to_hex String.length length]. lia. Qed.

Lemma to_hex_app (B1 B2 : Buffer) : to_hex (B1 ++ B2) = to_hex B1 +:+ to_hex B2.
Proof. induction B1 as [|b B1 IH]; [reflexivity|]. cbn. now rewrite IH. Qed.

(** A hex string followed by anything that does not start with two hex
    digits decodes to the bytes of the hex string alone. *)
Lemma from_hex_stops (B : Buffer) (s : string) :
  match s with
  | String c1 (String c2 _) => hex_value c1 = None \/ hex_value c2 = None
  | _ => True
  end ->
  from_hex (to_hex B +:+ s) = B.
Proof.
  intros Hs. induction B as [|b B IH].
  - destruct s as [|c1 [|c2 s]]; try reflexivity.
    change (from_hex (String c1 (String c2 s)) = []). cbn [from_hex].
    destruct Hs as [-> | ->]; [reflexivity|].
    now destruct (hex_value c1).
  - change (to_hex (b :: B) +:+ s)
      with (String (hex_digit (Byte.to_N b / 16))
              (String (hex_digit (Byte.to_N b mod 16)) (to_hex B +:+ s))).
    cbn [from_hex]. pose proof (to_N_lt b) as Hb.
    assert (Byte.to_N b / 16 < 16) by (apply N.Div0.div_lt_upper_bound; lia).
    assert (Byte.to_N b mod 16 < 16) by (apply N.mod_upper_bound; lia).
    rewrite !hex_digit_value by assumption.
    rewrite <- N.div_mod by lia. now rewrite byte_of_to_N, IH.
Qed.

End Hex_facts.

(** X14. Hex encoding loses nothing: decoding the hex form of a buffer gives
    the buffer back, the hex form has two characters per byte, and
    whatever follows it that does not start with two hex digits (an odd
    trailing digit, a newline, any other text) is ignored by the decoder. *)
Theorem hex_round_trip (B : Buffer) (s : string) :
  Hex.from_hex (Hex.to_hex B) = B /\
  String.length (Hex.to_hex B) = (2 * length B)%nat /\
  (match s with
   | String c1 (String c2 _) => Hex.hex_value c1 = None \/ Hex.hex_value c2 = None
   | _ => True
   end -> Hex.from_hex (Hex.to_hex B +:+ s) = B).
Proof.
  split; [apply Hex_facts.from_hex_to_hex|].
  split; [apply Hex_facts.to_hex_length|apply Hex_facts.from_hex_stops].
Qed.

Lemma hex_round_trip_witness :
  Hex.from_hex (Hex.to_hex sample_block) = sample_block /\
  String.length (Hex.to_hex sample_block) = 32%nat /\
  Hex.from_hex (Hex.to_hex sample_block +:+ "0zz") = sample_block.
Proof.
  destruct (hex_round_trip sample_block "0zz") as (H1 & H2 & H3).
  split; [exact H1|]. split; [exact H2|]. apply H3. right. reflexivity.
Defined.

(** ** The sent counter against what was written *)

Lemma sumN_app (l1 l2 : list N) : sumN (l1 ++ l2) = sumN l1 + sumN l2.
Proof.
  induction l1 as [|x l1 IH]; [reflexivity|].
  rewrite <- app_comm_cons, !sumN_cons, IH. lia.
Qed.

Lemma written_size_write (chunk : string) (k : Socket) :
  destroyed k = false ->
  written_size (write chunk k) = written_size k + N.of_nat (String.length chunk).
Proof.
  intros Hd. unfold write, written_size. rewrite Hd. cbn [written].
  rewrite fmap_app, sumN_app. rewrite fmap_cons, fmap_nil, sumN_cons.
  unfold sumN at 2. cbn [foldr]. lia.
Qed.

Section Accounting.

Variable K IV : Buffer.
Variable bfo : JSON -> result Buffer.

Local Abbreviation acct := (accounting_ok K IV).

Lemma accounting_ok_ext (s s' : World) :
  clients s' = clients s -> sockets s' = sockets s -> acct s -> acct s'.
Proof. intros Hc Hs H X cx k. rewrite Hc, Hs. apply H. Qed.

Lemma accounting_ok_received (X : N) (cx : clientInfo) (n : N) (s : World) :
  clients s !! X = Some cx -> acct s ->
  acct (set_clients (insert X (add_bytesReceived n cx)) s).
Proof.
  intros Hx H Y cy k. cbn. rewrite lookup_insert.
  destruct (decide (X = Y)) as [<-|]; [|apply H].
  intros [= <-]. cbn. now apply H.
Qed.

Lemma sendToClient_accounting (X : N) (data : JSON) (s : World) :
  registry_ok s -> acct s -> acct (sendToClient X data s).
Proof.
  intros Hok H. destruct (clients s !! X) as [cx|] eqn:Hx.
  2:{ unfold sendToClient. now rewrite Hx. }
  destruct (Hok X cx Hx) as [(_ & Hc & kx & Hkx & Hdx & _) _].
  rewrite (sendToClient_eq X cx data s Hx Hc).
  intros Y cy k. cbn. rewrite lookup_insert.
  destruct (decide (X = Y)) as [<-|Hne].
  - intros [= <-]. cbn. rewrite list_lookup_alter_eq, Hkx. cbn. intros [= <-].
    rewrite (written_size_write _ _ Hdx), (H X cx kx Hx Hkx). lia.
  - intros Hy. rewrite list_lookup_alter_ne; [now apply H|].
    intros E. apply Hne. exact (registry_ok_distinct s X Y cx cy Hok Hx Hy E).
Qed.

Lemma broadcastToOthers_accounting (senderId : N) (data : JSON) (s : World) :
  registry_ok s -> acct s -> acct (broadcastToOthers senderId data s).
Proof.
  unfold broadcastToOthers. generalize (Object_keys (clients s)) as ks.
  intros ks. revert s. induction ks as [|k ks IH]; intros s Hok H; cbn [foldl].
  - exact H.
  - destruct (decide (k ≠ senderId)).
    + apply IH; [now apply sendToClient_registry_ok|now apply sendToClient_accounting].
    + now apply IH.
Qed.

Lemma removeClient_accounting (X : N) (s : World) : acct s -> acct (removeClient X s).
Proof.
  intros H. destruct (clients s !! X) as [cx|] eqn:Hx.
  2:{ now rewrite removeClient_absent. }
  rewrite (removeClient_eq X cx s Hx).
  intros Y cy k. cbn. rewrite lookup_delete.
  destruct (decide (X = Y)); [discriminate|]. intros Hy.
  rewrite list_lookup_alter. destruct (decide (socket cx = socket cy)) as [E|].
  - rewrite E. destruct (sockets s !! socket cy) as [k0|] eqn:Hk0; [|discriminate].
    cbn. intros [= <-]. exact (H Y cy k0 Hy Hk0).
  - now apply H.
Qed.

Lemma handle_message_accounting (clientId : N) (text : string) (now : Z) (s s' : World) :
  handle_message K IV bfo clientId text now s = Ok s' ->
  registry_ok s -> acct s -> acct s'.
Proof.
  unfold handle_message. intros E Hok H. revert E.
  destruct (parse text) as [message|]; [|discriminate]. cbn [bind].
  destruct (get message "type") as [type|]; [|discriminate]. cbn [bind].
  destruct (is_string type "ping").
  { intros [= <-]. now apply sendToClient_accounting. }
  destruct (is_string type "data").
  { destruct (get message "encrypted") as [encrypted|]; [|discriminate]. cbn [bind].
    destruct (get message "payload") as [payload|]; [|discriminate]. cbn [bind].
    destruct (truthy encrypted && truthy payload); [|now intros [= <-]].
    destruct (Buffer_from bfo payload) as [buf|]; [|discriminate]. cbn [bind].
    unfold decrypt. destruct (decipher K IV buf) as [decrypted|e]; cbn [foldl].
    - intros [= <-].
      apply broadcastToOthers_accounting; [now apply registry_ok_log|].
      now apply (accounting_ok_ext s).
    - intros [= <-]. now apply (accounting_ok_ext s). }
  destruct (is_string type "tunnel").
  { intros [= <-].
    apply sendToClient_accounting; [now apply registry_ok_log|].
    now apply (accounting_ok_ext s). }
  now intros [= <-].
Qed.

Lemma handleClientData_accounting (clientId : N) (data : Buffer) (now : Z) (s : World) :
  registry_ok s -> acct s -> acct (handleClientData K IV bfo clientId data now s).
Proof.
  intros Hok H. unfold handleClientData.
  destruct (clients s !! clientId) as [c|] eqn:Hc; [|exact H].
  assert (Hok1 : registry_ok
            (set_clients (insert clientId
               (add_bytesReceived (N.of_nat (length data)) c)) s)).
  { eapply registry_ok_update; [exact Hok|exact Hc|reflexivity..]. }
  pose proof (accounting_ok_received clientId c (N.of_nat (length data)) s Hc H) as H1.
  destruct (handle_message _ _ _ _ _ _ _) as [s'|e] eqn:E.
  - exact (handle_message_accounting _ _ _ _ _ E Hok1 H1).
  - revert H1. now apply accounting_ok_ext.
Qed.

Lemma stop_accounting (s : World) : acct s -> acct (stop s).
Proof.
  intros H. unfold stop.
  assert (Hf : forall ks s, acct s ->
            acct (foldl (fun s clientId => removeClient clientId s) s ks)).
  { induction ks as [|k ks IH]; intros s0 H0; cbn; [exact H0|].
    apply IH, removeClient_accounting, H0. }
  apply Hf. now apply (accounting_ok_ext s).
Qed.

Lemma handleConnection_accounting (addr : string) (p : N) (s : World) :
  registry_ok s -> acct s ->
  acct (handleConnection K IV (length (sockets s))
          (set_sockets (fun l => l ++ [new_socket addr p]) s)).
Proof.
  intros Hok H X cx k. unfold handleConnection. cbn.
  rewrite lookup_insert. destruct (decide (clientIdCounter s + 1 = X)) as [<-|Hne].
  - intros [= <-]. cbn.
    rewrite !list_lookup_alter_eq, lookup_app_r, Nat.sub_diag by lia.
    cbn. intros [= <-]. cbn. unfold written_size. cbn. lia.
  - intros Hx. destruct (Hok X cx Hx) as [(_ & _ & k0 & Hk0 & _ & _) _].
    assert (socket cx < length (sockets s))%nat by (eapply lookup_lt_Some; eassumption).
    rewrite !list_lookup_alter_ne by lia.
    rewrite lookup_app_l by assumption. now apply H.
Qed.

Lemma dispatch_accounting {uptime_t : Type} (ev : event uptime_t) (s : World) :
  registry_ok s -> acct s -> acct (dispatch K IV bfo ev s).
Proof.
  intros Hok H. destruct ev as [addr p|sock data now|sock|sock msg|msg code|up| |];
    cbn [dispatch].
  - now apply handleConnection_accounting.
  - destruct (handlers _); [|exact H]. destruct (destroyed _); [exact H|].
    now apply handleClientData_accounting.
  - destruct (handlers _); [|exact H]. destruct (destroyed _); [exact H|].
    apply removeClient_accounting. now apply (accounting_ok_ext s).
  - assert (H1 : acct (socket_destroy sock s)).
    { intros X cx k. cbn. intros Hx. rewrite list_lookup_alter.
      destruct (decide (sock = socket cx)) as [->|]; [|now apply H].
      destruct (sockets s !! socket cx) as [k0|] eqn:Hk0; [|discriminate].
      cbn. intros [= <-]. exact (H X cx k0 Hx Hk0). }
    destruct (handlers _); [|exact H1].
    apply removeClient_accounting. now apply (accounting_ok_ext (socket_destroy sock s)).
  - unfold server_on_error. destruct (String.eqb code _); now apply (accounting_ok_ext s).
  - rewrite print_stats_eq. now apply (accounting_ok_ext s).
  - unfold on_signal. apply (accounting_ok_ext (stop (log Log_signal s))); auto.
    apply stop_accounting. now apply (accounting_ok_ext s).
  - destruct (exit_timer s); [|exact H]. now apply (accounting_ok_ext s).
Qed.

(** X15. In every world the server can reach, the [bytesSent] of a registered
    session is exactly the size of what was written to its socket after
    the welcome message; the welcome itself is never counted. *)
Theorem bytesSent_counts_all_but_welcome {uptime_t : Type}
    (p : option N) (h : option string) (evs : list (event uptime_t)) :
  accounting_ok K IV (run K IV bfo evs (VPNServer p h)).
Proof.
  unfold run.
  assert (H0 : registry_ok (VPNServer p h) /\ acct (VPNServer p h)).
  { split; intros X cx; cbn; rewrite lookup_empty; discriminate. }
  revert H0. generalize (VPNServer p h) as s.
  induction evs as [|ev evs IH]; intros s [Hok H]; cbn [foldl]; [exact H|].
  apply IH. unfold step. destruct (exit_code s); [now split|].
  split; [now apply dispatch_registry_ok|now apply dispatch_accounting].
Qed.

End Accounting.

(** ** Bookkeeping of a relay *)

(** X16. Under the conditions of a successful relay, the handler prints the
    decrypted line once, adds the chunk length to the sender's
    [bytesReceived] and the size of the relay frame to the [bytesSent] of
    every other session, and changes no other field of any session. *)
Theorem relay_bookkeeping
    (K IV : Buffer) (bfo : JSON -> result Buffer)
    (s : World) (A : N) (cA : clientInfo) (data : Buffer) (now : Z)
    (message : JSON) (type encrypted : option JSON) (payload : string) (P : Buffer) :
  reachable K IV bfo s ->
  clients s !! A = Some cA ->
  parse (Buffer_toString data) = Ok message ->
  get message "type" = Ok type ->
  is_string type "data" = true ->
  get message "encrypted" = Ok encrypted ->
  truthy encrypted = true ->
  get message "payload" = Ok (Some (JString payload)) ->
  payload <> ""%string ->
  decrypt K IV (Hex.from_hex payload) = (Some P, []) ->
  let s' := handleClientData K IV bfo A data now s in
  let size := N.of_nat (String.length (stringify (relay A P) +:+ NL)) in
  console s' = console s ++ [Log_decrypted A P] /\
  forall X cx, clients s !! X = Some cx ->
    clients s' !! X
    = Some (if decide (X = A) then add_bytesReceived (N.of_nat (length data)) cx
            else add_bytesSent size cx).
Proof.
  intros Hreach HA Hp Ht Hty He Hte Hpl Hne Hdec s' size.
  pose proof (reachable_registry_ok K IV bfo s Hreach) as Hok.
  set (s1 := set_clients
               (insert A (add_bytesReceived (N.of_nat (length data)) cA)) s).
  set (s2 := log (Log_decrypted A P) s1).
  assert (Hok2 : registry_ok s2).
  { apply registry_ok_log. eapply registry_ok_update; [exact Hok|exact HA|reflexivity..]. }
  assert (Hs' : s' = broadcastToOthers A (relay A P) s2).
  { subst s'. unfold handleClientData, handle_message. rewrite HA, Hp. cbn [bind].
    rewrite Ht. cbn [bind].
    rewrite (is_string_other type "data" "ping" Hty) by discriminate.
    rewrite Hty, He. cbn [bind]. rewrite Hpl. cbn [bind].
    rewrite Hte. cbn [truthy andb].
    destruct (String.eqb payload "") eqn:E; [apply String.eqb_eq in E; contradiction|].
    cbn [negb Buffer_from bind]. rewrite Hdec. reflexivity. }
  destruct (broadcast_fold_spec A (relay A P) (Object_keys (clients s2)) s2
              (Object_keys_NoDup _) Hok2) as (_ & Hcon & Hall).
  rewrite Hs'. unfold broadcastToOthers. split; [exact Hcon|].
  intros X cx Hx.
  set (cx2 := if decide (A = X) then add_bytesReceived (N.of_nat (length data)) cA else cx).
  assert (Hx2 : clients s2 !! X = Some cx2).
  { subst s2 s1 cx2. cbn. rewrite lookup_insert.
    destruct (decide (A = X)); [reflexivity|exact Hx]. }
  destruct (Hall X cx2 Hx2) as [Hc _]. rewrite Hc. f_equal. subst cx2.
  destruct (decide (X = A)) as [->|HXA].
  - rewrite bool_decide_eq_false_2 by (intros [_ H]; now apply H).
    rewrite decide_True by reflexivity. congruence.
  - rewrite bool_decide_eq_true_2.
    + now rewrite decide_False by congruence.
    + split; [|exact HXA]. apply elem_of_Object_keys. rewrite Hx2. eauto.
Qed.

Lemma relay_bookkeeping_witness :
  let payload := "7fd12dafb7e9599d0b849ad8c2e3c21f"%string in
  let data := wire (data_message payload) in
  let hello := list_byte_of_string "hello" in
  let s' := handleClientData sample_key sample_iv sample_from_object 1 data 0
              three_clients in
  console s' = console three_clients ++ [Log_decrypted 1 hello] /\
  (bytesSent <$> clients s' !! 1) = Some 0 /\
  (bytesSent <$> clients s' !! 2) = Some 52.
Proof.
  intros payload data hello.
  assert (H : reachable sample_key sample_iv sample_from_object three_clients).
  { exists unit, None, None. eexists. reflexivity. }
  set (s' := handleClientData sample_key sample_iv sample_from_object 1 data 0
               three_clients).
  assert (Hb : console s' = console three_clients ++ [Log_decrypted 1 hello] /\
    forall X cx, clients three_clients !! X = Some cx ->
      clients s' !! X
      = Some (if decide (X = 1)
              then add_bytesReceived (N.of_nat (length data)) cx
              else add_bytesSent
                     (N.of_nat (String.length (stringify (relay 1 hello) +:+ NL)))
                     cx)).
  { eapply (relay_bookkeeping sample_key sample_iv sample_from_object
              three_clients 1 _ data 0%Z _ _ (Some (JBool true)) payload hello H).
    - vm_compute; reflexivity.
    - vm_compute; reflexivity.
    - reflexivity.
    - reflexivity.
    - reflexivity.
    - reflexivity.
    - reflexivity.
    - discriminate.
    - vm_compute; reflexivity. }
  destruct Hb as [Hcon Hall]. split; [exact Hcon|].
  rewrite (Hall 1 _ ltac:(vm_compute; reflexivity)).
  rewrite (Hall 2 _ ltac:(vm_compute; reflexivity)).
  split; reflexivity.
Defined.

(* ================================================================== *)
(** * Part IV. The wire format                                         *)
(* ================================================================== *)

(** ** Strings *)

Lemma printable_app (s1 s2 : string) :
  printable (s1 +:+ s2) = printable s1 && printable s2.
Proof.
  induction s1 as [|c s1 IH]; [reflexivity|].
  rewrite append_cons. cbn [printable]. now rewrite IH, andb_assoc.
Qed.

(** An induction principle that reaches inside arrays and objects. *)
Lemma JSON_induction (P : JSON -> Prop) :
  P JNull ->
  (forall b, P (JBool b)) ->
  (forall m e, P (JNumber m e)) ->
  (forall s, P (JString s)) ->
  (forall elems, Forall P elems -> P (JArray elems)) ->
  (forall members, Forall (fun kv => P kv.2) members -> P (JObject members)) ->
  forall v, P v.
Proof.
  intros Hnull Hbool Hnum Hstr Harr Hobj.
  fix IH 1. intros [ |b|m e|s|elems|members].
  - exact Hnull.
  - apply Hbool.
  - apply Hnum.
  - apply Hstr.
  - apply Harr.
    refine ((fix go (l : list JSON) : Forall P l :=
               match l with
               | [] => _
               | x :: l' => _
               end) elems); constructor; [apply IH|apply go].
  - apply Hobj.
    refine ((fix go (l : list (string * JSON)) : Forall (fun kv => P kv.2) l :=
               match l with
               | [] => _
               | kv :: l' => _
               end) members); constructor; [apply IH|apply go].
Qed.

(** ** Scanning what [stringify] prints *)

Module Lexing.

Lemma num_step_stop (st : num_state) (a : num_acc) (c : ascii) :
  continues_number c = false -> num_step st a c = None.
Proof.
  unfold continues_number. intros H.
  repeat (apply orb_false_elim in H as [H ?]).
  unfold num_step. destruct st;
    repeat match goal with E : _ = false |- _ => rewrite E; clear E end;
    reflexivity.
Qed.

(** A number literal ends where a character that cannot continue it, or
    the end of the text, is met. *)
Lemma lex_number_end (st : num_state) (a : num_acc) (rest : string) :
  num_accepting st = true -> delimited rest ->
  lex_from (LNum st a) rest = (cons (num_token a)) <$> lex_from LStart rest.
Proof.
  intros Hacc Hd. destruct rest as [|c rest]; cbn [lex_from].
  - now rewrite Hacc.
  - cbn [lex_step]. cbn in Hd. rewrite (num_step_stop st a c Hd), Hacc.
    destruct (lex_start c) as [[m' toks]|]; [|reflexivity].
    destruct (lex_from m' rest); reflexivity.
Qed.

Lemma lex_from_step (m m' : lex_mode) (toks : list token) (c : ascii) (s : string) :
  lex_step m c = Some (m', toks) ->
  lex_from m (String c s) = (app toks) <$> lex_from m' s.
Proof.
  intros H. cbn [lex_from]. rewrite H. destruct (lex_from m' s); reflexivity.
Qed.

Lemma lex_from_skip (m m' : lex_mode) (c : ascii) (s : string) :
  lex_step m c = Some (m', []) -> lex_from m (String c s) = lex_from m' s.
Proof.
  intros H. rewrite (lex_from_step _ _ _ _ _ H). destruct (lex_from m' s); reflexivity.
Qed.

Lemma lex_uint_int (d : Decimal.uint) (a : num_acc) (rest : string) :
  lex_from (LNum NInt a) (NilEmpty.string_of_uint d +:+ rest)
  = lex_from (LNum NInt (set_mant a (uint_acc d (n_mant a)))) rest.
Proof.
  revert a.
  induction d as [|d IH|d IH|d IH|d IH|d IH|d IH|d IH|d IH|d IH|d IH]; intros a;
    cbn [NilEmpty.string_of_uint uint_acc]; rewrite ?append_cons, ?append_nil_l;
    [destruct a; reflexivity|..];
    lazymatch goal with
    | |- lex_from _ (String ?c ?s) = _ =>
        rewrite (lex_from_skip (LNum NInt a) (LNum NInt (push_int a (digit_value c)))
                   c s eq_refl);
        rewrite IH; reflexivity
    end.
Qed.

Lemma lex_uint_exp (d : Decimal.uint) (a : num_acc) (rest : string) :
  lex_from (LNum NExpDigits a) (NilEmpty.string_of_uint d +:+ rest)
  = lex_from (LNum NExpDigits (set_exp a (uint_acc d (n_exp a)))) rest.
Proof.
  revert a.
  induction d as [|d IH|d IH|d IH|d IH|d IH|d IH|d IH|d IH|d IH|d IH]; intros a;
    cbn [NilEmpty.string_of_uint uint_acc]; rewrite ?append_cons, ?append_nil_l;
    [destruct a; reflexivity|..];
    lazymatch goal with
    | |- lex_from _ (String ?c ?s) = _ =>
        rewrite (lex_from_skip (LNum NExpDigits a)
                   (LNum NExpDigits (push_exp a (digit_value c))) c s eq_refl);
        rewrite IH; reflexivity
    end.
Qed.

Lemma uint_acc_pos (d : Decimal.uint) (acc : positive) :
  uint_acc d (Z.pos acc) = Z.pos (Pos.of_uint_acc d acc).
Proof.
  revert acc. induction d; intros acc; cbn [uint_acc Pos.of_uint_acc];
    [reflexivity|..]; rewrite <- IHd; f_equal; lia.
Qed.

Lemma nzhead_not_D0 (d d' : Decimal.uint) : Decimal.nzhead d <> Decimal.D0 d'.
Proof. induction d; cbn; try discriminate. exact IHd. Qed.

(** The decimal digits of a positive number do not start with a zero. *)
Lemma to_uint_head (p : positive) :
  match Pos.to_uint p with
  | Decimal.Nil | Decimal.D0 _ => False
  | _ => True
  end.
Proof.
  pose proof (DecimalPos.Unsigned.to_of (Pos.to_uint p)) as H.
  rewrite DecimalPos.Unsigned.of_to in H. cbn [N.to_uint] in H.
  pose proof (DecimalPos.Unsigned.to_uint_nonnil p) as Hnil.
  pose proof (DecimalPos.Unsigned.to_uint_nonzero p) as Hz.
  destruct (Pos.to_uint p) as [|d| | | | | | | | | ]; try exact I; [congruence|].
  unfold Decimal.unorm in H. cbn [Decimal.nzhead] in H.
  destruct (Decimal.nzhead d) eqn:E; try discriminate H.
  - now destruct Hz.
  - now destruct (nzhead_not_D0 d u).
Qed.

(** Scanning the digits of a positive number, at the start of a literal
    and after a minus sign. *)
Lemma lex_pos (p : positive) (rest : string) :
  lex_from LStart (NilEmpty.string_of_uint (Pos.to_uint p) +:+ rest)
  = lex_from (LNum NInt (num_start false (Z.pos p))) rest /\
  lex_from (LNum NMinus (num_start true 0))
    (NilEmpty.string_of_uint (Pos.to_uint p) +:+ rest)
  = lex_from (LNum NInt (num_start true (Z.pos p))) rest /\
  forall a, n_exp a = 0%Z ->
    lex_from (LNum NExp a) (NilEmpty.string_of_uint (Pos.to_uint p) +:+ rest)
    = lex_from (LNum NExpDigits (set_exp a (Z.pos p))) rest /\
    lex_from (LNum NExpSign a) (NilEmpty.string_of_uint (Pos.to_uint p) +:+ rest)
    = lex_from (LNum NExpDigits (set_exp a (Z.pos p))) rest.
Proof.
  pose proof (DecimalPos.Unsigned.of_to p) as Hof.
  pose proof (to_uint_head p) as Hhead.
  destruct (Pos.to_uint p) as [|d|d|d|d|d|d|d|d|d|d]; try contradiction;
    cbn [Pos.of_uint] in Hof; injection Hof as Hof;
    cbn [NilEmpty.string_of_uint]; rewrite !append_cons;
    (split; [|split; [|intros a Ha; split]]);
    lazymatch goal with
    | |- lex_from LStart (String ?c ?s) = _ =>
        rewrite (lex_from_skip LStart (LNum NInt (num_start false (digit_value c)))
                   c s eq_refl);
        rewrite lex_uint_int; cbn [n_mant num_start]
    | |- lex_from (LNum NMinus ?a) (String ?c ?s) = _ =>
        rewrite (lex_from_skip (LNum NMinus a) (LNum NInt (push_int a (digit_value c)))
                   c s eq_refl);
        rewrite lex_uint_int; cbn [n_mant num_start push_int]
    | |- lex_from (LNum NExp ?a) (String ?c ?s) = _ =>
        rewrite (lex_from_skip (LNum NExp a)
                   (LNum NExpDigits (push_exp a (digit_value c))) c s eq_refl);
        rewrite lex_uint_exp; cbn [n_exp push_exp]; rewrite Ha
    | |- lex_from (LNum NExpSign ?a) (String ?c ?s) = _ =>
        rewrite (lex_from_skip (LNum NExpSign a)
                   (LNum NExpDigits (push_exp a (digit_value c))) c s eq_refl);
        rewrite lex_uint_exp; cbn [n_exp push_exp]; rewrite Ha
    end;
    lazymatch goal with
    | |- context [uint_acc d ?z] =>
        let k := eval vm_compute in z in
        change z with k; rewrite (uint_acc_pos d), Hof; reflexivity
    end.
Qed.

Lemma decimal_pos (p : positive) :
  decimal (Z.pos p) = NilEmpty.string_of_uint (Pos.to_uint p) /\
  decimal (Z.neg p) = String "-" (NilEmpty.string_of_uint (Pos.to_uint p)).
Proof.
  unfold decimal, NilZero.string_of_int, NilZero.string_of_uint. cbn [Z.to_int].
  pose proof (to_uint_head p) as H.
  destruct (Pos.to_uint p); try contradiction; split; reflexivity.
Qed.

Lemma lex_mantissa (m : Z) (rest : string) :
  exists st, (st = NZero \/ st = NInt) /\
    lex_from LStart (decimal m +:+ rest)
    = lex_from (LNum st (num_start (m <? 0)%Z (Z.abs m))) rest.
Proof.
  destruct m as [|p|p].
  - exists NZero. split; [now left|].
    change (decimal 0) with "0"%string. rewrite append_cons, append_nil_l.
    now rewrite (lex_from_skip LStart (LNum NZero (num_start false 0)) "0" rest eq_refl).
  - exists NInt. split; [now right|].
    destruct (decimal_pos p) as [-> _]. apply lex_pos.
  - exists NInt. split; [now right|].
    destruct (decimal_pos p) as [_ ->]. rewrite append_cons.
    rewrite (lex_from_skip LStart (LNum NMinus (num_start true 0)) "-" _ eq_refl).
    apply lex_pos.
Qed.

Lemma lex_exponent (e : Z) (st : num_state) (a : num_acc) (rest : string) :
  e <> 0%Z -> st = NZero \/ st = NInt -> n_exp a = 0%Z -> n_eneg a = false ->
  exists a', n_neg a' = n_neg a /\ n_mant a' = n_mant a /\ n_frac a' = n_frac a /\
             n_eneg a' = (e <? 0)%Z /\ n_exp a' = Z.abs e /\
    lex_from (LNum st a) ("e" +:+ decimal e +:+ rest)
    = lex_from (LNum NExpDigits a') rest.
Proof.
  intros He Hst Hexp Heneg. rewrite append_cons, append_nil_l.
  assert (Hstep : lex_step (LNum st a) "e" = Some (LNum NExp a, [])).
  { destruct Hst as [-> | ->]; reflexivity. }
  rewrite (lex_from_skip _ _ _ _ Hstep).
  destruct e as [|p|p]; [now destruct He| |].
  - destruct (decimal_pos p) as [-> _].
    destruct (lex_pos p rest) as (_ & _ & Hp). destruct (Hp a Hexp) as [-> _].
    exists (set_exp a (Z.pos p)). cbn. rewrite Heneg. repeat split.
  - destruct (decimal_pos p) as [_ ->]. rewrite append_cons.
    rewrite (lex_from_skip (LNum NExp a) (LNum NExpSign (set_eneg a)) "-" _ eq_refl).
    destruct (lex_pos p rest) as (_ & _ & Hp).
    destruct (Hp (set_eneg a) Hexp) as [_ ->].
    exists (set_exp (set_eneg a) (Z.pos p)). cbn. repeat split.
Qed.

(** Scanning a printed number gives back the number, provided it is
    followed by the end of the text or by a character that ends it. *)
Lemma lex_number (m e : Z) (rest : string) :
  delimited rest ->
  lex_from LStart (number_to_string m e +:+ rest)
  = cons (TNumber m e) <$> lex_from LStart rest.
Proof.
  intros Hd. unfold number_to_string.
  assert (Hsign : (if (m <? 0)%Z then (- Z.abs m)%Z else Z.abs m) = m).
  { destruct (Z.ltb_spec m 0); lia. }
  destruct (Z.eqb_spec e 0) as [->|He].
  - destruct (lex_mantissa m rest) as (st & Hst & ->).
    rewrite lex_number_end
      by (first [exact Hd|destruct Hst as [-> | ->]; reflexivity]).
    unfold num_token. cbn [n_neg n_mant n_eneg n_exp n_frac num_start].
    now rewrite Hsign.
  - rewrite !append_assoc.
    destruct (lex_mantissa m ("e" +:+ decimal e +:+ rest)) as (st & Hst & ->).
    destruct (lex_exponent e st (num_start (m <? 0)%Z (Z.abs m)) rest He Hst
                eq_refl eq_refl) as (a' & Hn & Hm & Hf & Hen & Hex & ->).
    rewrite lex_number_end by (first [exact Hd|reflexivity]).
    unfold num_token. rewrite Hn, Hm, Hf, Hen, Hex.
    cbn [n_neg n_mant n_frac num_start]. rewrite Hsign.
    do 3 f_equal. destruct (Z.ltb_spec e 0); lia.
Qed.

(** Inside a string literal, what [quote_char] prints for [c] is read
    back as [c]: a plain character, a two-character escape, or the six
    characters of a [\u] escape. *)
Lemma lex_quote_char (c : ascii) (acc : list ascii) (rest : string) :
  lex_from (LStr acc) (quote_char c +:+ rest) = lex_from (LStr (c :: acc)) rest.
Proof.
  destruct c as [[] [] [] [] [] [] [] []];
    match goal with
    | |- context [quote_char ?c] =>
        let s := eval vm_compute in (quote_char c) in
        change (quote_char c) with s
    end;
    rewrite ?append_cons, append_nil_l;
    repeat (erewrite lex_from_skip by reflexivity);
    reflexivity.
Qed.

Lemma string_of_list_ascii_snoc (l : list ascii) (c : ascii) (s : string) :
  string_of_list_ascii (l ++ [c]) +:+ s = string_of_list_ascii l +:+ String c s.
Proof.
  induction l as [|x l IH]; cbn [app string_of_list_ascii].
  - now rewrite append_cons, !append_nil_l.
  - now rewrite !append_cons, IH.
Qed.

Lemma lex_quote_chars (s : string) (acc : list ascii) (rest : string) :
  lex_from (LStr acc) (quote_chars s +:+ rest)
  = cons (TString (string_of_list_ascii (rev acc) +:+ s)) <$> lex_from LStart rest.
Proof.
  revert acc. induction s as [|c s IH]; intros acc; cbn [quote_chars].
  - rewrite append_cons, append_nil_l, append_nil_r.
    now rewrite (lex_from_step (LStr acc) LStart
                   [TString (string_of_list_ascii (rev acc))] "034" rest eq_refl).
  - rewrite append_assoc, lex_quote_char, IH. cbn [rev].
    now rewrite string_of_list_ascii_snoc.
Qed.

Lemma lex_quote (s rest : string) :
  lex_from LStart (quote s +:+ rest) = cons (TString s) <$> lex_from LStart rest.
Proof.
  unfold quote. rewrite append_cons.
  rewrite (lex_from_skip LStart (LStr []) "034" _ eq_refl).
  rewrite lex_quote_chars. cbn [rev string_of_list_ascii]. now rewrite append_nil_l.
Qed.

Lemma lex_null (rest : string) :
  lex_from LStart ("null" +:+ rest) = cons TNull <$> lex_from LStart rest.
Proof.
  rewrite !append_cons, append_nil_l.
  do 3 (erewrite lex_from_skip by reflexivity).
  now erewrite lex_from_step by reflexivity.
Qed.

Lemma lex_true (rest : string) :
  lex_from LStart ("true" +:+ rest) = cons TTrue <$> lex_from LStart rest.
Proof.
  rewrite !append_cons, append_nil_l.
  do 3 (erewrite lex_from_skip by reflexivity).
  now erewrite lex_from_step by reflexivity.
Qed.

Lemma lex_false (rest : string) :
  lex_from LStart ("false" +:+ rest) = cons TFalse <$> lex_from LStart rest.
Proof.
  rewrite !append_cons, append_nil_l.
  do 4 (erewrite lex_from_skip by reflexivity).
  now erewrite lex_from_step by reflexivity.
Qed.

(** The printer and the token sequence, array by array and object by
    object. *)
Lemma stringify_array (elems : list JSON) :
  stringify (JArray elems) = "[" +:+ join_values (map stringify elems) +:+ "]".
Proof.
  change (stringify (JArray elems))
    with ("[" +:+
          (fix items (l : list JSON) : string :=
             match l with
             | [] => ""
             | [x] => stringify x
             | x :: l' => stringify x +:+ "," +:+ items l'
             end) elems +:+ "]").
  do 2 f_equal. induction elems as [|x [|y l] IH]; [reflexivity..|].
  cbn [map join_values] in *. now rewrite <- IH.
Qed.

Lemma stringify_object (members : list (string * JSON)) :
  stringify (JObject members)
  = "{" +:+ join_values (map member_text members) +:+ "}".
Proof.
  change (stringify (JObject members))
    with ("{" +:+
          (fix items (l : list (string * JSON)) : string :=
             match l with
             | [] => ""
             | [(k, x)] => quote k +:+ ":" +:+ stringify x
             | (k, x) :: l' => quote k +:+ ":" +:+ stringify x +:+ "," +:+ items l'
             end) members +:+ "}").
  do 2 f_equal. induction members as [|[k x] [|y l] IH]; [reflexivity..|].
  cbn [map join_values] in *. rewrite <- IH. unfold member_text. cbn [fst snd].
  now rewrite !append_assoc.
Qed.

Lemma tokens_array (elems : list JSON) :
  tokens (JArray elems) = TLBracket :: join_tokens (map tokens elems) ++ [TRBracket].
Proof.
  cbn [tokens]. do 2 f_equal.
  induction elems as [|x [|y l] IH]; [reflexivity..|].
  cbn [map join_tokens] in *. now rewrite <- IH.
Qed.

Lemma tokens_object (members : list (string * JSON)) :
  tokens (JObject members)
  = TLBrace :: join_tokens (map member_tokens members) ++ [TRBrace].
Proof.
  cbn [tokens]. do 2 f_equal.
  induction members as [|[k x] [|y l] IH]; [reflexivity..|].
  cbn [map join_tokens] in *. now rewrite <- IH.
Qed.

Lemma fmap_app_app (t1 t2 : list token) (r : option (list token)) :
  app t1 <$> (app t2 <$> r) = app (t1 ++ t2) <$> r.
Proof. destruct r; cbn; [now rewrite app_assoc|reflexivity]. Qed.

Lemma lex_join (items : list (string * list token)) (close : ascii) (t : token)
    (rest : string) :
  Forall (fun it => scans it.1 it.2) items ->
  continues_number close = false ->
  lex_start close = Some (LStart, [t]) ->
  lex_from LStart (join_values (map fst items) +:+ String close rest)
  = app (join_tokens (map snd items) ++ [t]) <$> lex_from LStart rest.
Proof.
  intros Hall Hc Ht.
  assert (Hclose : lex_from LStart (String close rest)
                   = app [t] <$> lex_from LStart rest)
    by exact (lex_from_step LStart LStart [t] close rest Ht).
  induction Hall as [|[text toks] l Hx Hl IH]; cbn [map join_values join_tokens fst snd].
  - now rewrite append_nil_l.
  - cbn [fst snd] in Hx. destruct l as [|y l].
    + cbn [map]. rewrite (Hx (String close rest) Hc), Hclose. apply fmap_app_app.
    + cbn [map] in *. rewrite !append_assoc, append_cons, append_nil_l.
      rewrite Hx by reflexivity.
      rewrite (lex_from_step LStart LStart [TComma] "," _ eq_refl), IH.
      rewrite !fmap_app_app. f_equal. f_equal. now rewrite <- !app_assoc.
Qed.

Lemma scans_member (k : string) (x : JSON) :
  scans (stringify x) (tokens x) -> scans (member_text (k, x)) (member_tokens (k, x)).
Proof.
  intros Hx rest Hd. unfold member_text, member_tokens. cbn [fst snd].
  rewrite !append_assoc, lex_quote, append_cons, append_nil_l.
  rewrite (lex_from_step LStart LStart [TColon] ":" _ eq_refl), (Hx rest Hd).
  destruct (lex_from LStart rest); reflexivity.
Qed.

(** The scanner reads the text of a value as the value's tokens. *)
Lemma lex_stringify (v : JSON) : scans (stringify v) (tokens v).
Proof.
  induction v as [|b|m e|s|elems IH|members IH] using JSON_induction;
    intros rest Hd.
  - change (stringify JNull) with "null"%string. rewrite lex_null.
    destruct (lex_from LStart rest); reflexivity.
  - destruct b.
    + change (stringify (JBool true)) with "true"%string. rewrite lex_true.
      destruct (lex_from LStart rest); reflexivity.
    + change (stringify (JBool false)) with "false"%string. rewrite lex_false.
      destruct (lex_from LStart rest); reflexivity.
  - change (stringify (JNumber m e)) with (number_to_string m e).
    rewrite (lex_number m e rest Hd). destruct (lex_from LStart rest); reflexivity.
  - change (stringify (JString s)) with (quote s). rewrite lex_quote.
    destruct (lex_from LStart rest); reflexivity.
  - rewrite stringify_array, tokens_array, !append_assoc, !append_cons, !append_nil_l.
    rewrite (lex_from_step LStart LStart [TLBracket] "[" _ eq_refl).
    pose (items := map (fun v => (stringify v, tokens v)) elems).
    assert (Hfst : map stringify elems = map fst items)
      by (unfold items; rewrite map_map; reflexivity).
    assert (Hsnd : map tokens elems = map snd items)
      by (unfold items; rewrite map_map; reflexivity).
    rewrite Hfst, Hsnd, (lex_join items "]" TRBracket rest);
      [|unfold items; apply Forall_map; exact IH|reflexivity..].
    apply fmap_app_app.
  - rewrite stringify_object, tokens_object, !append_assoc, !append_cons, !append_nil_l.
    rewrite (lex_from_step LStart LStart [TLBrace] "{" _ eq_refl).
    pose (items := map (fun kv => (member_text kv, member_tokens kv)) members).
    assert (Hfst : map member_text members = map fst items)
      by (unfold items; rewrite map_map; reflexivity).
    assert (Hsnd : map member_tokens members = map snd items)
      by (unfold items; rewrite map_map; reflexivity).
    rewrite Hfst, Hsnd, (lex_join items "}" TRBrace rest);
      [|unfold items; apply Forall_map;
        eapply Forall_impl; [exact IH|intros [k x] Hx; exact (scans_member k x Hx)]
       |reflexivity..].
    apply fmap_app_app.
Qed.

End Lexing.

(** ** Parsing the tokens of a value *)

Module Parsing.

Lemma parse_tokens_step (e e' : expect) (stack stack' : list frame) (t : token)
    (ts : list token) :
  parse_step e stack t = Some (e', stack') ->
  parse_tokens e stack (t :: ts) = parse_tokens e' stack' ts.
Proof. intros H. cbn [parse_tokens]. now rewrite H. Qed.

Lemma parses_atom (t : token) (v : JSON) :
  (forall stack, parse_value t stack = deliver v stack) ->
  t <> TRBracket ->
  parses [t] v.
Proof.
  intros Hv Ht e stack ts [-> | ->]; cbn [app parse_tokens].
  - cbn [parse_step]. rewrite Hv. now destruct (deliver v stack) as [[]|].
  - assert (H : parse_step PValueOrEnd stack t = parse_value t stack)
      by (destruct t; try reflexivity; congruence).
    rewrite H, Hv. now destruct (deliver v stack) as [[]|].
Qed.

Lemma parse_elems (l : list JSON) (x : JSON) :
  Forall (fun v => parses (tokens v) v) (x :: l) ->
  forall es e stack ts, e = PValue \/ e = PValueOrEnd ->
    parse_tokens e (FArray es :: stack)
      (join_tokens (map tokens (x :: l)) ++ TRBracket :: ts)
    = match deliver (JArray (rev es ++ x :: l)) stack with
      | Some (e', stack') => parse_tokens e' stack' ts
      | None => None
      end.
Proof.
  revert x. induction l as [|y l IH]; intros x Hall es e stack ts He;
    inversion Hall as [|? ? Hx Hl]; subst.
  - cbn [map join_tokens]. rewrite (Hx e _ _ He). cbn [deliver].
    rewrite (parse_tokens_step PCommaOrEnd _ _ _ TRBracket ts eq_refl)
      || (cbn [parse_tokens parse_step close_array]).
    cbn [rev]. reflexivity.
  - change (join_tokens (map tokens (x :: y :: l)))
      with (tokens x ++ TComma :: join_tokens (map tokens (y :: l))).
    rewrite <- app_assoc. rewrite (Hx e _ _ He).
    cbn [deliver]. rewrite <- ?app_comm_cons.
    cbn [parse_tokens parse_step].
    rewrite (IH y Hl (x :: es) PValue stack ts (or_introl eq_refl)).
    cbn [rev]. now rewrite <- app_assoc.
Qed.

Lemma parse_members (l : list (string * JSON)) (kx : string * JSON) :
  Forall (fun kv => parses (tokens kv.2) kv.2) (kx :: l) ->
  forall ms e stack ts, e = PKeyOrEnd \/ e = PKey ->
    parse_tokens e (FObject ms None :: stack)
      (join_tokens (map member_tokens (kx :: l)) ++ TRBrace :: ts)
    = match deliver (JObject (rev ms ++ kx :: l)) stack with
      | Some (e', stack') => parse_tokens e' stack' ts
      | None => None
      end.
Proof.
  revert kx. induction l as [|y l IH]; intros [k x] Hall ms e stack ts He;
    inversion Hall as [|? ? Hx Hl]; subst; cbn [fst snd] in Hx.
  - cbn [map join_tokens]. unfold member_tokens. cbn [fst snd].
    rewrite <- ?app_comm_cons.
    assert (Hk : parse_step e (FObject ms None :: stack) (TString k)
                 = Some (PColon, FObject ms (Some k) :: stack))
      by (destruct He as [-> | ->]; reflexivity).
    rewrite (parse_tokens_step _ _ _ _ _ _ Hk).
    rewrite (parse_tokens_step PColon PValue _ _ TColon _ eq_refl).
    rewrite (Hx PValue _ _ (or_introl eq_refl)). cbn [deliver].
    cbn [parse_tokens parse_step close_object rev]. reflexivity.
  - change (join_tokens (map member_tokens ((k, x) :: y :: l)))
      with ((TString k :: TColon :: tokens x)
            ++ TComma :: join_tokens (map member_tokens (y :: l))).
    rewrite <- app_assoc, <- ?app_comm_cons.
    assert (Hk : parse_step e (FObject ms None :: stack) (TString k)
                 = Some (PColon, FObject ms (Some k) :: stack))
      by (destruct He as [-> | ->]; reflexivity).
    rewrite (parse_tokens_step _ _ _ _ _ _ Hk).
    rewrite (parse_tokens_step PColon PValue _ _ TColon _ eq_refl).
    rewrite (Hx PValue _ _ (or_introl eq_refl)). cbn [deliver].
    rewrite <- ?app_comm_cons. cbn [parse_tokens parse_step].
    rewrite (IH y Hl ((k, x) :: ms) PKey stack ts (or_intror eq_refl)).
    cbn [rev]. now rewrite <- app_assoc.
Qed.

(** The parser rebuilds a value from its tokens. *)
Lemma parse_tokens_tokens (v : JSON) : parses (tokens v) v.
Proof.
  induction v as [|b|m e|s|elems IH|members IH] using JSON_induction.
  - now apply parses_atom.
  - destruct b; now apply parses_atom.
  - now apply parses_atom.
  - now apply parses_atom.
  - intros e stack ts He. rewrite Lexing.tokens_array, <- ?app_comm_cons, <- app_assoc.
    assert (Hopen : parse_step e stack TLBracket = Some (PValueOrEnd, FArray [] :: stack))
      by (destruct He as [-> | ->]; reflexivity).
    rewrite (parse_tokens_step _ _ _ _ _ _ Hopen). cbn [app].
    destruct elems as [|x l].
    + reflexivity.
    + exact (parse_elems l x IH [] PValueOrEnd stack ts (or_intror eq_refl)).
  - intros e stack ts He. rewrite Lexing.tokens_object, <- ?app_comm_cons, <- app_assoc.
    assert (Hopen : parse_step e stack TLBrace = Some (PKeyOrEnd, FObject [] None :: stack))
      by (destruct He as [-> | ->]; reflexivity).
    rewrite (parse_tokens_step _ _ _ _ _ _ Hopen). cbn [app].
    destruct members as [|kx l].
    + reflexivity.
    + exact (parse_members l kx IH [] PKeyOrEnd stack ts (or_introl eq_refl)).
Qed.

End Parsing.

(** ** What the printer never prints *)

Module Printing.

Lemma printable_uint (d : Decimal.uint) : printable (NilEmpty.string_of_uint d) = true.
Proof. induction d; cbn [NilEmpty.string_of_uint printable]; auto. Qed.

Lemma printable_decimal (z : Z) : printable (decimal z) = true.
Proof.
  unfold decimal, NilZero.string_of_int, NilZero.string_of_uint.
  destruct (Z.to_int z) as [d|d]; destruct d; cbn [printable];
    rewrite ?printable_uint; try reflexivity;
    cbn [NilEmpty.string_of_uint printable]; now rewrite ?printable_uint.
Qed.

Lemma printable_quote_char (c : ascii) : printable (quote_char c) = true.
Proof. destruct c as [[] [] [] [] [] [] [] []]; vm_compute; reflexivity. Qed.

Lemma printable_quote (s : string) : printable (quote s) = true.
Proof.
  unfold quote. cbn [printable]. change (negb (N_of_ascii "034" <? 32)) with true.
  cbn [andb]. induction s as [|c s IH]; cbn [quote_chars]; [reflexivity|].
  now rewrite printable_app, printable_quote_char, IH.
Qed.

Lemma printable_join (l : list string) :
  Forall (fun s => printable s = true) l -> printable (join_values l) = true.
Proof.
  induction 1 as [|x l Hx Hl IH]; [reflexivity|].
  destruct l as [|y l]; [exact Hx|].
  change (join_values (x :: y :: l)) with (x +:+ "," +:+ join_values (y :: l)).
  now rewrite !printable_app, Hx, IH.
Qed.

Lemma printable_stringify (v : JSON) : printable (stringify v) = true.
Proof.
  induction v as [|b|m e|s|elems IH|members IH] using JSON_induction.
  - reflexivity.
  - now destruct b.
  - change (stringify (JNumber m e)) with (number_to_string m e).
    unfold number_to_string. destruct (e =? 0)%Z.
    + apply printable_decimal.
    + now rewrite !printable_app, !printable_decimal.
  - apply printable_quote.
  - rewrite Lexing.stringify_array, !printable_app, printable_join; [reflexivity|].
    now apply Forall_map.
  - rewrite Lexing.stringify_object, !printable_app, printable_join; [reflexivity|].
    apply Forall_map. eapply Forall_impl; [exact IH|].
    intros [k x] Hx. unfold member_text. cbn [fst snd] in *.
    now rewrite !printable_app, printable_quote, Hx.
Qed.

End Printing.

Lemma parse_printed (v : JSON) (rest : string) :
  delimited rest -> lex_from LStart rest = Some [] ->
  parse (stringify v +:+ rest) = Ok v.
Proof.
  intros Hd Hrest. unfold parse, lex.
  rewrite (Lexing.lex_stringify v rest Hd), Hrest. cbn [fmap option_fmap option_map].
  rewrite (Parsing.parse_tokens_tokens v PValue [] [] (or_introl eq_refl)).
  reflexivity.
Qed.

Lemma parse_line (v : JSON) : parse (stringify v) = Ok v.
Proof. rewrite <- (append_nil_r (stringify v)) at 1. now apply parse_printed. Qed.

Lemma parse_frame (v : JSON) : parse (stringify v +:+ NL) = Ok v.
Proof. now apply parse_printed. Qed.

Lemma ascii_text_to_hex (B : Buffer) : ascii_text (Hex.to_hex B) = true.
Proof.
  induction B as [|b B IH]; [reflexivity|].
  cbn [Hex.to_hex ascii_text]. rewrite IH. now destruct b.
Qed.

(** The messages that the server and the client build are plain, while
    the identities and the clock readings stay below 2^53. *)
Lemma messages_are_plain (K IV P : Buffer) (A : N) (now : Z) :
  (Z.of_N A < 2 ^ 53)%Z -> (Z.abs now < 2 ^ 53)%Z ->
  plain (welcome K IV A) = true /\
  plain (pong now) = true /\
  plain (relay A P) = true /\
  plain tunnel_established = true /\
  plain Client.tunnel_request = true /\
  plain (Client.ping_packet now) = true /\
  plain (Client.data_packet P) = true.
Proof.
  intros HA Hnow.
  assert (H1 : (Z.abs (Z.of_N A) <? 2 ^ 53)%Z = true) by (apply Z.ltb_lt; lia).
  assert (H2 : (Z.abs now <? 2 ^ 53)%Z = true) by (apply Z.ltb_lt; lia).
  unfold welcome, pong, relay, tunnel_established, Client.tunnel_request,
    Client.ping_packet, Client.data_packet, JInt.
  cbn -[Z.pow Z.ltb Z.abs Hex.to_hex ascii_text].
  rewrite H1, H2, !ascii_text_to_hex. repeat split.
Qed.

(** X17. Reading back what was printed: for a value whose numbers are
    integers below 2^53, whose strings and keys are ASCII text and whose
    objects have distinct keys, none an array index, [JSON.parse] returns
    the value that [JSON.stringify] printed,
    also when the text is followed by the newline that ends a frame.  The
    messages that [sendMessage] and [sendToClient] write are of this kind,
    so each is decoded by the receiver as the message that was sent. *)
Theorem parse_stringify (v : JSON) :
  plain v = true ->
  parse (stringify v) = Ok v /\ parse (stringify v +:+ NL) = Ok v.
Proof. intros _. split; [apply parse_line|apply parse_frame]. Qed.

Lemma parse_stringify_witness :
  let message := relay 1 (list_byte_of_string "hello") in
  plain message = true /\
  parse (stringify message) = Ok message /\
  parse (stringify message +:+ NL) = Ok message.
Proof.
  intros message. split; [reflexivity|].
  exact (parse_stringify message eq_refl).
Defined.

(* ================================================================== *)
(** * Part V. The client                                               *)
(* ================================================================== *)

Module Client_facts.
Import Client.

(** ** Lines *)

Lemma split_nonempty (s : string) : split s <> [].
Proof.
  induction s as [|c s IH]; cbn [split]; [discriminate|].
  destruct (Ascii.eqb c "010"); [discriminate|].
  destruct (split s); discriminate.
Qed.

Lemma last_cons_nonempty (x : string) (l : list string) :
  l <> [] -> List.last (x :: l) EmptyString = List.last l EmptyString.
Proof. destruct l; [congruence|reflexivity]. Qed.

Lemma removelast_cons_nonempty (x : string) (l : list string) :
  l <> [] -> removelast (x :: l) = x :: removelast l.
Proof. destruct l; [congruence|reflexivity]. Qed.

Lemma last_app_nonempty (l l' : list string) :
  l' <> [] -> List.last (l ++ l') EmptyString = List.last l' EmptyString.
Proof.
  intros Hne. induction l as [|x l IH]; [reflexivity|].
  cbn [app]. rewrite last_cons_nonempty; [exact IH|].
  destruct l; [exact Hne|discriminate].
Qed.

(** Splitting a text that is continued: the complete lines stay, and the
    last, incomplete one is continued. *)
Lemma split_app (a b : string) :
  split (a +:+ b)
  = removelast (split a) ++ split (List.last (split a) EmptyString +:+ b).
Proof.
  induction a as [|c a IH].
  - cbn [split removelast List.last app]. now rewrite !append_nil_l.
  - rewrite append_cons. cbn [split]. destruct (Ascii.eqb c "010") eqn:Hc.
    + rewrite IH, removelast_cons_nonempty, last_cons_nonempty
        by apply split_nonempty.
      reflexivity.
    + rewrite IH. pose proof (split_nonempty a) as Hne.
      destruct (split a) as [|x [|y r]]; [congruence|..].
      * cbn [removelast List.last app]. rewrite append_cons. cbn [split].
        rewrite Hc. reflexivity.
      * change (removelast (x :: y :: r)) with (x :: removelast (y :: r)).
        change (removelast (String c x :: y :: r))
          with (String c x :: removelast (y :: r)).
        reflexivity.
Qed.

(** A line without control characters, followed by a newline, is split
    off as it is. *)
Lemma split_line (s rest : string) :
  printable s = true -> split (s +:+ String "010" rest) = s :: split rest.
Proof.
  induction s as [|c s IH]; intros Hp.
  - now rewrite append_nil_l.
  - cbn [printable] in Hp. apply andb_prop in Hp as [Hc Hs].
    rewrite append_cons. cbn [split]. rewrite (IH Hs).
    replace (Ascii.eqb c "010") with false; [reflexivity|].
    symmetry. apply Ascii.eqb_neq. intros ->. discriminate Hc.
Qed.

Lemma trim_start_visible (c : ascii) (s : string) :
  is_space c = false -> (N_of_ascii c <? 128) = true ->
  trim_start (String c s) = String c s.
Proof.
  intros Hc Ha. apply N.ltb_lt in Ha.
  assert (Hk : forall k, 128 <= k -> (N_of_ascii c =? k) = false)
    by (intros k Hle; apply N.eqb_neq; lia).
  cbn [trim_start]. rewrite Hc. destruct s as [|b s2]; [reflexivity|].
  unfold is_space2. rewrite Hk by lia. cbn [andb].
  destruct s2 as [|d s3]; [reflexivity|].
  unfold is_space3. cbv zeta. rewrite !Hk by lia. reflexivity.
Qed.

Lemma trim_visible (c : ascii) (s : string) :
  is_space c = false -> (N_of_ascii c <? 128) = true ->
  String.eqb (trim (String c s)) "" = false.
Proof.
  intros Hc Ha. unfold trim. rewrite (trim_start_visible c s Hc Ha).
  change (trim_end (String c s))
    with (match trim_start (String c s) with
          | EmptyString => EmptyString
          | String _ _ => String c (trim_end s)
          end).
  now rewrite (trim_start_visible c s Hc Ha).
Qed.

(** What [stringify] prints starts with a visible character. *)
Lemma stringify_visible (v : JSON) : String.eqb (trim (stringify v)) "" = false.
Proof.
  destruct v as [|[]|m e|s|elems|members]; try (now apply trim_visible).
  change (stringify (JNumber m e)) with (number_to_string m e).
  unfold number_to_string.
  assert (H : forall rest, String.eqb (trim (decimal m +:+ rest)) "" = false).
  { intros rest. unfold decimal, NilZero.string_of_int, NilZero.string_of_uint.
    destruct (Z.to_int m) as [d|d]; destruct d;
      rewrite ?append_cons; now apply trim_visible. }
  destruct (e =? 0)%Z; [|apply H].
  rewrite <- (append_nil_r (decimal m)). apply H.
Qed.

(** ** What [handleMessage] leaves alone *)

Ltac by_cases :=
  repeat first
    [ reflexivity
    | progress cbn
    | match goal with
      | |- context [match ?x with _ => _ end] => destruct x
      | |- context [if ?x then _ else _] => destruct x
      end ].

Section Handling.

Variable Buffer_from_object : JSON -> result Buffer.

Lemma handleMessage_set_buffer (message : JSON) (now : Z) (b : string) (w : World) :
  handleMessage Buffer_from_object message now (set_buffer b w)
  = (set_buffer b (handleMessage Buffer_from_object message now w).1,
     (handleMessage Buffer_from_object message now w).2).
Proof.
  unfold handleMessage, and_then, value, effect, pure, sendMessage. by_cases.
Qed.

Lemma handleMessage_add_bytesReceived (message : JSON) (now : Z) (n : N) (w : World) :
  handleMessage Buffer_from_object message now (add_bytesReceived n w)
  = (add_bytesReceived n (handleMessage Buffer_from_object message now w).1,
     (handleMessage Buffer_from_object message now w).2).
Proof.
  unfold handleMessage, and_then, value, effect, pure, sendMessage. by_cases.
Qed.

Lemma try_handleMessage_set_buffer (now : Z) (b : string) (w : World) (m : JSON) :
  try_handleMessage Buffer_from_object now (set_buffer b w) m
  = set_buffer b (try_handleMessage Buffer_from_object now w m).
Proof.
  unfold try_handleMessage. rewrite handleMessage_set_buffer.
  now destruct (handleMessage Buffer_from_object m now w) as [w' [|e]].
Qed.

Lemma try_handleMessage_add_bytesReceived (now : Z) (n : N) (w : World) (m : JSON) :
  try_handleMessage Buffer_from_object now (add_bytesReceived n w) m
  = add_bytesReceived n (try_handleMessage Buffer_from_object now w m).
Proof.
  unfold try_handleMessage. rewrite handleMessage_add_bytesReceived.
  now destruct (handleMessage Buffer_from_object m now w) as [w' [|e]].
Qed.

Lemma on_lines_set_buffer (now : Z) (b : string) (lines : list string) (w : World) :
  foldl (on_line Buffer_from_object now) (set_buffer b w) lines
  = set_buffer b (foldl (on_line Buffer_from_object now) w lines).
Proof.
  revert w. induction lines as [|line lines IH]; intros w; [reflexivity|].
  cbn [foldl]. rewrite <- IH. f_equal. unfold on_line.
  destruct (String.eqb (trim line) ""); [reflexivity|].
  destruct (parse line); [apply try_handleMessage_set_buffer|reflexivity].
Qed.

Lemma on_lines_add_bytesReceived (now : Z) (n : N) (lines : list string) (w : World) :
  foldl (on_line Buffer_from_object now) (add_bytesReceived n w) lines
  = add_bytesReceived n (foldl (on_line Buffer_from_object now) w lines).
Proof.
  revert w. induction lines as [|line lines IH]; intros w; [reflexivity|].
  cbn [foldl]. rewrite <- IH. f_equal. unfold on_line.
  destruct (String.eqb (trim line) ""); [reflexivity|].
  destruct (parse line); [apply try_handleMessage_add_bytesReceived|reflexivity].
Qed.

(** The ['data'] handler, with the bookkeeping moved outside the loop. *)
Lemma on_data_eq (data : Buffer) (now : Z) (w : World) :
  on_data Buffer_from_object data now w
  = let lines := split (buffer w +:+ Buffer_toString data) in
    add_bytesReceived (N.of_nat (length data))
      (set_buffer (List.last lines EmptyString)
         (foldl (on_line Buffer_from_object now) w (removelast lines))).
Proof.
  unfold on_data, pop. cbn [buffer add_bytesReceived set_buffer].
  cbv zeta. rewrite <- on_lines_set_buffer, <- on_lines_add_bytesReceived.
  reflexivity.
Qed.

End Handling.

Lemma Buffer_toString_app (a b : Buffer) :
  Buffer_toString (a ++ b) = Buffer_toString a +:+ Buffer_toString b.
Proof.
  unfold Buffer_toString, string_of_list_byte.
  induction a as [|x a IH]; cbn [app map string_of_list_ascii].
  - now rewrite append_nil_l.
  - now rewrite append_cons, IH.
Qed.

End Client_facts.

(** X18. A frame is one line.  What [JSON.stringify] prints contains no
    control character, so the only newline of a frame
    [JSON.stringify(message) + '\n'] is its last character, whatever
    strings the message carries: the receiver's [split] cuts exactly there,
    and a relayed payload cannot forge or break a frame. *)
Theorem frame_is_one_line (message : JSON) (rest : string) :
  printable (stringify message) = true /\
  Client.split ((stringify message +:+ NL) +:+ rest)
  = stringify message :: Client.split rest.
Proof.
  split; [apply Printing.printable_stringify|].
  unfold NL. rewrite append_assoc, append_cons, append_nil_l.
  apply Client_facts.split_line, Printing.printable_stringify.
Qed.

(** X19. The client reassembles what the transport cut: handling a chunk
    and then the next one (the clock reading the same) leaves the client
    as handling both in one chunk does, wherever the cut falls (inside a
    frame, between frames, inside several).  Every received message is so
    handled once, complete and in order.  The bytes are ASCII, as
    everything the server writes is. *)
Theorem client_reassembles_chunks
    (Buffer_from_object : JSON -> result Buffer)
    (d1 d2 : Buffer) (now : Z) (w : Client.World) :
  Client.ascii_only (d1 ++ d2) = true ->
  Client.on_data Buffer_from_object d2 now
    (Client.on_data Buffer_from_object d1 now w)
  = Client.on_data Buffer_from_object (d1 ++ d2) now w.
Proof.
  intros _. rewrite !Client_facts.on_data_eq. cbv zeta.
  cbn [Client.buffer Client.add_bytesReceived Client.set_buffer].
  rewrite Client_facts.Buffer_toString_app, <- append_assoc.
  rewrite (Client_facts.split_app (Client.buffer w +:+ Buffer_toString d1)).
  set (lines1 := Client.split (Client.buffer w +:+ Buffer_toString d1)).
  set (lines2 := Client.split (List.last lines1 EmptyString +:+ Buffer_toString d2)).
  assert (Hne : lines2 <> []) by apply Client_facts.split_nonempty.
  rewrite removelast_app, Client_facts.last_app_nonempty, foldl_app by exact Hne.
  rewrite Client_facts.on_lines_add_bytesReceived, Client_facts.on_lines_set_buffer.
  unfold Client.add_bytesReceived, Client.set_buffer. cbn.
  f_equal. rewrite length_app. lia.
Qed.

Module Frames.
Import Client.

Lemma Buffer_toString_wire (m : JSON) : Buffer_toString (wire m) = stringify m +:+ NL.
Proof. apply string_of_list_byte_of_string. Qed.

(** The text of a chunk of whole frames is split into the frames' texts,
    followed by an empty incomplete line. *)
Lemma split_frames (ms : list JSON) :
  split (Buffer_toString (concat (map wire ms))) = map stringify ms ++ [EmptyString].
Proof.
  induction ms as [|m ms IH]; [reflexivity|].
  cbn [map concat app]. rewrite Client_facts.Buffer_toString_app, Buffer_toString_wire.
  unfold NL. rewrite append_assoc, append_cons, append_nil_l.
  rewrite Client_facts.split_line by apply Printing.printable_stringify.
  now rewrite IH.
Qed.

Lemma set_buffer_same (w : World) : set_buffer (buffer w) w = w.
Proof. now destruct w. Qed.

Lemma on_lines_stringify (Buffer_from_object : JSON -> result Buffer) (now : Z)
    (ms : list JSON) (w : World) :
  foldl (on_line Buffer_from_object now) w (map stringify ms)
  = foldl (try_handleMessage Buffer_from_object now) w ms.
Proof.
  revert w. induction ms as [|m ms IH]; intros w; [reflexivity|].
  cbn [map foldl]. rewrite <- IH. f_equal. unfold on_line.
  rewrite Client_facts.stringify_visible.
  now rewrite parse_line.
Qed.

Lemma on_data_frames (Buffer_from_object : JSON -> result Buffer)
    (ms : list JSON) (now : Z) (w : World) :
  buffer w = EmptyString ->
  on_data Buffer_from_object (concat (map wire ms)) now w
  = add_bytesReceived (N.of_nat (length (concat (map wire ms))))
      (foldl (try_handleMessage Buffer_from_object now) w ms).
Proof.
  intros Hb. rewrite Client_facts.on_data_eq. cbv zeta.
  rewrite Hb, append_nil_l, split_frames.
  assert (Hw : set_buffer EmptyString w = w)
    by (rewrite <- Hb; apply set_buffer_same).
  rewrite removelast_last, List.last_last, <- Client_facts.on_lines_set_buffer, Hw.
  now rewrite on_lines_stringify.
Qed.

Lemma on_data_frame (Buffer_from_object : JSON -> result Buffer)
    (m : JSON) (now : Z) (w : World) :
  buffer w = EmptyString ->
  on_data Buffer_from_object (wire m) now w
  = add_bytesReceived (N.of_nat (length (wire m)))
      (try_handleMessage Buffer_from_object now w m).
Proof.
  intros Hb. pose proof (on_data_frames Buffer_from_object [m] now w Hb) as H.
  cbn [map concat foldl] in H. now rewrite app_nil_r in H.
Qed.

Lemma try_handleMessage_buffer (Buffer_from_object : JSON -> result Buffer)
    (now : Z) (w : World) (m : JSON) :
  buffer (try_handleMessage Buffer_from_object now w m) = buffer w.
Proof.
  rewrite <- (set_buffer_same w) at 1.
  now rewrite Client_facts.try_handleMessage_set_buffer.
Qed.

End Frames.


(** ** The client and the server together *)

Module Together.
Import Client.

Section Keys.

Variables K IV : Buffer.
Variable bfo : JSON -> result Buffer.

Lemma handleMessage_welcome (id : N) (now : Z) (w : World) (k : Socket) :
  connected w = true -> socket w = Some k ->
  handleMessage bfo (welcome K IV id) now w
  = (add_bytesSent (N.of_nat (String.length (stringify tunnel_request +:+ NL)))
       (set_socket (Some (write (stringify tunnel_request +:+ NL) k))
          (log Log_encryption_initialized
             (set_encryptionIV (Some IV)
                (set_encryptionKey (Some K)
                   (log (Log_server_message (Some (JString "Connected to VPN Server")))
                      (log (Log_client_id (Some (JInt (Z.of_N id))))
                         (set_clientId (Some (JInt (Z.of_N id))) w))))))),
     Ok tt).
Proof.
  intros Hc Hs. unfold handleMessage, and_then, value, effect, sendMessage.
  cbn. rewrite !Hex_facts.from_hex_to_hex, Hc, Hs. reflexivity.
Qed.

Lemma handleMessage_tunnel_established (now : Z) (w : World) :
  handleMessage bfo tunnel_established now w
  = (log Log_type_messages (log Log_tunnel_established w), Ok tt).
Proof. reflexivity. Qed.

Lemma handleMessage_relay (A : N) (P : Buffer) (now : Z) (w : World) :
  handleMessage bfo (relay A P) now w
  = (log (Log_data P) (log (Log_relayed_from (Some (JInt (Z.of_N A)))) w), Ok tt).
Proof.
  unfold handleMessage, and_then, value, effect. cbn.
  now rewrite Hex_facts.from_hex_to_hex.
Qed.

Lemma sendEncryptedData_connected (text : string) (w : World) (k : Socket)
    (encrypted : Buffer) :
  encryptionKey w = Some K -> encryptionIV w = Some IV ->
  connected w = true -> socket w = Some k ->
  cipher_text K IV (list_byte_of_string text) = Ok encrypted ->
  sendEncryptedData text w
  = (log (Log_sent_encrypted (N.of_nat (length encrypted)))
       (add_bytesSent
          (N.of_nat (String.length (stringify (data_packet encrypted) +:+ NL)))
          (set_socket (Some (write (stringify (data_packet encrypted) +:+ NL) k)) w)),
     Ok tt).
Proof.
  intros Hk Hi Hc Hs He.
  unfold sendEncryptedData, and_then, encrypt, effect, sendMessage.
  rewrite Hk, Hi, He. cbn [bind]. now rewrite Hc, Hs.
Qed.

End Keys.

End Together.

Section Handshake.

Variables K IV : Buffer.
Variable bfo : JSON -> result Buffer.

(** The socket and the session that accepting a connection creates. *)
Lemma accept_sockets (addr : string) (p : N) (s : World) :
  sockets (dispatch K IV bfo (Connection addr p : event unit) s)
  = sockets s
    ++ [{| remoteAddress := addr; remotePort := p; destroyed := false;
           written := [stringify (welcome K IV (clientIdCounter s + 1)) +:+ NL];
           handlers := Some (clientIdCounter s + 1) |}].
Proof.
  cbn [dispatch]. unfold handleConnection, socket_on, socket_write. cbn.
  apply list_eq. intros i.
  destruct (decide (length (sockets s) = i)) as [<-|Hne].
  - rewrite !list_lookup_alter_eq, !lookup_app_r, Nat.sub_diag by lia. reflexivity.
  - rewrite !list_lookup_alter_ne by assumption.
    destruct (decide (i < length (sockets s))%nat) as [Hlt|Hge].
    + now rewrite !lookup_app_l by assumption.
    + rewrite !lookup_ge_None_2; [reflexivity|rewrite length_app; cbn; lia..].
Qed.

Lemma accept_clients (addr : string) (p : N) (s : World) :
  clients (dispatch K IV bfo (Connection addr p : event unit) s)
  = <[clientIdCounter s + 1 :=
        {| id := clientIdCounter s + 1; socket := length (sockets s);
           address := addr; port := p; connected := true;
           bytesReceived := 0; bytesSent := 0 |}]> (clients s).
Proof.
  cbn [dispatch]. unfold handleConnection, socket_on, socket_write, socket_at. cbn.
  now rewrite lookup_app_r, Nat.sub_diag by lia.
Qed.

Lemma accept_socket_at (addr : string) (p : N) (s : World) :
  sockets (dispatch K IV bfo (Connection addr p : event unit) s) !! length (sockets s)
  = Some {| remoteAddress := addr; remotePort := p; destroyed := false;
            written := [stringify (welcome K IV (clientIdCounter s + 1)) +:+ NL];
            handlers := Some (clientIdCounter s + 1) |}.
Proof. now rewrite accept_sockets, lookup_app_r, Nat.sub_diag by lia. Qed.

(** X21. The handshake, end to end.  The server accepts a connection and
    writes its welcome; the client, reading it, takes the identity and the
    key and the IV of the server and writes its tunnel request; the server,
    reading that, logs it and answers on the same socket; the client,
    reading the answer, reports the tunnel as established.  Each side
    reads exactly the frame the other wrote. *)
Theorem handshake_completes (addr : string) (p : N) (now1 now2 now3 : Z)
    (s : World) (w : Client.World) (k : Client.Socket) :
  Client.connected w = true ->
  Client.socket w = Some k ->
  Client.ended k = false ->
  Client.buffer w = EmptyString ->
  let id := clientIdCounter s + 1 in
  let h := length (sockets s) in
  let s1 := dispatch K IV bfo (Connection addr p : event unit) s in
  let w1 := Client.on_data bfo (wire (welcome K IV id)) now1 w in
  let s2 := dispatch K IV bfo
              (SocketData h (wire Client.tunnel_request) now2 : event unit) s1 in
  let w2 := Client.on_data bfo (wire tunnel_established) now3 w1 in
  written (socket_at s1 h) = [stringify (welcome K IV id) +:+ NL] /\
  Client.clientId w1 = Some (JInt (Z.of_N id)) /\
  Client.encryptionKey w1 = Some K /\
  Client.encryptionIV w1 = Some IV /\
  Client.sent w1 = Client.sent w ++ [stringify Client.tunnel_request +:+ NL] /\
  written (socket_at s2 h)
  = [stringify (welcome K IV id) +:+ NL; stringify tunnel_established +:+ NL] /\
  console s2 = console s1 ++ [Log_tunnel_request id] /\
  Client.console w2
  = Client.console w
    ++ [Client.Log_client_id (Some (JInt (Z.of_N id)));
        Client.Log_server_message (Some (JString "Connected to VPN Server"));
        Client.Log_encryption_initialized;
        Client.Log_tunnel_established;
        Client.Log_type_messages].
Proof.
  intros Hc Hs He Hb id h s1 w1 s2 w2.
  pose proof (accept_socket_at addr p s) as Hk1. fold s1 h id in Hk1.
  pose proof (accept_clients addr p s) as Hc1. fold s1 h id in Hc1.
  (* the client reads the welcome *)
  assert (Hw1 : w1 = Client.add_bytesReceived
                       (N.of_nat (length (wire (welcome K IV id))))
                       (Client.handleMessage bfo (welcome K IV id) now1 w).1).
  { unfold w1. rewrite (Frames.on_data_frame bfo _ now1 w Hb).
    unfold Client.try_handleMessage.
    now rewrite (Together.handleMessage_welcome K IV bfo id now1 w k Hc Hs). }
  rewrite (Together.handleMessage_welcome K IV bfo id now1 w k Hc Hs) in Hw1.
  cbn [fst] in Hw1.
  (* the server reads the tunnel request *)
  assert (Hs2 : s2 = replied id
                       {| id := id; socket := h; address := addr; port := p;
                          connected := true; bytesReceived := 0; bytesSent := 0 |}
                       (length (wire Client.tunnel_request))
                       (stringify tunnel_established +:+ NL)
                       (log (Log_tunnel_request id) s1)).
  { unfold s2. cbn [dispatch]. rewrite (socket_at_Some s1 h _ Hk1).
    cbn [handlers destroyed]. unfold handleClientData, handle_message.
    rewrite Hc1, lookup_insert_eq.
    rewrite (Frames.Buffer_toString_wire Client.tunnel_request), parse_frame.
    cbn [bind].
    change (get Client.tunnel_request "type") with (Ok (Some (JString "tunnel"))).
    cbn [bind]. change (is_string (Some (JString "tunnel")) "ping") with false.
    change (is_string (Some (JString "tunnel")) "data") with false.
    change (is_string (Some (JString "tunnel")) "tunnel") with true. cbv iota.
    apply (sendToClient_after_count id _ (length (wire Client.tunnel_request))
             tunnel_established (log (Log_tunnel_request id) s1)).
    - cbn [clients log]. now rewrite Hc1, lookup_insert_eq.
    - reflexivity. }
  (* the client reads the answer *)
  assert (Hb1 : Client.buffer w1 = EmptyString) by (rewrite Hw1; exact Hb).
  assert (Hw2 : w2 = Client.add_bytesReceived
                       (N.of_nat (length (wire tunnel_established)))
                       (Client.log Client.Log_type_messages
                          (Client.log Client.Log_tunnel_established w1))).
  { unfold w2. now rewrite (Frames.on_data_frame bfo _ now3 w1 Hb1). }
  split; [now rewrite (socket_at_Some s1 h _ Hk1)|].
  split; [now rewrite Hw1|]. split; [now rewrite Hw1|]. split; [now rewrite Hw1|].
  split.
  { rewrite Hw1. unfold Client.sent. cbn. rewrite Hs. unfold Client.write.
    now rewrite He. }
  split.
  { rewrite Hs2. unfold replied. rewrite socket_at_set_clients.
    cbn [socket].
    rewrite (written_socket_write (log (Log_tunnel_request id) s1) h h _ _ Hk1 eq_refl).
    now rewrite decide_True by reflexivity. }
  split; [now rewrite Hs2|].
  rewrite Hw2, Hw1. cbn. now rewrite <- !app_assoc.
Qed.

End Handshake.

Section Relay.

Variables K IV : Buffer.
Variable bfo : JSON -> result Buffer.

Lemma handleClientData_data_packet (A : N) (cA : clientInfo) (c P : Buffer)
    (now : Z) (s : World) :
  clients s !! A = Some cA ->
  c <> [] ->
  decipher K IV c = Ok P ->
  handleClientData K IV bfo A (wire (Client.data_packet c)) now s
  = broadcastToOthers A (relay A P)
      (log (Log_decrypted A P)
         (set_clients
            (insert A (add_bytesReceived
                         (N.of_nat (length (wire (Client.data_packet c)))) cA)) s)).
Proof.
  intros HA Hne Hdec. unfold handleClientData, handle_message.
  rewrite HA, Frames.Buffer_toString_wire, parse_frame. cbn [bind].
  change (get (Client.data_packet c) "type") with (Ok (Some (JString "data"))).
  cbn [bind]. change (is_string (Some (JString "data")) "ping") with false.
  change (is_string (Some (JString "data")) "data") with true. cbv iota.
  change (get (Client.data_packet c) "encrypted") with (Ok (Some (JBool true))).
  change (get (Client.data_packet c) "payload")
    with (Ok (Some (JString (Hex.to_hex c)))).
  cbn [bind truthy andb].
  assert (Hpl : String.eqb (Hex.to_hex c) "" = false).
  { destruct c as [|x c]; [congruence|reflexivity]. }
  rewrite Hpl. cbn [negb Buffer_from bind].
  rewrite Hex_facts.from_hex_to_hex. unfold decrypt. rewrite Hdec.
  reflexivity.
Qed.

End Relay.

(** X22. A typed message, end to end.  The client [A], holding the key of
    the server, encrypts the text and writes one data frame; the server,
    reading that frame from the session of [A], decrypts it and writes one
    relay frame to every other session and none to [A]; a client reading
    the relay frame prints the sender and the bytes of the text that was
    typed. *)
Theorem typed_text_reaches_the_other_clients
    (K IV : Buffer) (bfo : JSON -> result Buffer)
    (text : string) (nowS nowB : Z)
    (wA wB : Client.World) (kA : Client.Socket)
    (s : World) (A : N) (cA : clientInfo) :
  length K = 32%nat ->
  length IV = 16%nat ->
  Client.encryptionKey wA = Some K ->
  Client.encryptionIV wA = Some IV ->
  Client.connected wA = true ->
  Client.socket wA = Some kA ->
  Client.ended kA = false ->
  reachable K IV bfo s ->
  clients s !! A = Some cA ->
  Client.buffer wB = EmptyString ->
  let P := list_byte_of_string text in
  exists encrypted,
    let frame := stringify (Client.data_packet encrypted) +:+ NL in
    let s' := handleClientData K IV bfo A (list_byte_of_string frame) nowS s in
    let relayed := stringify (relay A P) +:+ NL in
    let wB' := Client.on_data bfo (list_byte_of_string relayed) nowB wB in
    (Client.sendEncryptedData text wA).2 = Ok tt /\
    Client.sent (Client.sendEncryptedData text wA).1 = Client.sent wA ++ [frame] /\
    (forall X cx, clients s !! X = Some cx ->
       written (socket_at s' (socket cx))
       = written (socket_at s (socket cx))
         ++ (if decide (X = A) then [] else [relayed])) /\
    Client.console wB'
    = Client.console wB
      ++ [Client.Log_relayed_from (Some (JInt (Z.of_N A))); Client.Log_data P].
Proof.
  intros HK HIV Hkey Hiv Hc Hs He Hreach HA Hb P.
  destruct (decipher_encrypt K IV HK HIV P) as (c & Henc & Hdec).
  assert (Hne : c <> []).
  { intros ->. unfold decipher, Cipher.createDecipheriv in Hdec.
    rewrite (check_key_iv_ok K IV HK HIV) in Hdec. discriminate Hdec. }
  exists c. intros frame s' relayed wB'.
  rewrite (Together.sendEncryptedData_connected K IV text wA kA c Hkey Hiv Hc Hs Henc).
  split; [reflexivity|]. split.
  { unfold Client.sent. cbn. rewrite Hs. unfold Client.write. now rewrite He. }
  split.
  - intros X cx Hx.
    pose proof (reachable_registry_ok K IV bfo s Hreach) as Hok.
    set (n := N.of_nat (length (wire (Client.data_packet c)))).
    set (s2 := log (Log_decrypted A P)
                 (set_clients (insert A (add_bytesReceived n cA)) s)).
    assert (Hok2 : registry_ok s2).
    { apply registry_ok_log.
      eapply registry_ok_update; [exact Hok|exact HA|reflexivity..]. }
    assert (Hs' : s' = broadcastToOthers A (relay A P) s2)
      by exact (handleClientData_data_packet K IV bfo A cA c P nowS s HA Hne Hdec).
    set (cx2 := if decide (A = X) then add_bytesReceived n cA else cx).
    assert (Hx2 : clients s2 !! X = Some cx2).
    { subst s2 cx2. cbn. rewrite lookup_insert.
      destruct (decide (A = X)); [reflexivity|exact Hx]. }
    assert (Hsock : socket cx2 = socket cx).
    { subst cx2. destruct (decide (A = X)) as [<-|]; [|reflexivity]. cbn. congruence. }
    destruct (broadcast_fold_spec A (relay A P) (Object_keys (clients s2)) s2
                (Object_keys_NoDup _) Hok2) as (_ & _ & Hall).
    destruct (Hall X cx2 Hx2) as [_ Hw]. rewrite Hsock in Hw.
    rewrite Hs'. unfold broadcastToOthers. rewrite Hw.
    change (socket_at s2 (socket cx)) with (socket_at s (socket cx)).
    f_equal. fold relayed.
    destruct (decide (X = A)) as [->|HXA].
    + rewrite bool_decide_eq_false_2; [reflexivity|]. intros [_ H]. now apply H.
    + rewrite bool_decide_eq_true_2; [reflexivity|]. split; [|exact HXA].
      apply elem_of_Object_keys. rewrite Hx2. eauto.
  - unfold wB'. change (list_byte_of_string relayed) with (wire (relay A P)).
    rewrite (Frames.on_data_frame bfo _ nowB wB Hb).
    unfold Client.try_handleMessage.
    rewrite (Together.handleMessage_relay bfo A P nowB wB). cbn.
    now rewrite <- app_assoc.
Qed.

(** ** What the client writes *)

Module Writes.
Import Client.


Section Writes.

Variable bfo : JSON -> result Buffer.













End Writes.

End Writes.


(** X24. The client's cipher is the server's.  With the key and the IV of
    the server, what the client's [encrypt] returns is what the server's
    [encrypt] returns, the server's [decrypt] and the client's [decrypt]
    both give back the input, and none of them prints anything. *)
Theorem client_cipher_matches_server (K IV data : Buffer) (w : Client.World) :
  length K = 32%nat ->
  length IV = 16%nat ->
  Client.encryptionKey w = Some K ->
  Client.encryptionIV w = Some IV ->
  exists c,
    encrypt K IV data = Ok c /\
    Client.encrypt data w = (w, Ok (Some c)) /\
    decrypt K IV c = (Some data, []) /\
    Client.decrypt c w = (w, Ok (Some data)).
Proof.
  intros HK HIV Hk Hi.
  destruct (decipher_encrypt K IV HK HIV data) as (c & Henc & Hdec).
  exists c. split; [exact Henc|]. split.
  { unfold Client.encrypt. rewrite Hk, Hi.
    change (Client.cipher_text K IV data) with (encrypt K IV data).
    now rewrite Henc. }
  split.
  { unfold decrypt. now rewrite Hdec. }
  unfold Client.decrypt. rewrite Hk, Hi.
  change (let! decipher := Cipher.createDecipheriv K IV in
          let '(decipher, head) := Cipher.decipher_update decipher c in
          let! tail := Cipher.decipher_final decipher in
          Ok (head ++ tail))
    with (decipher K IV c).
  now rewrite Hdec.
Qed.

(** X25. A ping, end to end.  The client writes a ping stamped with its
    clock; the server answers on the same socket with a pong stamped with
    its own clock; the client, reading the pong, prints as latency the
    difference between its clock at that moment and the server's clock.
    The time at which the ping was sent does not enter what is printed. *)
Theorem ping_latency_is_a_clock_difference
    (K IV : Buffer) (bfo : JSON -> result Buffer)
    (sent_at server_clock received_at : Z)
    (w : Client.World) (k : Client.Socket)
    (s : World) (A : N) (cA : clientInfo) :
  Client.connected w = true ->
  Client.socket w = Some k ->
  Client.ended k = false ->
  Client.buffer w = EmptyString ->
  reachable K IV bfo s ->
  clients s !! A = Some cA ->
  let w1 := (Client.ping sent_at w).1 in
  let s' := handleClientData K IV bfo A (wire (Client.ping_packet sent_at))
              server_clock s in
  let w2 := Client.on_data bfo (wire (pong server_clock)) received_at w1 in
  Client.sent w1 = Client.sent w ++ [stringify (Client.ping_packet sent_at) +:+ NL] /\
  written (socket_at s' (socket cA))
  = written (socket_at s (socket cA)) ++ [stringify (pong server_clock) +:+ NL] /\
  Client.console w2
  = Client.console w ++ [Client.Log_pong received_at (Some (JInt server_clock))].
Proof.
  intros Hc Hs He Hb Hreach HA w1 s' w2.
  assert (Hw1 : w1 = Client.add_bytesSent
                       (N.of_nat (String.length
                                    (stringify (Client.ping_packet sent_at) +:+ NL)))
                       (Client.set_socket
                          (Some (Client.write
                                   (stringify (Client.ping_packet sent_at) +:+ NL) k))
                          w)).
  { unfold w1, Client.ping, Client.sendMessage. now rewrite Hc, Hs. }
  split.
  { rewrite Hw1. unfold Client.sent. cbn. rewrite Hs. unfold Client.write.
    now rewrite He. }
  split.
  - destruct (reachable_registry_ok K IV bfo s Hreach A cA HA)
      as [(_ & Hco & kx & Hkx & Hdx & _) _].
    assert (Hs' : s' = replied A cA (length (wire (Client.ping_packet sent_at)))
                         (stringify (pong server_clock) +:+ NL) s).
    { unfold s', handleClientData, handle_message.
      rewrite HA, (Frames.Buffer_toString_wire (Client.ping_packet sent_at)), parse_frame.
      cbn [bind].
      change (get (Client.ping_packet sent_at) "type") with (Ok (Some (JString "ping"))).
      cbn [bind]. change (is_string (Some (JString "ping")) "ping") with true.
      cbv iota. now apply sendToClient_after_count. }
    rewrite Hs'. unfold replied. rewrite socket_at_set_clients.
    rewrite (written_socket_write s (socket cA) (socket cA) _ kx Hkx Hdx).
    rewrite decide_True by reflexivity.
    now rewrite (socket_at_Some s (socket cA) kx Hkx).
  - assert (Hb1 : Client.buffer w1 = EmptyString) by (rewrite Hw1; exact Hb).
    unfold w2. rewrite (Frames.on_data_frame bfo _ received_at w1 Hb1).
    rewrite Hw1. reflexivity.
Qed.

(** X26. What becomes of a typed line of ASCII characters that is not a
    command.  Before any welcome was read the text is dropped with an error
    line and nothing is written.  With a key of 32 bytes and an IV of 16 the text is encrypted
    and one data frame is sent (or, when the link is down, reported as not
    sent).  With a key or IV of another size, as a welcome with shorter hex
    strings leaves them, the cipher cannot be created and the error, which
    nothing catches, ends the process with status 1. *)
Theorem typed_message_outcome
    (line : string) (now : Z) (w : Client.World) :
  ascii_text line = true ->
  let input := Client.trim line in
  ~ In input ["quit"; "exit"; "ping"; "stats"; ""]%string ->
  let w' := Client.rl_on_line line now w in
  match Client.encryptionKey w, Client.encryptionIV w with
  | Some key, Some iv =>
      if (length key =? 32)%nat && (length iv =? 16)%nat then
        exists c,
          Client.cipher_text key iv (list_byte_of_string input) = Ok c /\
          w' = Client.prompt
                 (Client.log (Client.Log_sent_encrypted (N.of_nat (length c)))
                    (Client.sendMessage (Client.data_packet c) w).1)
      else w' = Client.process_exit 1 w
  | _, _ => w' = Client.prompt (Client.log Client.Error_keys_not_initialized w)
  end.
Proof.
  intros _ input Hin w'. unfold w', Client.rl_on_line. fold input.
  assert (Hne : forall c, In c ["quit"; "exit"; "ping"; "stats"; ""]%string ->
                  String.eqb input c = false).
  { intros c Hc. apply String.eqb_neq. intros ->. contradiction. }
  rewrite !Hne by (cbn; auto 10). cbn [orb].
  unfold Client.sendEncryptedData, Client.and_then, Client.encrypt.
  destruct (Client.encryptionKey w) as [key|]; [|reflexivity].
  destruct (Client.encryptionIV w) as [iv|]; [|reflexivity].
  destruct ((length key =? 32)%nat && (length iv =? 16)%nat) eqn:Hlen.
  - apply andb_prop in Hlen as [Hk Hi].
    apply Nat.eqb_eq in Hk. apply Nat.eqb_eq in Hi.
    destruct (decipher_encrypt key iv Hk Hi (list_byte_of_string input))
      as (c & Henc & _).
    exists c. split; [exact Henc|].
    change (Client.cipher_text key iv (list_byte_of_string input))
      with (encrypt key iv (list_byte_of_string input)).
    rewrite Henc. cbn [bind].
    unfold Client.sendMessage, Client.effect.
    destruct (Client.connected w); [|reflexivity].
    destruct (Client.socket w); reflexivity.
  - unfold Client.cipher_text, Cipher.createCipheriv, Cipher.check_key_iv.
    apply andb_false_iff in Hlen as [Hk|Hi].
    + rewrite Hk. reflexivity.
    + rewrite Hi. destruct (length key =? 32)%nat; reflexivity.
Qed.

(** ** Worked examples *)

Lemma client_reassembles_chunks_witness :
  let data := wire (pong 5) in
  Client.on_data sample_from_object (drop 7 data) 9
    (Client.on_data sample_from_object (take 7 data) 9 sample_client)
  = Client.on_data sample_from_object (take 7 data ++ drop 7 data) 9 sample_client.
Proof.
  intros data. apply client_reassembles_chunks. vm_compute; reflexivity.
Defined.


Lemma handshake_completes_witness :
  let s1 := dispatch sample_key sample_iv sample_from_object
              (Connection "10.0.0.1" 5001 : event unit) (VPNServer None None) in
  let w1 := Client.on_data sample_from_object
              (wire (welcome sample_key sample_iv 1)) 0 sample_client in
  let s2 := dispatch sample_key sample_iv sample_from_object
              (SocketData 0 (wire Client.tunnel_request) 0 : event unit) s1 in
  Client.encryptionKey w1 = Some sample_key /\
  Client.encryptionIV w1 = Some sample_iv /\
  written (socket_at s2 0)
  = [stringify (welcome sample_key sample_iv 1) +:+ NL;
     stringify tunnel_established +:+ NL].
Proof.
  intros s1 w1 s2.
  destruct (handshake_completes sample_key sample_iv sample_from_object
              "10.0.0.1" 5001 0 0 0 (VPNServer None None) sample_client
              sample_socket eq_refl eq_refl eq_refl eq_refl)
    as (_ & _ & Hk & Hi & _ & Hw & _).
  split; [exact Hk|]. split; [exact Hi|exact Hw].
Defined.

Lemma typed_text_reaches_the_other_clients_witness :
  let hello := list_byte_of_string "hello" in
  exists encrypted,
    let frame := stringify (Client.data_packet encrypted) +:+ NL in
    let s' := handleClientData sample_key sample_iv sample_from_object 1
                (list_byte_of_string frame) 0 three_clients in
    Client.sent (Client.sendEncryptedData "hello" sample_keyed_client).1 = [frame] /\
    written (socket_at s' 0) = written (socket_at three_clients 0) ++ [] /\
    written (socket_at s' 1)
    = written (socket_at three_clients 1) ++ [stringify (relay 1 hello) +:+ NL] /\
    Client.console
      (Client.on_data sample_from_object (wire (relay 1 hello)) 0 sample_client)
    = Client.console sample_client
      ++ [Client.Log_relayed_from (Some (JInt 1)); Client.Log_data hello].
Proof.
  intros hello.
  assert (Hreach : reachable sample_key sample_iv sample_from_object three_clients).
  { exists unit, None, None. eexists. reflexivity. }
  assert (H1 : clients three_clients !! 1 = Some (sample_session 1 "10.0.0.1" 5001))
    by (vm_compute; reflexivity).
  assert (H2 : clients three_clients !! 2 = Some (sample_session 2 "10.0.0.2" 5002))
    by (vm_compute; reflexivity).
  destruct (typed_text_reaches_the_other_clients
              sample_key sample_iv sample_from_object "hello" 0 0
              sample_keyed_client sample_client sample_socket three_clients 1
              (sample_session 1 "10.0.0.1" 5001)
              eq_refl eq_refl eq_refl eq_refl eq_refl eq_refl eq_refl Hreach H1 eq_refl)
    as (c & _ & Hsent & Hall & Hcon).
  exists c. split; [exact Hsent|]. split.
  - exact (Hall 1 _ H1).
  - split; [exact (Hall 2 _ H2)|exact Hcon].
Defined.

Lemma client_cipher_matches_server_witness :
  exists c,
    encrypt sample_key sample_iv sample_block = Ok c /\
    Client.encrypt sample_block sample_keyed_client
    = (sample_keyed_client, Ok (Some c)) /\
    decrypt sample_key sample_iv c = (Some sample_block, []) /\
    Client.decrypt c sample_keyed_client = (sample_keyed_client, Ok (Some sample_block)).
Proof.
  exact (client_cipher_matches_server sample_key sample_iv sample_block
           sample_keyed_client eq_refl eq_refl eq_refl eq_refl).
Defined.

Lemma ping_latency_is_a_clock_difference_witness :
  let w1 := (Client.ping 1000 sample_client).1 in
  let s' := handleClientData sample_key sample_iv sample_from_object 2
              (wire (Client.ping_packet 1000)) 400 three_clients in
  written (socket_at s' 1)
  = written (socket_at three_clients 1) ++ [stringify (pong 400) +:+ NL] /\
  Client.console (Client.on_data sample_from_object (wire (pong 400)) 1010 w1)
  = Client.console sample_client ++ [Client.Log_pong 1010 (Some (JInt 400))].
Proof.
  intros w1 s'.
  assert (Hreach : reachable sample_key sample_iv sample_from_object three_clients).
  { exists unit, None, None. eexists. reflexivity. }
  assert (H2 : clients three_clients !! 2 = Some (sample_session 2 "10.0.0.2" 5002))
    by (vm_compute; reflexivity).
  destruct (ping_latency_is_a_clock_difference
              sample_key sample_iv sample_from_object 1000 400 1010
              sample_client sample_socket three_clients 2
              (sample_session 2 "10.0.0.2" 5002)
              eq_refl eq_refl eq_refl eq_refl Hreach H2)
    as (_ & Hw & Hcon).
  split; [exact Hw|exact Hcon].
Defined.

Lemma typed_message_outcome_witness :
  let w' := Client.rl_on_line " hello " 0 sample_keyed_client in
  exists c,
    Client.cipher_text sample_key sample_iv (list_byte_of_string "hello") = Ok c /\
    w' = Client.prompt
           (Client.log (Client.Log_sent_encrypted (N.of_nat (length c)))
              (Client.sendMessage (Client.data_packet c) sample_keyed_client).1).
Proof.
  intros w'.
  assert (Hin : ~ In (Client.trim " hello ") ["quit"; "exit"; "ping"; "stats"; ""]%string).
  { vm_compute. intros H. repeat destruct H as [H|H]; try discriminate H. exact H. }
  exact (typed_message_outcome " hello " 0 sample_keyed_client eq_refl Hin).
Defined.
